(** * Verification of the tpm2-tss logging facility (src/util/log.c)

    The development embeds [src/util/log.c] in Rocq: the case-insensitive
    string comparison, the level-name table lookup, the [TSS2_LOG] level
    resolver, the [TSS2_LOGFILE] destination resolver and the two emitters
    [doLog] and [doLogBlob], and proves the properties that the
    specification states about them.

    Conventions of the embedding.
    - A [char] is an [ascii]; a C string (or any [char] buffer a pointer
      points into) is the [list ascii] of the bytes that start at the
      pointer.  The terminating NUL is implicit: reading past the end of
      the list yields NUL.  A list may contain NUL bytes; every function
      below stops at the first one exactly as the C function does.
    - A pointer into the [TSS2_LOG] buffer is the offset (a [nat]) from its
      start, [skipn i envlevel] is the string the pointer [envlevel + i]
      denotes.
    - [log_level] is the C enum seen as an integer ([Z]).
    - Character classification ([tolower], [isgraph]) is that of the "C"
      locale. *)

From Stdlib Require Import ZArith Ascii String DecimalString Bool Lia Arith List.
Import ListNotations.

#[local] Open Scope Z_scope.

(** ** Characters and C strings *)

Definition NUL : ascii := Ascii.zero.
Definition newline : ascii := "010"%char.

(** The string literal [s] as a buffer (without its terminator). *)
Definition cstr (s : string) : list ascii := list_ascii_of_string s.

(** [(unsigned char) c] as an [int]. *)
Definition uchar (c : ascii) : Z := Z.of_N (N_of_ascii c).

(** [*p]: the byte under the pointer, NUL at the terminator. *)
Definition deref (p : list ascii) : ascii := hd NUL p.

(** [tolower] of <ctype.h> in the "C" locale. *)
Definition tolower (c : Z) : Z :=
  if (65 <=? c) && (c <=? 90) then c + 32 else c.

(** [isgraph] of <ctype.h> in the "C" locale: 0x21 .. 0x7e. *)
Definition isgraph (c : Z) : bool := (33 <=? c) && (c <=? 126).

(** [strlen]. *)
Fixpoint strlen (s : list ascii) : nat :=
  match s with
  | [] => O
  | c :: s' => if Ascii.eqb c NUL then O else S (strlen s')
  end.

(** [strchr (s, c)]: the offset of the first [c] in the string, [None] for
    the NULL result. *)
Fixpoint strchr (s : list ascii) (c : ascii) : option nat :=
  match s with
  | [] => if Ascii.eqb c NUL then Some O else None
  | x :: s' =>
      if Ascii.eqb x c then Some O
      else if Ascii.eqb x NUL then None
      else option_map S (strchr s' c)
  end.

(** [strcmp]: only the sign of the result is specified by C; the model
    returns the difference of the first differing bytes. *)
Fixpoint strcmp (s1 s2 : list ascii) : Z :=
  match s1 with
  | [] => 0 - uchar (deref s2)
  | c1 :: s1' =>
      if negb (Ascii.eqb c1 (deref s2)) then uchar c1 - uchar (deref s2)
      else if Ascii.eqb c1 NUL then 0
      else strcmp s1' (tl s2)
  end.

(** ** [case_insensitive_strncmp] (log.c, lines 62-91) *)

(** The [do ... while] loop.  [m] is the number of iterations that remain
    after the current one, i.e. the value [--n] yields at the end of this
    iteration. *)
Fixpoint strncmp_loop (m : nat) (string1 string2 : list ascii) : Z :=
  let result :=
    tolower (uchar (deref string1)) - tolower (uchar (deref string2)) in
  if negb (result =? 0) then result
  else if Ascii.eqb (deref string1) NUL then result
  else if Ascii.eqb (deref string2) NUL then result
  else match m with
       | O => result
       | S m' => strncmp_loop m' (tl string1) (tl string2)
       end.

(** A NULL pointer is [None].  The test [string1 == string2] of the source
    (same address) is not modelled: a string compared with itself gives 0
    through the loop as well (lemma [strncmp_loop_refl]). *)
Definition case_insensitive_strncmp
    (string1 string2 : option (list ascii)) (n : nat) : Z :=
  match string1, string2 with
  | None, None => 0
  | None, Some _ => -1
  | Some _, None => 1
  | Some s1, Some s2 =>
      match n with
      | O => 0
      | S m => strncmp_loop m s1 s2
      end
  end.

(** ** Log levels *)

(** The enumeration [log_level] of [log.h].  Its enumerators are not
    negative, and the compilers in use give such an enumeration an
    unsigned type: a level is a number from 0 upwards, and the negative
    numbers of [Z] stand for no value of the type.  What is stated below
    about levels outside the table concerns levels above it. *)
Definition log_level := Z.

Definition LOGLEVEL_NONE : log_level := 0.
Definition LOGLEVEL_UNUSED : log_level := 1.
Definition LOGLEVEL_ERROR : log_level := 2.
Definition LOGLEVEL_WARNING : log_level := 3.
Definition LOGLEVEL_INFO : log_level := 4.
Definition LOGLEVEL_DEBUG : log_level := 5.
Definition LOGLEVEL_TRACE : log_level := 6.

(** The table [log_strings] (log.c, lines 27-35). *)
Definition log_strings : list (list ascii) :=
  map cstr ["none"; "(unused)"; "ERROR"; "WARNING"; "info"; "debug"; "trace"]%string.

(** ** The process state and the observable effects *)

(** A [FILE*]: the two standard streams, or the stream [fopen] returned for
    a path. *)
Inductive FILE : Type :=
| stderr
| stdout
| opened (path : list ascii).

Inductive event : Type :=
| Getenv (name : string)
| Fopen (path : list ascii) (mode : string)
| Write (stream : FILE) (text : list ascii)
| Fflush (stream : FILE).

(** What the code can observe and change: the environment ([getenv]), the
    file system as far as [fopen (path, "a+")] depends on it ([None]: the
    stream is opened; [Some e]: [fopen] returns NULL and [strerror (errno)]
    is [e]), the function-static [file] of [getLogFile] and the calls made
    to the C library so far, the oldest first. *)
Record world : Type := mkWorld {
  environ : string -> option (list ascii);
  fopen_error : list ascii -> option (list ascii);
  logfile_static : option FILE;
  trace : list event
}.

Definition emit (e : event) (w : world) : world :=
  mkWorld (environ w) (fopen_error w) (logfile_static w) (trace w ++ [e]).

Definition set_logfile (f : FILE) (w : world) : world :=
  mkWorld (environ w) (fopen_error w) (Some f) (trace w).

(** A call returns, or runs into undefined behaviour of C (an access
    outside an array), or the model runs out of the iterations it was
    given. *)
Inductive outcome (A : Type) : Type :=
| Returns (a : A)
| Undefined
| OutOfFuel.
Arguments Returns {A} a.
Arguments Undefined {A}.
Arguments OutOfFuel {A}.

Definition M (A : Type) : Type := world -> outcome (A * world).

Definition ret {A} (a : A) : M A := fun w => Returns (a, w).

Definition bind {A B} (m : M A) (k : A -> M B) : M B :=
  fun w =>
    match m w with
    | Returns (a, w') => k a w'
    | Undefined => Undefined
    | OutOfFuel => OutOfFuel
    end.

Definition undefined {A} : M A := fun _ => Undefined.

Definition lift {A} (f : world -> A * world) : M A :=
  fun w => Returns (f w).

Definition do_emit (e : event) : M unit := fun w => Returns (tt, emit e w).

Definition of_option {A} (o : option A) : M A :=
  match o with
  | Some a => ret a
  | None => undefined
  end.

Notation "x <- m ;; k" := (bind m (fun x => k))
  (at level 61, m at next level, right associativity).
Notation "m ;;; k" := (bind m (fun _ => k))
  (at level 61, right associativity).

(** ** printf conversions *)

(** The argument of a [%s]: the bytes up to the terminator. *)
Definition to_nul (s : list ascii) : list ascii := firstn (strlen s) s.

Definition hex_digit (d : Z) : ascii :=
  nth (Z.to_nat d) (cstr "0123456789abcdef") "0"%char.

(** The [n] low hexadecimal digits of [v], the most significant first. *)
Fixpoint hex_digits (n : nat) (v : Z) : list ascii :=
  match n with
  | O => []
  | S n' => hex_digits n' (v / 16) ++ [hex_digit (v mod 16)]
  end.

Fixpoint strip_zeros (ds : list ascii) : list ascii :=
  match ds with
  | [] => []
  | d :: ds' => if Ascii.eqb d "0"%char then strip_zeros ds' else ds
  end.

(** [%0<width>x] of an [unsigned int] (32 bits): at least [width] digits,
    more when the value needs them. *)
Definition fmt_x (width : nat) (v : Z) : list ascii :=
  let ds := strip_zeros (hex_digits 8 v) in
  repeat "0"%char (width - length ds) ++ ds.

(** [%d]. *)
Definition fmt_d (v : Z) : list ascii :=
  cstr (DecimalString.NilZero.string_of_int (Z.to_int v)).

(** [%zi] given a [size_t]: the 64-bit value read as a signed one. *)
Definition fmt_zi (size : Z) : list ascii :=
  fmt_d (if size <? 2 ^ 63 then size else size - 2 ^ 64).

(** [unsigned int] arithmetic wraps at 32 bits. *)
Definition uint (v : Z) : Z := v mod 2 ^ 32.
Definition UINT_MAX : Z := 2 ^ 32 - 1.

(** The value of a [uint8_t]. *)
Definition byte_val (b : Byte.byte) : Z := uchar (ascii_of_byte b).

(** ** The line buffer of [doLogBlob] *)

Definition LINE_LEN : nat := 64.
Definition LOG_MSG_MAX : nat := 255.

(** [char buffer[LINE_LEN]] as the map from index to byte. *)
Definition line_buffer := nat -> ascii.

(** The array after [s] and a terminator are stored from [off] on. *)
Definition store (buffer : line_buffer) (off : nat) (s : list ascii)
  : line_buffer :=
  fun k =>
    if (k <? off)%nat then buffer k
    else nth (k - off) (s ++ [NUL]) (buffer k).

(** [sprintf (&buffer[off], "...")] where the conversion yields [s];
    storing past the end of the array is undefined. *)
Definition sprintf (buffer : line_buffer) (off : nat) (s : list ascii)
  : M line_buffer :=
  if (off + length s + 1 <=? LINE_LEN)%nat then ret (store buffer off s)
  else undefined.

(** [memset (buffer, '\0', LINE_LEN)]. *)
Definition memset_zero : line_buffer := fun _ => NUL.

(** The argument [buffer] of a [%s]: the bytes before the first NUL; none
    within the array means a read past its end. *)
Fixpoint buffer_string (buffer : line_buffer) (from len : nat)
  : option (list ascii) :=
  match len with
  | O => None
  | S len' =>
      if Ascii.eqb (buffer from) NUL then Some []
      else option_map (cons (buffer from))
                      (buffer_string buffer (S from) len')
  end.

(** ** Sample states of the process *)

(** A fresh process without [TSS2_LOG] and [TSS2_LOGFILE]. *)
Definition sample_world : world :=
  mkWorld (fun _ => None) (fun _ => None) None [].

(** A fresh process with [TSS2_LOGFILE] set to [value], in which every
    file can be opened. *)
Definition sample_world_logfile (value : list ascii) : world :=
  mkWorld
    (fun name =>
       if String.eqb name "TSS2_LOGFILE" then Some value else None)
    (fun _ => None) None [].

(** A fresh process whose [TSS2_LOGFILE] names a file in a directory that
    does not exist. *)
Definition sample_world_unwritable : world :=
  mkWorld
    (fun name =>
       if String.eqb name "TSS2_LOGFILE"
       then Some (cstr "/nonexistent/tss.log") else None)
    (fun _ => Some (cstr "No such file or directory")) None [].

(** A fresh process with [TSS2_LOG] set to [value]. *)
Definition sample_world_log (value : list ascii) : world :=
  mkWorld
    (fun name => if String.eqb name "TSS2_LOG" then Some value else None)
    (fun _ => None) None [].

(** Seventeen bytes: the digits, the letters a-f and a line feed. *)
Definition sample_blob : list Byte.byte :=
  map byte_of_ascii (cstr "0123456789abcdef" ++ [newline]).

Section Logger.

#[local] Set Default Proof Using "Type".

(** [log.h] is not part of the sources at hand.  The enumerators 0..6 are
    fixed by [log_strings] and by the specification; the value of the
    sentinel [LOGLEVEL_UNDEFINED] is a parameter, only known to differ from
    the seven levels. *)
Variable LOGLEVEL_UNDEFINED : log_level.
Hypothesis LOGLEVEL_UNDEFINED_sentinel :
  ~ (0 <= LOGLEVEL_UNDEFINED <= 6).

(** ** [log_stringlevel] (log.c, lines 236-246) *)

Fixpoint log_stringlevel_loop
    (table : list (list ascii)) (i : log_level) (n : list ascii) : log_level :=
  match table with
  | [] => LOGLEVEL_UNDEFINED
  | entry :: table' =>
      if case_insensitive_strncmp (Some entry) (Some n) (strlen entry) =? 0
      then i
      else log_stringlevel_loop table' (i + 1) n
  end.

Definition log_stringlevel (n : list ascii) : log_level :=
  log_stringlevel_loop log_strings 0 n.

(** ** [getLogLevel] (log.c, lines 248-268) *)

(** The test of line 257-260 at the '+' found at offset [i]. *)
Definition entry_matches (envlevel module : list ascii) (i : nat) : bool :=
  ((strlen (cstr "all") <=? i)%nat &&
   (case_insensitive_strncmp
      (Some (skipn (i - 3) envlevel)) (Some (cstr "all")) 3 =? 0))
  ||
  ((strlen module <=? i)%nat &&
   (case_insensitive_strncmp
      (Some (skipn (i - strlen module) envlevel)) (Some module)
      (strlen module) =? 0)).

(** The [while] loop; [i] is the offset at which the next [strchr] starts.
    Every iteration moves [i] forward by at least one, so [S (length
    envlevel)] iterations always suffice ([getLogLevel_loop_scan] below):
    the [O] branch is never taken from [getLogLevel]. *)
Fixpoint getLogLevel_loop (fuel : nat) (envlevel module : list ascii)
    (i : nat) (loglevel : log_level) : log_level :=
  match fuel with
  | O => loglevel
  | S fuel' =>
      match strchr (skipn i envlevel) "+"%char with
      | None => loglevel
      | Some k =>
          let i := (i + k)%nat in
          let loglevel :=
            if entry_matches envlevel module i then
              let tmp := log_stringlevel (skipn (i + 1) envlevel) in
              if negb (tmp =? LOGLEVEL_UNDEFINED) then tmp else loglevel
            else loglevel in
          getLogLevel_loop fuel' envlevel module (i + 1) loglevel
      end
  end.

(** [envlevel] is what [getenv("TSS2_LOG")] returned ([None] for NULL). *)
Definition getLogLevel (envlevel : option (list ascii))
    (module : list ascii) (logdefault : log_level) : log_level :=
  match envlevel with
  | None => logdefault
  | Some e => getLogLevel_loop (S (length e)) e module 0 logdefault
  end.

(** The same [while] loop with the iteration bound observable: [None]
    when [fuel] iterations did not bring the loop to its end, that is when
    [strchr] still finds a '+' after [fuel] rounds. *)
Fixpoint getLogLevel_while (fuel : nat) (envlevel module : list ascii)
    (i : nat) (loglevel : log_level) : option log_level :=
  match fuel with
  | O => None
  | S fuel' =>
      match strchr (skipn i envlevel) "+"%char with
      | None => Some loglevel
      | Some k =>
          let i := (i + k)%nat in
          let loglevel :=
            if entry_matches envlevel module i then
              let tmp := log_stringlevel (skipn (i + 1) envlevel) in
              if negb (tmp =? LOGLEVEL_UNDEFINED) then tmp else loglevel
            else loglevel in
          getLogLevel_while fuel' envlevel module (i + 1) loglevel
      end
  end.

(** ** [getLogFile] (log.c, lines 96-127) *)

(** [config.h] is not part of the sources at hand: whether
    [LOG_FILE_ENABLED] is defined is a parameter of the build. *)
Variable LOG_FILE_ENABLED : bool.

Definition getLogFile (w : world) : FILE * world :=
  if LOG_FILE_ENABLED then
    match logfile_static w with
    | Some file => (file, w)
    | None =>
        let w := emit (Getenv "TSS2_LOGFILE") w in
        match environ w "TSS2_LOGFILE"%string with
        | None => (stderr, set_logfile stderr w)
        | Some envpath =>
            if case_insensitive_strncmp
                 (Some envpath) (Some (cstr "stderr")) 7 =? 0
            then (stderr, set_logfile stderr w)
            else if (strcmp envpath (cstr "-") =? 0)
                    || (case_insensitive_strncmp
                          (Some envpath) (Some (cstr "stdout")) 7 =? 0)
            then (stdout, set_logfile stdout w)
            else
              let w := emit (Fopen (to_nul envpath) "a+") w in
              match fopen_error w (to_nul envpath) with
              | None =>
                  (opened (to_nul envpath),
                   set_logfile (opened (to_nul envpath)) w)
              | Some err =>
                  let w := set_logfile stderr w in
                  let w :=
                    emit (Write stderr
                            (cstr "Failed to open logging file "
                             ++ to_nul envpath ++ cstr ": "
                             ++ to_nul err ++ [newline])) w in
                  let w := emit (Fflush stderr) w in
                  (stderr, w)
              end
        end
    end
  else (stderr, w).

(** ** [doLog] (log.c, lines 208-234) *)

(** [log_strings[loglevel]]; outside the table the access is undefined. *)
Definition log_strings_at (loglevel : log_level) : option (list ascii) :=
  if loglevel <? 0 then None else nth_error log_strings (Z.to_nat loglevel).

(** Lines 215-216 (and 136-137): the cached level [*status] is resolved
    on first use. *)
Definition resolve_status (module : list ascii) (logdefault status : log_level)
    (w : world) : log_level * world :=
  if status =? LOGLEVEL_UNDEFINED then
    let w := emit (Getenv "TSS2_LOG") w in
    (getLogLevel (environ w "TSS2_LOG"%string) module logdefault, w)
  else (status, w).

(** The prefix [snprintf] leaves in [char prefix[1024]]. *)
Definition log_prefix (name module file : list ascii) (line : Z)
    (func : list ascii) : list ascii :=
  firstn 1023
    (to_nul name ++ cstr ":" ++ to_nul module ++ cstr ":" ++ to_nul file
     ++ cstr ":" ++ fmt_d line ++ cstr ":" ++ to_nul func ++ cstr "() ").

(** [text] is the expansion of the format [msg] with the variadic
    arguments, as [vfprintf] writes it.  The result is the new value of
    [*status]. *)
Definition doLog (loglevel : log_level) (module : list ascii)
    (logdefault status : log_level) (file func : list ascii) (line : Z)
    (text : list ascii) : M log_level :=
  status <- lift (resolve_status module logdefault status) ;;
  if loglevel >? status then ret status
  else
    name <- of_option (log_strings_at loglevel) ;;
    let prefix := log_prefix name module file line func in
    logfile <- lift getLogFile ;;
    do_emit (Write logfile prefix) ;;;
    do_emit (Write logfile text) ;;;
    do_emit (Write logfile (cstr " " ++ [newline])) ;;;
    do_emit (Fflush logfile) ;;;
    ret status.

(** ** [doLogBlob] (log.c, lines 129-206) *)

(** Lines 177-180: [for (x = off; x < width * 2 + 8; x++)], one blank per
    iteration.  [x] starts at [off >= 0], so 41 iterations are never
    exceeded. *)
Fixpoint align_loop (fuel : nat) (x off : nat) (buffer : line_buffer)
  : M (line_buffer * nat) :=
  match fuel with
  | O => fun _ => OutOfFuel
  | S fuel' =>
      if (x <? 16 * 2 + 8)%nat then
        buffer <- sprintf buffer off (cstr " ") ;;
        align_loop fuel' (S x) (S off) buffer
      else ret (buffer, off)
  end.

(** Lines 187-194: [for (y = 0; y < width - less; y++)]; [count] is the
    number of iterations left. *)
Fixpoint ascii_loop (count : nat) (y : nat) (blob : list Byte.byte)
    (off2 : Z) (off : nat) (buffer : line_buffer) : M line_buffer :=
  match count with
  | O => ret buffer
  | S count' =>
      b <- of_option (nth_error blob (Z.to_nat (off2 + Z.of_nat y))) ;;
      buffer <- sprintf buffer (y + off)
                  [if isgraph (byte_val b) then ascii_of_byte b
                   else "."%char] ;;
      ascii_loop count' (S y) blob off2 off buffer
  end.

(** Lines 163-166: the offset column of the first line. *)
Definition first_header (i : Z) (off : nat) (buffer : line_buffer)
  : M (line_buffer * nat) :=
  if i =? 1 then
    buffer <- sprintf buffer off (fmt_x 4 (uint (i - 1)) ++ cstr ": ") ;;
    ret (buffer, (off + 6)%nat)
  else ret (buffer, off).

(** Lines 174-203, the body of the [if] that ends a line: the two blanks,
    the alignment, the ASCII column, the output of the line and the start
    of the next one.  The result is the new [buffer], [off] and [off2]. *)
Definition flush_line (blob : list Byte.byte) (i : Z) (off : nat) (off2 : Z)
    (buffer : line_buffer) : M (line_buffer * nat * Z) :=
  buffer <- sprintf buffer off (cstr "  ") ;;
  let off := (off + 2)%nat in
  st <- align_loop 41 off off buffer ;;
  let '(buffer, off) := st in
  let less := 16 - i mod 16 in
  let less := if less =? 16 then 0 else less in
  buffer <- ascii_loop (Z.to_nat (16 - less)) 0 blob off2 off buffer ;;
  logfile <- lift getLogFile ;;
  line <- of_option (buffer_string buffer 0 LINE_LEN) ;;
  do_emit (Write logfile (line ++ [newline])) ;;;
  do_emit (Fflush logfile) ;;;
  buffer <- sprintf memset_zero 0 (fmt_x 4 i ++ cstr ": ") ;;
  ret (buffer, 6%nat, i).

(** Lines 162-205: the [for] loop over [i].  [i] and [off2] are
    [unsigned int]s, [size] is a [size_t]; [blob] is the memory the pointer
    designates, an index outside it is undefined. *)
Fixpoint dump_loop (fuel : nat) (blob : list Byte.byte) (size : Z)
    (i : Z) (off : nat) (off2 : Z) (buffer : line_buffer) : M unit :=
  match fuel with
  | O => fun _ => OutOfFuel
  | S fuel' =>
      if negb (i <=? size) then ret tt
      else
        st <- first_header i off buffer ;;
        let '(buffer, off) := st in
        b <- of_option (nth_error blob (Z.to_nat (uint (i - 1)))) ;;
        buffer <- sprintf buffer off (fmt_x 2 (byte_val b)) ;;
        let off := (off + 2)%nat in
        st <- (if ((i mod 16 =? 0) && (i >? 1)) || (i =? size)
               then flush_line blob i off off2 buffer
               else ret (buffer, off, off2)) ;;
        let '(buffer, off, off2) := st in
        dump_loop fuel' blob size (uint (i + 1)) off off2 buffer
  end.

(** [text] is the expansion of [fmt]; [stack] is what the uninitialised
    array [buffer] holds on entry; [fuel] bounds the iterations of the
    [for] loop.  The result is the new value of [*status]. *)
Definition doLogBlob (fuel : nat) (stack : line_buffer)
    (loglevel : log_level) (module : list ascii)
    (logdefault status : log_level) (file func : list ascii) (line : Z)
    (blob : option (list Byte.byte)) (size : Z) (text : list ascii)
  : M log_level :=
  status <- lift (resolve_status module logdefault status) ;;
  if loglevel >? status then ret status
  else
    let msg := firstn LOG_MSG_MAX text in
    match blob with
    | None =>
        doLog loglevel module logdefault status file func line
          (to_nul msg ++ cstr " (size=" ++ fmt_zi size ++ cstr "): (null)")
    | Some blob =>
        status <- doLog loglevel module logdefault status file func line
                    (to_nul msg ++ cstr " (size=" ++ fmt_zi size
                     ++ cstr "):") ;;
        dump_loop fuel blob size 1 0 0 stack ;;;
        ret status
    end.

(** * Specification-level notions *)

(** The case-folded value of a character, as the comparison sees it. *)
Definition lower (c : ascii) : Z := tolower (uchar c).

(** Two texts of the same length that differ in case only. *)
Definition lower_eq (a b : list ascii) : Prop := map lower a = map lower b.

(** Decidable version of [lower_eq]. *)
Definition lower_eqb (a b : list ascii) : bool :=
  if list_eq_dec Z.eq_dec (map lower a) (map lower b) then true else false.

(** A proper C string: no NUL among its characters. *)
Definition no_nul (s : list ascii) : bool :=
  forallb (fun c => negb (Ascii.eqb c NUL)) s.

(** A text without the entry separator '+'. *)
Definition no_plus (s : list ascii) : bool :=
  forallb (fun c => negb (Ascii.eqb c "+"%char)) s.

(** [s] ends, up to case, with the text [t]. *)
Definition ends_ci (s t : list ascii) : bool :=
  (length t <=? length s)%nat
  && lower_eqb (skipn (length s - length t) s) t.

(** [tok] starts, up to case, with the text [name]. *)
Definition starts_ci (tok name : list ascii) : Prop :=
  lower_eq (firstn (length name) tok) name.

(** The test an entry passes for [module]: the text [pre] in front of its
    '+' ends, up to case, with "all" or with the module name. *)
Definition name_matches (module pre : list ascii) : bool :=
  ends_ci pre (cstr "all") || ends_ci pre module.

(** The running level after a matching entry whose level token is [tok]. *)
Definition entry_level (tok : list ascii) (loglevel : log_level) : log_level :=
  if negb (log_stringlevel tok =? LOGLEVEL_UNDEFINED)
  then log_stringlevel tok else loglevel.

(** The level resolver as a left-to-right pass over the configuration:
    [pre] is the text already passed, [rest] the text to come. *)
Fixpoint scan (module pre rest : list ascii) (loglevel : log_level)
  : log_level :=
  match rest with
  | [] => loglevel
  | c :: rest' =>
      if Ascii.eqb c NUL then loglevel
      else
        scan module (pre ++ [c]) rest'
          (if Ascii.eqb c "+"%char && name_matches module pre
           then entry_level rest' loglevel else loglevel)
  end.

(** No '+' of [rest] passes the test of [name_matches], [pre] being the
    text in front of [rest]. *)
Fixpoint no_match (module pre rest : list ascii) : bool :=
  match rest with
  | [] => true
  | c :: rest' =>
      negb (Ascii.eqb c "+"%char && name_matches module pre)
      && no_match module (pre ++ [c]) rest'
  end.

(** The destination the specification assigns to a value of
    [TSS2_LOGFILE]: absent or "stderr" is standard error, "-" or "stdout"
    is standard output, anything else is the path of a file. *)
Inductive destination : Type :=
| To_stderr
| To_stdout
| To_path (path : list ascii).

Definition destination_of (value : option (list ascii)) : destination :=
  match value with
  | None => To_stderr
  | Some v =>
      if lower_eqb (to_nul v) (cstr "stderr") then To_stderr
      else if (if list_eq_dec ascii_dec (to_nul v) (cstr "-")
               then true else false)
              || lower_eqb (to_nul v) (cstr "stdout")
      then To_stdout
      else To_path (to_nul v)
  end.

(** The line [getLogFile] prints when the file cannot be opened. *)
Definition open_diagnostic (path err : list ascii) : list ascii :=
  cstr "Failed to open logging file " ++ path ++ cstr ": " ++ to_nul err
  ++ [newline].

(** The destination is resolved in [w]: a call of [getLogFile] returns
    [f] and changes nothing. *)
Definition resolved_to (f : FILE) (w : world) : Prop :=
  if LOG_FILE_ENABLED then logfile_static w = Some f else f = stderr.

(** ** The output of a call *)

(** The world with further events. *)
Definition add_events (w : world) (evs : list event) : world :=
  mkWorld (environ w) (fopen_error w) (logfile_static w) (trace w ++ evs).

(** The events that [w'] has and its predecessor [w] had not. *)
Definition new_events (w w' : world) : list event :=
  skipn (length (trace w)) (trace w').

(** The characters written, to whatever stream. *)
Fixpoint written (evs : list event) : list ascii :=
  match evs with
  | [] => []
  | Write _ text :: evs' => text ++ written evs'
  | _ :: evs' => written evs'
  end.

(** The number of lines of a text: its newline characters. *)
Definition count_lines (s : list ascii) : nat :=
  count_occ ascii_dec s newline.

(** A text without a newline. *)
Definition single_line (s : list ascii) : bool :=
  forallb (fun c => negb (Ascii.eqb c newline)) s.

(** The level a call compares the message level with: the cached level,
    resolved first if it is still undefined. *)
Definition threshold (module : list ascii) (logdefault status : log_level)
    (w : world) : log_level :=
  fst (resolve_status module logdefault status w).

(** The next call of [getLogFile] in [w] has to report that the log file
    cannot be opened. *)
Definition open_fails (w : world) : bool :=
  LOG_FILE_ENABLED
  && match logfile_static w with
     | Some _ => false
     | None =>
         match destination_of (environ w "TSS2_LOGFILE"%string) with
         | To_path path =>
             match fopen_error w path with Some _ => true | None => false end
         | _ => false
         end
     end.

(** The four calls that print one message. *)
Definition message_events (f : FILE) (prefix text : list ascii) : list event :=
  [Write f prefix; Write f text; Write f (cstr " " ++ [newline]); Fflush f].

(** The message of a blob call: the expansion [text] of the format, cut to
    [LOG_MSG_MAX] characters, with the size and, for a NULL buffer, the
    marker. *)
Definition blob_message (text : list ascii) (size : Z) : list ascii :=
  to_nul (firstn LOG_MSG_MAX text) ++ cstr " (size=" ++ fmt_zi size
  ++ cstr "):".

Definition null_blob_message (text : list ascii) (size : Z) : list ascii :=
  to_nul (firstn LOG_MSG_MAX text) ++ cstr " (size=" ++ fmt_zi size
  ++ cstr "): (null)".

(** ** The hex dump *)

(** The ASCII column shows a byte as itself if it is printable and as a
    dot otherwise. *)
Definition render (b : Byte.byte) : ascii :=
  if isgraph (byte_val b) then ascii_of_byte b else "."%char.

Definition hex_pairs (bs : list Byte.byte) : list ascii :=
  flat_map (fun b => fmt_x 2 (byte_val b)) bs.

(** The column at which the ASCII rendering starts. *)
Definition ascii_column : nat := 40.

(** The dump line of the bytes [chunk] (at most 16) found at [offset]: the
    offset field (six characters), the bytes in hexadecimal, two blanks,
    the padding up to [ascii_column], the bytes rendered in ASCII. *)
Definition dump_line (offset : Z) (chunk : list Byte.byte) : list ascii :=
  firstn 6 (fmt_x 4 offset ++ cstr ": ")
  ++ hex_pairs chunk
  ++ cstr "  "
  ++ repeat " "%char (ascii_column - (8 + 2 * length chunk))
  ++ map render chunk.

(** The lines of the dump of [cur ++ rest], [cur] being the bytes already
    collected for the line that starts at [offset]: a line is complete
    with 16 bytes or with the last byte. *)
Fixpoint dump_lines (offset : Z) (cur rest : list Byte.byte)
  : list (list ascii) :=
  match rest with
  | [] => []
  | b :: rest' =>
      if (length (cur ++ [b]) =? 16)%nat
         || match rest' with [] => true | _ => false end
      then dump_line offset (cur ++ [b])
           :: dump_lines (offset + Z.of_nat (length (cur ++ [b]))) [] rest'
      else dump_lines offset (cur ++ [b]) rest'
  end.

(** The calls that print the lines to [f]. *)
Definition line_events (f : FILE) (lines : list (list ascii)) : list event :=
  flat_map (fun l => [Write f (l ++ [newline]); Fflush f]) lines.

(** A text of neither NUL nor newline. *)
Definition plain (s : list ascii) : bool :=
  forallb (fun c => negb (Ascii.eqb c NUL) && negb (Ascii.eqb c newline)) s.

(** The array holds the text [L] in its first cells. *)
Definition agrees (buffer : line_buffer) (L : list ascii) : Prop :=
  forall k, (k < length L)%nat -> buffer k = nth k L NUL.

(** The array holds the C string [L]. *)
Definition holds (buffer : line_buffer) (L : list ascii) : Prop :=
  agrees buffer L /\ buffer (length L) = NUL.

(** ** Kinds of events *)

(** An event on the stream [f]: a write to it or a flush of it. *)
Definition stream_event (f : FILE) (e : event) : Prop :=
  match e with
  | Write s _ => s = f
  | Fflush s => s = f
  | _ => False
  end.

(** What a call of [getLogFile] that returns [f] may do: read
    [TSS2_LOGFILE], open a file for appending, write to [f], flush [f]. *)
Definition resolver_event (f : FILE) (e : event) : Prop :=
  match e with
  | Getenv name => name = "TSS2_LOGFILE"%string
  | Fopen _ mode => mode = "a+"%string
  | Write s _ => s = f
  | Fflush s => s = f
  end.

(** The reading of [TSS2_LOG] by a call whose cached level is [status]. *)
Definition level_events (status : log_level) : list event :=
  if status =? LOGLEVEL_UNDEFINED then [Getenv "TSS2_LOG"] else [].

(** Nothing, or events the last of which flushes [f]. *)
Definition ends_flushed (f : FILE) (evs : list event) : Prop :=
  evs = [] \/ exists evs0, evs = evs0 ++ [Fflush f].


(** An event that, if it concerns a stream, concerns [f]. *)
Definition on_stream (f : FILE) (e : event) : Prop :=
  match e with
  | Write s _ => s = f
  | Fflush s => s = f
  | _ => True
  end.

(** Readings of [TSS2_LOG] only. *)
Definition level_reads (evs : list event) : Prop :=
  Forall (fun e => e = Getenv "TSS2_LOG") evs.


(** Whenever [m] returns, [m'] returns the same. *)
Definition returns_also {A} (m m' : M A) : Prop :=
  forall w x, m w = Returns x -> m' w = Returns x.


(** * Characters and string functions *)

Lemma lower_eqb_spec a b : lower_eqb a b = true <-> lower_eq a b.
Proof.
  unfold lower_eqb, lower_eq.
  destruct (list_eq_dec Z.eq_dec (map lower a) (map lower b)); split;
    intros; congruence.
Qed.

Lemma uchar_range c : 0 <= uchar c < 256.
Proof.
  unfold uchar. pose proof (N_ascii_bounded c). lia.
Qed.

Lemma uchar_NUL c : uchar c = 0 -> c = NUL.
Proof.
  unfold uchar. intros H.
  rewrite <- (ascii_N_embedding c).
  replace (N_of_ascii c) with 0%N by lia. reflexivity.
Qed.

Lemma lower_zero c : lower c = 0 <-> c = NUL.
Proof.
  split.
  - unfold lower, tolower. pose proof (uchar_range c).
    destruct ((65 <=? uchar c) && (uchar c <=? 90)) eqn:E; intros H0.
    + apply andb_prop in E. destruct E as [E1 E2].
      apply Z.leb_le in E1. lia.
    + now apply uchar_NUL.
  - intros ->. reflexivity.
Qed.

Lemma eqb_NUL_false c : c <> NUL -> Ascii.eqb c NUL = false.
Proof. intros H. now apply Ascii.eqb_neq. Qed.

Lemma no_nul_cons c s :
  no_nul (c :: s) = true <-> c <> NUL /\ no_nul s = true.
Proof.
  unfold no_nul. simpl. rewrite andb_true_iff, negb_true_iff.
  now rewrite Ascii.eqb_neq.
Qed.

Lemma no_nul_app a b :
  no_nul (a ++ b) = true <-> no_nul a = true /\ no_nul b = true.
Proof.
  unfold no_nul. rewrite forallb_app. apply andb_true_iff.
Qed.

Lemma strlen_no_nul s : no_nul s = true -> strlen s = length s.
Proof.
  induction s as [|c s IH]; [reflexivity|].
  rewrite no_nul_cons. intros [Hc Hs]. simpl.
  rewrite (eqb_NUL_false _ Hc). now rewrite IH.
Qed.

Lemma to_nul_no_nul s : no_nul s = true -> to_nul s = s.
Proof.
  intros H. unfold to_nul. rewrite (strlen_no_nul _ H). apply firstn_all.
Qed.

Lemma strlen_le s : (strlen s <= length s)%nat.
Proof.
  induction s as [|c s IH]; simpl; [lia|].
  destruct (Ascii.eqb c NUL); lia.
Qed.

Lemma no_nul_to_nul s : no_nul (to_nul s) = true.
Proof.
  unfold to_nul. induction s as [|c s IH]; [reflexivity|].
  simpl. destruct (Ascii.eqb c NUL) eqn:E; [reflexivity|].
  simpl. apply no_nul_cons. split; [now apply Ascii.eqb_neq | exact IH].
Qed.

(** ** The comparison loop *)

Lemma strncmp_loop_eq m s1 s2 :
  strncmp_loop m s1 s2 =
  if negb (lower (deref s1) - lower (deref s2) =? 0)
  then lower (deref s1) - lower (deref s2)
  else if Ascii.eqb (deref s1) NUL then lower (deref s1) - lower (deref s2)
  else if Ascii.eqb (deref s2) NUL then lower (deref s1) - lower (deref s2)
  else match m with
       | O => lower (deref s1) - lower (deref s2)
       | S m' => strncmp_loop m' (tl s1) (tl s2)
       end.
Proof. destruct m; reflexivity. Qed.

(** The result is 0 exactly when the first [m + 1] characters of [s] are,
    up to case, the [m + 1] characters of the C string [t]. *)
Lemma strncmp_loop_zero t :
  forall m s, no_nul t = true -> length t = S m ->
    (strncmp_loop m s t = 0 <-> lower_eq (firstn (S m) s) t).
Proof.
  induction t as [|t0 t IH]; intros m s Hn Hl; [discriminate|].
  apply no_nul_cons in Hn. destruct Hn as [Ht0 Hn].
  assert (Hlt : lower t0 <> 0) by (rewrite lower_zero; exact Ht0).
  rewrite strncmp_loop_eq. unfold lower_eq.
  destruct s as [|c s]; cbn [deref hd tl firstn map].
  - change (lower NUL) with 0.
    destruct (Z.eqb_spec (0 - lower t0) 0) as [E|E]; [lia|].
    cbn [negb]. split; [lia | discriminate].
  - destruct (Z.eqb_spec (lower c - lower t0) 0) as [E|E]; cbn [negb].
    + assert (Hc : c <> NUL).
      { intros ->. change (lower NUL) with 0 in E. lia. }
      rewrite (eqb_NUL_false _ Hc), (eqb_NUL_false _ Ht0).
      destruct m as [|m].
      * destruct t; [|discriminate]. cbn.
        split; intros _; [f_equal; lia | exact E].
      * injection Hl as Hl. rewrite (IH m s Hn Hl). unfold lower_eq.
        split; intros H.
        -- cbn [firstn] in *. rewrite H. f_equal. lia.
        -- now injection H.
    + split; [contradiction|]. intros H. injection H as H _. lia.
Qed.

(** Swapping the arguments negates the result. *)
Lemma strncmp_loop_sym m :
  forall s t, strncmp_loop m t s = - strncmp_loop m s t.
Proof.
  induction m as [|m IH]; intros s t;
    rewrite (strncmp_loop_eq _ t s), (strncmp_loop_eq _ s t);
    destruct (Z.eqb_spec (lower (deref t) - lower (deref s)) 0) as [E|E];
    destruct (Z.eqb_spec (lower (deref s) - lower (deref t)) 0) as [E'|E'];
    try lia; cbn [negb];
    destruct (Ascii.eqb_spec (deref t) NUL) as [Ht|Ht];
    destruct (Ascii.eqb_spec (deref s) NUL) as [Hs|Hs];
    try lia; try apply IH.
Qed.

(** A string compared with itself gives 0: the pointer-equality shortcut of
    the source returns what the loop returns. *)
Lemma strncmp_loop_refl m : forall s, strncmp_loop m s s = 0.
Proof.
  induction m as [|m IH]; intros s; rewrite strncmp_loop_eq;
    rewrite Z.sub_diag; cbn [Z.eqb negb];
    destruct (Ascii.eqb (deref s) NUL); auto.
Qed.

(** * The level resolver as a pass over the configuration *)

Lemma skipn_tail_app (pre rest : list ascii) k :
  (k <= length pre)%nat ->
  skipn (length pre - k) (pre ++ rest) = skipn (length pre - k) pre ++ rest.
Proof.
  intros H. rewrite skipn_app.
  replace (length pre - k - length pre)%nat with O by lia. reflexivity.
Qed.

Lemma length_skipn_tail (pre : list ascii) k :
  (k <= length pre)%nat -> length (skipn (length pre - k) pre) = k.
Proof. intros H. rewrite length_skipn. lia. Qed.

(** The bounded comparison of the [k] characters in front of the '+' with
    a C string of length [k]. *)
Lemma strncmp_tail t pre rest :
  no_nul t = true -> (length t <= length pre)%nat ->
  (case_insensitive_strncmp
     (Some (skipn (length pre - length t) (pre ++ rest))) (Some t)
     (length t) =? 0)
  = lower_eqb (skipn (length pre - length t) pre) t.
Proof.
  intros Hn Hl. rewrite (skipn_tail_app _ _ _ Hl).
  pose proof (length_skipn_tail pre _ Hl) as Hk.
  set (a := skipn (length pre - length t) pre) in *.
  apply eq_true_iff_eq. rewrite Z.eqb_eq, lower_eqb_spec.
  unfold case_insensitive_strncmp.
  destruct (length t) as [|m] eqn:E.
  - destruct t; [|discriminate]. destruct a; [|discriminate].
    split; reflexivity.
  - rewrite (strncmp_loop_zero t m _ Hn E).
    rewrite firstn_app, Hk, Nat.sub_diag, <- Hk, firstn_all.
    cbn [firstn]. rewrite app_nil_r. reflexivity.
Qed.

Lemma entry_matches_spec module pre rest :
  no_nul module = true ->
  entry_matches (pre ++ rest) module (length pre) = name_matches module pre.
Proof.
  intros Hn. unfold entry_matches, name_matches, ends_ci.
  rewrite (strlen_no_nul _ Hn).
  change (strlen (cstr "all")) with 3%nat.
  change (length (cstr "all")) with 3%nat.
  f_equal.
  - destruct (3 <=? length pre)%nat eqn:E; [|reflexivity].
    cbn [andb]. apply Nat.leb_le in E.
    now apply (strncmp_tail (cstr "all")).
  - destruct (length module <=? length pre)%nat eqn:E; [|reflexivity].
    cbn [andb]. apply Nat.leb_le in E.
    now apply strncmp_tail.
Qed.

Lemma scan_no_plus module : forall rest pre loglevel,
  strchr rest "+"%char = None -> scan module pre rest loglevel = loglevel.
Proof.
  induction rest as [|c rest IH]; intros pre loglevel H; [reflexivity|].
  cbn [strchr scan] in *.
  destruct (Ascii.eqb c "+"%char); [discriminate|].
  destruct (Ascii.eqb c NUL); [reflexivity|].
  cbn [andb]. apply IH.
  destruct (strchr rest "+"%char); [discriminate | reflexivity].
Qed.

Lemma strchr_plus_split : forall rest k,
  strchr rest "+"%char = Some k ->
  exists a r, rest = a ++ "+"%char :: r /\ length a = k
              /\ no_nul a = true /\ no_plus a = true.
Proof.
  induction rest as [|c rest IH]; intros k H; cbn [strchr] in H.
  - discriminate.
  - destruct (Ascii.eqb_spec c "+"%char) as [->|Hc].
    + injection H as <-. exists [], rest. now repeat split.
    + destruct (Ascii.eqb_spec c NUL) as [->|Hn]; [discriminate|].
      destruct (strchr rest "+"%char) as [k'|] eqn:E; [|discriminate].
      injection H as <-.
      destruct (IH k' eq_refl) as (a & r & -> & Hl & Hna & Hpa).
      exists (c :: a), r. repeat split.
      * cbn. now rewrite Hl.
      * apply no_nul_cons. now split.
      * unfold no_plus in *. cbn. rewrite Hpa.
        apply Ascii.eqb_neq in Hc. now rewrite Hc.
Qed.

(** The pass skips to the next '+' as [strchr] does. *)
Lemma scan_skip module r : forall a pre loglevel,
  no_nul a = true -> no_plus a = true ->
  scan module pre (a ++ "+"%char :: r) loglevel =
  scan module (pre ++ a ++ ["+"%char]) r
    (if name_matches module (pre ++ a)
     then entry_level r loglevel else loglevel).
Proof.
  induction a as [|c a IH]; intros pre loglevel Hn Hp.
  - cbn [app scan]. rewrite app_nil_r. reflexivity.
  - apply no_nul_cons in Hn. destruct Hn as [Hc Hn].
    unfold no_plus in Hp. cbn [forallb] in Hp.
    apply andb_prop in Hp. destruct Hp as [Hc' Hp].
    apply negb_true_iff in Hc'.
    cbn [app scan]. rewrite (eqb_NUL_false _ Hc), Hc'. cbn [andb].
    rewrite (IH (pre ++ [c]) loglevel Hn Hp).
    now rewrite <- !app_assoc.
Qed.

(** The [while] loop of [getLogLevel], started at the offset that follows
    [pre], computes the pass over the rest; the iterations given to it
    suffice. *)
Lemma getLogLevel_loop_scan module :
  no_nul module = true ->
  forall fuel pre rest loglevel,
    (length rest < fuel)%nat ->
    getLogLevel_loop fuel (pre ++ rest) module (length pre) loglevel
    = scan module pre rest loglevel.
Proof.
  intros Hm. induction fuel as [|fuel IH]; intros pre rest loglevel Hf;
    [lia|].
  cbn [getLogLevel_loop].
  rewrite skipn_app, Nat.sub_diag, skipn_all. cbn [app skipn].
  destruct (strchr rest "+"%char) as [k|] eqn:E.
  - destruct (strchr_plus_split _ _ E) as (a & r & -> & Hl & Hna & Hpa).
    rewrite (scan_skip module r a pre loglevel Hna Hpa).
    assert (Hi : (length pre + k)%nat = length (pre ++ a))
      by (rewrite length_app; lia).
    rewrite Hi.
    replace (pre ++ a ++ "+"%char :: r) with ((pre ++ a) ++ "+"%char :: r)
      by now rewrite <- app_assoc.
    rewrite (entry_matches_spec module (pre ++ a) _ Hm).
    replace (skipn (length (pre ++ a) + 1) ((pre ++ a) ++ "+"%char :: r))
      with r.
    2:{ rewrite skipn_app.
        replace (length (pre ++ a) + 1 - length (pre ++ a))%nat with 1%nat
          by lia.
        rewrite skipn_all2 by lia. reflexivity. }
    replace ((pre ++ a) ++ "+"%char :: r)
      with ((pre ++ a ++ ["+"%char]) ++ r)
      by (rewrite <- !app_assoc; reflexivity).
    replace (length (pre ++ a) + 1)%nat with (length (pre ++ a ++ ["+"%char]))
      by (rewrite !length_app; cbn; lia).
    rewrite IH.
    + reflexivity.
    + rewrite length_app in Hf. cbn in Hf. lia.
  - now rewrite scan_no_plus.
Qed.

Lemma getLogLevel_scan env module logdefault :
  no_nul module = true ->
  getLogLevel (Some env) module logdefault = scan module [] env logdefault.
Proof.
  intros Hm. unfold getLogLevel.
  apply (getLogLevel_loop_scan module Hm (S (length env)) [] env). lia.
Qed.

(** * The level-name table *)

Lemma uchar_inj a b : uchar a = uchar b -> a = b.
Proof.
  unfold uchar. intros H.
  rewrite <- (ascii_N_embedding a), <- (ascii_N_embedding b).
  f_equal. lia.
Qed.

Lemma lower_plus c : lower c = 43 -> c = "+"%char.
Proof.
  unfold lower, tolower. pose proof (uchar_range c).
  destruct ((65 <=? uchar c) && (uchar c <=? 90)) eqn:E; intros H0.
  - apply andb_prop in E. destruct E as [E1 E2].
    apply Z.leb_le in E1. lia.
  - apply uchar_inj. exact H0.
Qed.

(** The comparison [log_stringlevel] makes for a table entry succeeds
    exactly on the tokens that start, up to case, with the entry. *)
Lemma table_compare_zero entry n :
  no_nul entry = true ->
  (case_insensitive_strncmp (Some entry) (Some n) (strlen entry) = 0
   <-> starts_ci n entry).
Proof.
  intros He. rewrite (strlen_no_nul _ He). unfold starts_ci.
  cbn [case_insensitive_strncmp].
  destruct (length entry) as [|m] eqn:E.
  - destruct entry; [|discriminate]. split; reflexivity.
  - rewrite strncmp_loop_sym, <- (strncmp_loop_zero entry m n He E). lia.
Qed.

Lemma log_strings_no_nul : forallb no_nul log_strings = true.
Proof. reflexivity. Qed.

Lemma log_strings_no_plus : forallb no_plus log_strings = true.
Proof. reflexivity. Qed.

Lemma starts_ci_first n c entry :
  starts_ci n (c :: entry) -> lower (deref n) = lower c.
Proof.
  unfold starts_ci, lower_eq. destruct n as [|c' n]; cbn; [discriminate|].
  intros H. now injection H.
Qed.

(** The names of the table start with different letters: a token starts
    with at most one of them. *)
Lemma log_strings_unique n j k e e' :
  nth_error log_strings j = Some e -> nth_error log_strings k = Some e' ->
  starts_ci n e -> starts_ci n e' -> j = k.
Proof.
  intros Hj Hk Se Se'.
  assert (He : e <> []).
  { intros ->. do 7 (destruct j as [|j]; [discriminate|]).
    destruct j; discriminate. }
  assert (He' : e' <> []).
  { intros ->. do 7 (destruct k as [|k]; [discriminate|]).
    destruct k; discriminate. }
  destruct e as [|c e]; [contradiction|].
  destruct e' as [|c' e']; [contradiction|].
  apply starts_ci_first in Se, Se'. rewrite Se in Se'. clear Se He He'.
  do 7 (destruct j as [|j];
        [ injection Hj as <- _;
          do 7 (destruct k as [|k];
                [ injection Hk as <- _;
                  first [reflexivity | vm_compute in Se'; discriminate] |]);
          destruct k; discriminate |]).
  destruct j; discriminate.
Qed.

Lemma log_stringlevel_loop_hit n : forall table i k entry,
  forallb no_nul table = true ->
  nth_error table k = Some entry -> starts_ci n entry ->
  (forall j e, (j < k)%nat -> nth_error table j = Some e -> ~ starts_ci n e) ->
  log_stringlevel_loop table i n = i + Z.of_nat k.
Proof.
  induction table as [|e table IH]; intros i k entry Ht Hk Hs Hfirst.
  - destruct k; discriminate.
  - cbn [forallb] in Ht. apply andb_prop in Ht. destruct Ht as [He Ht].
    cbn [log_stringlevel_loop].
    destruct (Z.eqb_spec
                (case_insensitive_strncmp (Some e) (Some n) (strlen e)) 0)
      as [E|E].
    + rewrite (table_compare_zero e n He) in E.
      destruct k as [|k]; [lia|].
      exfalso. apply (Hfirst O e); [lia | reflexivity | exact E].
    + destruct k as [|k].
      * injection Hk as ->. exfalso. apply E.
        now apply table_compare_zero.
      * rewrite (IH (i + 1) k entry Ht Hk Hs); [lia|].
        intros j e0 Hj He0. apply (Hfirst (S j) e0); [lia | exact He0].
Qed.

Lemma log_stringlevel_hit n k entry :
  nth_error log_strings k = Some entry -> starts_ci n entry ->
  log_stringlevel n = Z.of_nat k.
Proof.
  intros Hk Hs. unfold log_stringlevel.
  rewrite (log_stringlevel_loop_hit n log_strings 0 k entry
             log_strings_no_nul Hk Hs); [lia|].
  intros j e Hj He Hse.
  pose proof (log_strings_unique n j k e entry He Hk Hse Hs). lia.
Qed.

(** The lookup yields one of the seven levels or the sentinel. *)
Lemma log_stringlevel_loop_range n : forall table i,
  log_stringlevel_loop table i n = LOGLEVEL_UNDEFINED
  \/ i <= log_stringlevel_loop table i n < i + Z.of_nat (length table).
Proof.
  induction table as [|e table IH]; intros i; cbn [log_stringlevel_loop].
  - now left.
  - destruct (case_insensitive_strncmp (Some e) (Some n) (strlen e) =? 0).
    + right. cbn [length]. lia.
    + destruct (IH (i + 1)) as [H|H]; [now left | right].
      cbn [length]. lia.
Qed.

Lemma log_stringlevel_range n :
  log_stringlevel n = LOGLEVEL_UNDEFINED \/ 0 <= log_stringlevel n <= 6.
Proof.
  destruct (log_stringlevel_loop_range n log_strings 0) as [H|H];
    [now left | right].
  unfold log_stringlevel.
  change (Z.of_nat (length log_strings)) with 7 in H. lia.
Qed.

(** A '+' behind a C string shorter than a level name never completes the
    name: the level of a token does not depend on what follows a later
    '+'. *)
Lemma starts_ci_app_plus entry r t :
  no_plus entry = true ->
  (starts_ci (r ++ "+"%char :: t) entry <-> starts_ci r entry).
Proof.
  intros Hp. unfold starts_ci, lower_eq.
  destruct (Nat.le_gt_cases (length entry) (length r)) as [Hl|Hl].
  - rewrite firstn_app.
    replace (length entry - length r)%nat with O by lia.
    cbn [firstn]. now rewrite app_nil_r.
  - split; intros H; exfalso.
    + rewrite firstn_app, firstn_all2 in H by lia.
      destruct (length entry - length r)%nat as [|d] eqn:E; [lia|].
      cbn [firstn] in H. rewrite map_app in H. cbn [map] in H.
      assert (Hin : In 43 (map lower entry)).
      { rewrite <- H. apply in_or_app. right. now left. }
      apply in_map_iff in Hin. destruct Hin as (c & Hc & Hin).
      apply lower_plus in Hc. subst c.
      unfold no_plus in Hp. rewrite forallb_forall in Hp.
      specialize (Hp _ Hin). discriminate.
    + apply (f_equal (@length Z)) in H.
      rewrite !length_map, length_firstn in H. lia.
Qed.

Lemma log_stringlevel_loop_app_plus r t : forall table i,
  forallb no_nul table = true -> forallb no_plus table = true ->
  log_stringlevel_loop table i (r ++ "+"%char :: t)
  = log_stringlevel_loop table i r.
Proof.
  induction table as [|e table IH]; intros i Hn Hp; [reflexivity|].
  cbn [forallb] in Hn, Hp.
  apply andb_prop in Hn, Hp. destruct Hn as [He Hn], Hp as [Hpe Hp].
  cbn [log_stringlevel_loop]. rewrite (IH (i + 1) Hn Hp).
  replace (case_insensitive_strncmp (Some e) (Some (r ++ "+"%char :: t))
             (strlen e) =? 0)
    with (case_insensitive_strncmp (Some e) (Some r) (strlen e) =? 0);
    [reflexivity|].
  apply eq_true_iff_eq. rewrite !Z.eqb_eq, !(table_compare_zero e _ He).
  symmetry. now apply starts_ci_app_plus.
Qed.

Lemma log_stringlevel_app_plus r t :
  log_stringlevel (r ++ "+"%char :: t) = log_stringlevel r.
Proof.
  apply log_stringlevel_loop_app_plus;
    [exact log_strings_no_nul | exact log_strings_no_plus].
Qed.

(** * Entries of the configuration *)

Lemma entry_level_known tok loglevel :
  log_stringlevel tok <> LOGLEVEL_UNDEFINED ->
  entry_level tok loglevel = log_stringlevel tok.
Proof.
  intros H. unfold entry_level.
  destruct (Z.eqb_spec (log_stringlevel tok) LOGLEVEL_UNDEFINED);
    [contradiction | reflexivity].
Qed.

Lemma entry_level_unknown tok loglevel :
  log_stringlevel tok = LOGLEVEL_UNDEFINED ->
  entry_level tok loglevel = loglevel.
Proof.
  intros H. unfold entry_level. now rewrite H, Z.eqb_refl.
Qed.

Lemma level_defined l : 0 <= l <= 6 -> l <> LOGLEVEL_UNDEFINED.
Proof using LOGLEVEL_UNDEFINED_sentinel. intros H ->. now apply LOGLEVEL_UNDEFINED_sentinel. Qed.

Lemma lower_eqb_refl a : lower_eqb a a = true.
Proof. now apply lower_eqb_spec. Qed.

Lemma ends_ci_app_self pre t : ends_ci (pre ++ t) t = true.
Proof.
  unfold ends_ci. rewrite length_app.
  replace (length pre + length t - length t)%nat with (length pre) by lia.
  rewrite skipn_app, skipn_all, Nat.sub_diag. cbn [skipn app].
  rewrite lower_eqb_refl, andb_true_r. apply Nat.leb_le. lia.
Qed.

Lemma name_matches_self module pre :
  name_matches module (pre ++ module) = true.
Proof.
  unfold name_matches. rewrite ends_ci_app_self. apply orb_true_r.
Qed.

(** What [no_match] says: in front of no '+' of [rest] does the text end
    with "all" or with the module name. *)
Lemma no_match_spec module : forall rest pre,
  no_match module pre rest = true <->
  (forall r1 r2, rest = r1 ++ "+"%char :: r2 ->
                 name_matches module (pre ++ r1) = false).
Proof.
  induction rest as [|c rest IH]; intros pre; cbn [no_match].
  - split; [|reflexivity]. intros _ r1 r2 H. now destruct r1.
  - rewrite andb_true_iff, negb_true_iff, IH. split.
    + intros [Hc Hr] r1 r2 H. destruct r1 as [|c' r1].
      * injection H as -> ->. rewrite app_nil_r.
        cbn in Hc. exact Hc.
      * injection H as <- ->.
        replace (pre ++ c :: r1) with ((pre ++ [c]) ++ r1)
          by now rewrite <- app_assoc.
        now apply (Hr r1 r2).
    + intros H. split.
      * destruct (Ascii.eqb_spec c "+"%char) as [->|Hc]; [|reflexivity].
        cbn [andb]. specialize (H [] rest eq_refl).
        now rewrite app_nil_r in H.
      * intros r1 r2 ->. rewrite <- app_assoc. now apply (H (c :: r1) r2).
Qed.

Lemma scan_no_match module : forall rest pre loglevel,
  no_match module pre rest = true -> scan module pre rest loglevel = loglevel.
Proof.
  induction rest as [|c rest IH]; intros pre loglevel H; [reflexivity|].
  cbn [no_match scan] in *. apply andb_prop in H. destruct H as [Hc H].
  apply negb_true_iff in Hc. rewrite Hc.
  destruct (Ascii.eqb c NUL); [reflexivity | now apply IH].
Qed.

Lemma no_plus_no_match module : forall rest pre,
  no_plus rest = true -> no_match module pre rest = true.
Proof.
  induction rest as [|c rest IH]; intros pre H; [reflexivity|].
  unfold no_plus in H. cbn [forallb no_match] in *.
  apply andb_prop in H. destruct H as [Hc H].
  apply negb_true_iff in Hc. rewrite Hc. cbn. now apply IH.
Qed.

Lemma no_match_app module post : forall x pre,
  no_plus x = true ->
  no_match module pre (x ++ post) = no_match module (pre ++ x) post.
Proof.
  induction x as [|c x IH]; intros pre H.
  - now rewrite app_nil_r.
  - unfold no_plus in H. cbn [forallb app no_match] in *.
    apply andb_prop in H. destruct H as [Hc H].
    apply negb_true_iff in Hc. rewrite Hc. cbn [andb negb].
    rewrite (IH (pre ++ [c]) H). now rewrite <- app_assoc.
Qed.

(** A matching entry with a known level name decides the result when no
    later '+' matches: whatever precedes it is overridden. *)
Lemma scan_entry module rest : forall a pre loglevel,
  no_nul a = true ->
  name_matches module (pre ++ a) = true ->
  log_stringlevel rest <> LOGLEVEL_UNDEFINED ->
  no_match module (pre ++ a ++ ["+"%char]) rest = true ->
  scan module pre (a ++ "+"%char :: rest) loglevel = log_stringlevel rest.
Proof.
  induction a as [|c a IH]; intros pre loglevel Hn Hm Hl Hq.
  - cbn [app scan] in *. rewrite app_nil_r in Hm. rewrite Hm.
    cbn [Ascii.eqb Bool.eqb andb]. change (Ascii.eqb "+" NUL) with false.
    cbn iota. rewrite (entry_level_known _ _ Hl).
    now apply scan_no_match.
  - apply no_nul_cons in Hn. destruct Hn as [Hc Hn].
    cbn [app scan]. rewrite (eqb_NUL_false _ Hc).
    apply IH; try assumption; now rewrite <- app_assoc.
Qed.

(** An entry whose level token is unknown changes nothing. *)
Lemma scan_unknown_token module tok : forall r pre loglevel,
  no_nul r = true -> no_plus tok = true ->
  log_stringlevel tok = LOGLEVEL_UNDEFINED ->
  scan module pre (r ++ "+"%char :: tok) loglevel
  = scan module pre r loglevel.
Proof.
  induction r as [|c r IH]; intros pre loglevel Hn Hp Hl.
  - cbn [app scan]. change (Ascii.eqb "+" NUL) with false. cbn iota.
    rewrite (entry_level_unknown _ _ Hl).
    rewrite scan_no_match by now apply no_plus_no_match.
    now destruct (_ && _).
  - apply no_nul_cons in Hn. destruct Hn as [Hc Hn].
    cbn [app scan]. rewrite (eqb_NUL_false _ Hc).
    unfold entry_level. rewrite log_stringlevel_app_plus.
    now apply IH.
Qed.

(** * Properties of the level resolver *)

Lemma log_stringlevel_DEBUG post :
  log_stringlevel (cstr "DEBUG" ++ post) = LOGLEVEL_DEBUG.
Proof.
  apply (log_stringlevel_hit _ 5 (cstr "debug")); reflexivity.
Qed.

(** Claim C2, amended.  For every module name [M] and every configuration
    string that contains the entry [M+DEBUG], resolving the level of [M]
    yields DEBUG whatever the text in front of the entry is, provided that
    behind the entry no '+' is preceded by a text that ends, up to case,
    with "all" or with the name [M] ([no_match], see [no_match_spec]). *)
Theorem getLogLevel_entry_debug M pre post logdefault :
  no_nul M = true -> no_nul pre = true ->
  no_match M (pre ++ M ++ cstr "+DEBUG") post = true ->
  getLogLevel (Some (pre ++ M ++ cstr "+DEBUG" ++ post)) M logdefault
  = LOGLEVEL_DEBUG.
Proof using LOGLEVEL_UNDEFINED_sentinel.
  intros HM Hpre Hpost. rewrite (getLogLevel_scan _ _ _ HM).
  replace (pre ++ M ++ cstr "+DEBUG" ++ post)
    with ((pre ++ M) ++ "+"%char :: (cstr "DEBUG" ++ post))
    by (rewrite <- app_assoc; reflexivity).
  rewrite scan_entry.
  - apply log_stringlevel_DEBUG.
  - apply no_nul_app. now split.
  - cbn [app]. apply name_matches_self.
  - rewrite log_stringlevel_DEBUG. apply level_defined.
    unfold LOGLEVEL_DEBUG. lia.
  - rewrite no_match_app by reflexivity.
    cbn [app].
    replace (((pre ++ M) ++ ["+"%char]) ++ cstr "DEBUG")
      with (pre ++ M ++ cstr "+DEBUG")
      by (rewrite <- !app_assoc; reflexivity).
    exact Hpost.
Qed.

(** Claim C3, amended.  With the configuration
    [all+WARNING,moduleX+TRACE] the level of [moduleX] resolves to TRACE;
    the level of a module [M] resolves to WARNING when the text
    [all+WARNING,moduleX] does not end, up to case, with the name [M], and
    to TRACE when it does (as for the names [X] or [MODULEX]). *)
Theorem getLogLevel_all_warning_moduleX :
  (forall logdefault,
     getLogLevel (Some (cstr "all+WARNING,moduleX+TRACE")) (cstr "moduleX")
       logdefault = LOGLEVEL_TRACE)
  /\
  (forall M logdefault,
     no_nul M = true ->
     getLogLevel (Some (cstr "all+WARNING,moduleX+TRACE")) M logdefault
     = if ends_ci (cstr "all+WARNING,moduleX") M
       then LOGLEVEL_TRACE else LOGLEVEL_WARNING).
Proof using LOGLEVEL_UNDEFINED_sentinel.
  assert (G : forall M logdefault,
     no_nul M = true ->
     getLogLevel (Some (cstr "all+WARNING,moduleX+TRACE")) M logdefault
     = if ends_ci (cstr "all+WARNING,moduleX") M
       then LOGLEVEL_TRACE else LOGLEVEL_WARNING).
  { intros M d HM. rewrite (getLogLevel_scan _ _ _ HM).
    change (cstr "all+WARNING,moduleX+TRACE")
      with (cstr "all" ++ "+"%char :: cstr "WARNING,moduleX+TRACE").
    rewrite scan_skip by reflexivity.
    replace (name_matches M ([] ++ cstr "all")) with true by reflexivity.
    rewrite entry_level_known.
    2:{ change (log_stringlevel (cstr "WARNING,moduleX+TRACE")) with 3.
        apply level_defined. lia. }
    change (log_stringlevel (cstr "WARNING,moduleX+TRACE"))
      with LOGLEVEL_WARNING.
    change (cstr "WARNING,moduleX+TRACE")
      with (cstr "WARNING,moduleX" ++ "+"%char :: cstr "TRACE").
    rewrite scan_skip by reflexivity.
    rewrite scan_no_plus by reflexivity.
    change (([] ++ cstr "all" ++ ["+"%char]) ++ cstr "WARNING,moduleX")
      with (cstr "all+WARNING,moduleX").
    unfold name_matches.
    replace (ends_ci (cstr "all+WARNING,moduleX") (cstr "all")) with false
      by reflexivity.
    cbn [orb].
    destruct (ends_ci (cstr "all+WARNING,moduleX") M); [|reflexivity].
    apply entry_level_known.
    change (log_stringlevel (cstr "TRACE")) with 6.
    apply level_defined. lia. }
  split; [|exact G].
  intros d. now rewrite G.
Qed.

(** Claim C6.  The resolver returns the supplied default level when the
    variable [TSS2_LOG] is absent and when no '+' of its value is preceded
    by a text that ends with "all" or the module name; an entry at the end
    of the value whose level token starts with none of the level names
    leaves the level resolved from the text in front of it; and wherever
    the loop meets a '+' followed by such a token, it goes on with the
    running level unchanged. *)
Theorem getLogLevel_default_retained :
  (forall M logdefault, getLogLevel None M logdefault = logdefault)
  /\
  (forall env M logdefault,
     no_nul M = true -> no_match M [] env = true ->
     getLogLevel (Some env) M logdefault = logdefault)
  /\
  (forall pre tok M logdefault,
     no_nul M = true -> no_nul pre = true -> no_plus tok = true ->
     log_stringlevel tok = LOGLEVEL_UNDEFINED ->
     getLogLevel (Some (pre ++ "+"%char :: tok)) M logdefault
     = getLogLevel (Some pre) M logdefault)
  /\
  (forall fuel env M i loglevel,
     strchr (skipn i env) "+"%char = Some O ->
     log_stringlevel (skipn (i + 1) env) = LOGLEVEL_UNDEFINED ->
     getLogLevel_loop (S fuel) env M i loglevel
     = getLogLevel_loop fuel env M (i + 1) loglevel).
Proof.
  split; [reflexivity|]. split; [|split].
  - intros env M d HM Hq. rewrite (getLogLevel_scan _ _ _ HM).
    now apply scan_no_match.
  - intros pre tok M d HM Hpre Htok Hl.
    rewrite !(getLogLevel_scan _ _ _ HM). now apply scan_unknown_token.
  - intros fuel env M i loglevel Hplus Hl. cbn [getLogLevel_loop].
    rewrite Hplus, Nat.add_0_r, Hl, Z.eqb_refl. cbn [negb].
    now destruct (entry_matches env M i).
Qed.

(** Claim C10.  An entry whose text in front of the '+' ends, up to case,
    with the three characters "all" (so has at least three characters) is
    a wildcard entry: with a known level name behind the '+' and no
    matching '+' after it, it sets the level of every module; the entry
    [install+trace] resolves the level of every module to TRACE. *)
Theorem getLogLevel_all_suffix_wildcard :
  (forall pre rest M logdefault,
     no_nul M = true -> no_nul pre = true ->
     ends_ci pre (cstr "all") = true ->
     log_stringlevel rest <> LOGLEVEL_UNDEFINED ->
     no_match M (pre ++ ["+"%char]) rest = true ->
     (3 <= length pre)%nat
     /\ getLogLevel (Some (pre ++ "+"%char :: rest)) M logdefault
        = log_stringlevel rest)
  /\
  (forall M logdefault,
     no_nul M = true ->
     getLogLevel (Some (cstr "install+trace")) M logdefault = LOGLEVEL_TRACE).
Proof using LOGLEVEL_UNDEFINED_sentinel.
  assert (G : forall pre rest M logdefault,
     no_nul M = true -> no_nul pre = true ->
     ends_ci pre (cstr "all") = true ->
     log_stringlevel rest <> LOGLEVEL_UNDEFINED ->
     no_match M (pre ++ ["+"%char]) rest = true ->
     (3 <= length pre)%nat
     /\ getLogLevel (Some (pre ++ "+"%char :: rest)) M logdefault
        = log_stringlevel rest).
  { intros pre rest M d HM Hpre Hall Hl Hq. split.
    - unfold ends_ci in Hall. apply andb_prop in Hall.
      destruct Hall as [Hall _]. now apply Nat.leb_le in Hall.
    - rewrite (getLogLevel_scan _ _ _ HM). apply scan_entry; try assumption.
      cbn [app]. unfold name_matches. now rewrite Hall. }
  split; [exact G|].
  intros M d HM.
  change (cstr "install+trace")
    with (cstr "install" ++ "+"%char :: cstr "trace").
  destruct (G (cstr "install") (cstr "trace") M d HM) as [_ ->];
    try reflexivity.
  change (log_stringlevel (cstr "trace")) with 6. apply level_defined. lia.
Qed.

(** * The destination resolver *)

(** A comparison over one character more than the C string [t] has is a
    comparison of whole strings. *)
Lemma strncmp_whole t : forall s,
  no_nul t = true ->
  (strncmp_loop (length t) s t = 0 <-> lower_eq (to_nul s) t).
Proof.
  clear LOGLEVEL_UNDEFINED_sentinel.
  unfold lower_eq, to_nul.
  induction t as [|t0 t IH]; intros s Hn; rewrite strncmp_loop_eq.
  - cbn [deref hd length]. change (lower NUL) with 0. rewrite Z.sub_0_r.
    destruct s as [|c s]; cbn [deref hd strlen].
    + cbn. tauto.
    + destruct (Z.eqb_spec (lower c) 0) as [E|E]; cbn [negb].
      * apply lower_zero in E. subst c. cbn. tauto.
      * destruct (Ascii.eqb_spec c NUL) as [->|Hc].
        { exfalso. apply E. reflexivity. }
        cbn. split; [contradiction | discriminate].
  - apply no_nul_cons in Hn. destruct Hn as [Ht0 Hn].
    assert (Hlt : lower t0 <> 0) by (rewrite lower_zero; exact Ht0).
    destruct s as [|c s]; cbn [deref hd tl length strlen].
    + change (lower NUL) with 0.
      destruct (Z.eqb_spec (0 - lower t0) 0) as [E|E]; [lia|].
      cbn. split; [lia | discriminate].
    + destruct (Z.eqb_spec (lower c - lower t0) 0) as [E|E]; cbn [negb].
      * assert (Hc : c <> NUL).
        { intros ->. change (lower NUL) with 0 in E. lia. }
        rewrite (eqb_NUL_false _ Hc), (eqb_NUL_false _ Ht0).
        rewrite (IH s Hn). cbn [firstn map]. split; intros H.
        -- rewrite H. f_equal. lia.
        -- now injection H.
      * split; [contradiction|]. intros H.
        destruct (Ascii.eqb c NUL); cbn in H; [discriminate|].
        injection H as H _. lia.
Qed.

Lemma strcmp_zero : forall s t,
  no_nul t = true -> (strcmp s t = 0 <-> to_nul s = t).
Proof.
  clear LOGLEVEL_UNDEFINED_sentinel.
  unfold to_nul.
  induction s as [|c s IH]; intros t Hn; cbn [strcmp strlen].
  - destruct t as [|t0 t]; cbn [deref hd firstn].
    + cbn. tauto.
    + apply no_nul_cons in Hn. destruct Hn as [Ht0 _].
      split; [|discriminate]. intros H. exfalso. apply Ht0.
      apply uchar_NUL. lia.
  - destruct (Ascii.eqb_spec c (deref t)) as [E|E]; cbn [negb].
    + destruct (Ascii.eqb_spec c NUL) as [Hc|Hc].
      * destruct t as [|t0 t]; [cbn; tauto|].
        apply no_nul_cons in Hn. destruct Hn as [Ht0 _].
        exfalso. apply Ht0. cbn in E. congruence.
      * destruct t as [|t0 t]; [cbn in E; contradiction|].
        apply no_nul_cons in Hn. destruct Hn as [_ Hn]. cbn in E. subst t0.
        cbn [tl firstn]. rewrite (IH t Hn).
        split; intros H; [now rewrite H | now injection H].
    + split.
      * intros H. exfalso. apply E. apply uchar_inj. lia.
      * intros H. exfalso. apply E.
        destruct (Ascii.eqb_spec c NUL) as [Hc|Hc]; subst t; cbn;
          [exact Hc | reflexivity].
Qed.

(** The tests of [getLogFile] decide the destination of the
    specification. *)
Lemma getLogFile_tests envpath :
  destination_of (Some envpath) =
  if case_insensitive_strncmp (Some envpath) (Some (cstr "stderr")) 7 =? 0
  then To_stderr
  else if (strcmp envpath (cstr "-") =? 0)
          || (case_insensitive_strncmp
                (Some envpath) (Some (cstr "stdout")) 7 =? 0)
  then To_stdout
  else To_path (to_nul envpath).
Proof.
  unfold destination_of.
  replace (case_insensitive_strncmp (Some envpath) (Some (cstr "stderr")) 7
           =? 0)
    with (lower_eqb (to_nul envpath) (cstr "stderr")).
  2:{ apply eq_true_iff_eq. rewrite Z.eqb_eq, lower_eqb_spec. symmetry.
      apply (strncmp_whole (cstr "stderr")). reflexivity. }
  replace (case_insensitive_strncmp (Some envpath) (Some (cstr "stdout")) 7
           =? 0)
    with (lower_eqb (to_nul envpath) (cstr "stdout")).
  2:{ apply eq_true_iff_eq. rewrite Z.eqb_eq, lower_eqb_spec. symmetry.
      apply (strncmp_whole (cstr "stdout")). reflexivity. }
  replace (strcmp envpath (cstr "-") =? 0)
    with (if list_eq_dec ascii_dec (to_nul envpath) (cstr "-")
          then true else false).
  2:{ apply eq_true_iff_eq. rewrite Z.eqb_eq.
      rewrite (strcmp_zero envpath (cstr "-")) by reflexivity.
      destruct (list_eq_dec ascii_dec (to_nul envpath) (cstr "-"));
        split; intros; congruence. }
  reflexivity.
Qed.

Lemma getLogFile_resolved f w :
  resolved_to f w -> getLogFile w = (f, w).
Proof.
  unfold resolved_to, getLogFile.
  destruct LOG_FILE_ENABLED; [intros -> | intros ->]; reflexivity.
Qed.

Lemma resolved_to_emit f e w : resolved_to f w -> resolved_to f (emit e w).
Proof. unfold resolved_to. now destruct LOG_FILE_ENABLED. Qed.

Lemma getLogFile_resolves w :
  resolved_to (fst (getLogFile w)) (snd (getLogFile w)).
Proof.
  unfold resolved_to, getLogFile.
  destruct LOG_FILE_ENABLED; [|reflexivity].
  destruct (logfile_static w) as [f|] eqn:E; [exact E|].
  cbn [emit environ fopen_error].
  destruct (environ w "TSS2_LOGFILE"%string) as [envpath|]; [|reflexivity].
  destruct (case_insensitive_strncmp (Some envpath) (Some (cstr "stderr")) 7 =? 0);
    [reflexivity|].
  destruct ((strcmp envpath (cstr "-") =? 0)
              || (case_insensitive_strncmp
                    (Some envpath) (Some (cstr "stdout")) 7 =? 0));
    [reflexivity|].
  destruct (fopen_error w (to_nul envpath)); reflexivity.
Qed.

(** Claim C4.  In a build with [LOG_FILE_ENABLED], a call of [getLogFile]
    leaves the destination resolved, every later call returns the same
    stream and does nothing else (no [getenv], no [fopen]), and the first
    call maps [TSS2_LOGFILE] as specified: absent or "stderr" (any case)
    to standard error, "-" or "stdout" (any case) to standard output, any
    other value to [fopen (value, "a+")]; when that fails it writes the
    diagnostic with the path and the error text to standard error and
    standard error is the destination from then on. *)
Theorem getLogFile_resolution (w : world) :
  LOG_FILE_ENABLED = true ->
  let f := fst (getLogFile w) in
  let w1 := snd (getLogFile w) in
  logfile_static w1 = Some f
  /\ (forall w2, logfile_static w2 = Some f -> getLogFile w2 = (f, w2))
  /\ (logfile_static w = None ->
      match destination_of (environ w "TSS2_LOGFILE"%string) with
      | To_stderr =>
          f = stderr /\ trace w1 = trace w ++ [Getenv "TSS2_LOGFILE"]
      | To_stdout =>
          f = stdout /\ trace w1 = trace w ++ [Getenv "TSS2_LOGFILE"]
      | To_path path =>
          match fopen_error w path with
          | None =>
              f = opened path
              /\ trace w1 = trace w ++ [Getenv "TSS2_LOGFILE";
                                        Fopen path "a+"]
          | Some err =>
              f = stderr
              /\ trace w1 = trace w ++ [Getenv "TSS2_LOGFILE";
                                        Fopen path "a+";
                                        Write stderr
                                          (open_diagnostic path err);
                                        Fflush stderr]
          end
      end).
Proof.
  intros Hen f w1. split; [|split].
  - pose proof (getLogFile_resolves w) as H. unfold resolved_to in H.
    now rewrite Hen in H.
  - intros w2 H2. apply getLogFile_resolved. unfold resolved_to.
    now rewrite Hen.
  - intros Hnone. subst f w1. unfold getLogFile. rewrite Hen, Hnone.
    cbn [emit environ fopen_error].
    destruct (environ w "TSS2_LOGFILE"%string) as [envpath|];
      [|now split].
    rewrite getLogFile_tests.
    destruct (case_insensitive_strncmp (Some envpath) (Some (cstr "stderr")) 7 =? 0);
      [now split|].
    destruct ((strcmp envpath (cstr "-") =? 0)
              || (case_insensitive_strncmp
                    (Some envpath) (Some (cstr "stdout")) 7 =? 0));
      [now split|].
    destruct (fopen_error w (to_nul envpath)); cbn [fst snd trace emit
      set_logfile]; rewrite <- ?app_assoc; now split.
Qed.

(** Without [LOG_FILE_ENABLED] the destination is standard error and the
    environment is never read. *)
Lemma getLogFile_disabled w :
  LOG_FILE_ENABLED = false -> getLogFile w = (stderr, w).
Proof. intros H. unfold getLogFile. now rewrite H. Qed.

(** * Formatted text *)

Lemma plain_app a b : plain (a ++ b) = true <-> plain a = true /\ plain b = true.
Proof. unfold plain. rewrite forallb_app. apply andb_true_iff. Qed.

Lemma plain_no_nul s : plain s = true -> no_nul s = true.
Proof.
  unfold plain, no_nul. rewrite !forallb_forall. intros H c Hc.
  specialize (H c Hc). now apply andb_prop in H.
Qed.

Lemma plain_single_line s : plain s = true -> single_line s = true.
Proof.
  unfold plain, single_line. rewrite !forallb_forall. intros H c Hc.
  specialize (H c Hc). now apply andb_prop in H.
Qed.

Lemma plain_repeat c n : plain [c] = true -> plain (repeat c n) = true.
Proof.
  intros H. induction n as [|n IH]; [reflexivity|].
  change (repeat c (S n)) with ([c] ++ repeat c n).
  apply plain_app. now split.
Qed.

Lemma single_line_app a b :
  single_line (a ++ b) = true <->
  single_line a = true /\ single_line b = true.
Proof. unfold single_line. rewrite forallb_app. apply andb_true_iff. Qed.

Lemma single_line_firstn n s :
  single_line s = true -> single_line (firstn n s) = true.
Proof.
  intros H. rewrite <- (firstn_skipn n s) in H.
  now apply single_line_app in H.
Qed.

Lemma count_lines_app a b :
  count_lines (a ++ b) = (count_lines a + count_lines b)%nat.
Proof. apply count_occ_app. Qed.

Lemma count_lines_single_line s : single_line s = true -> count_lines s = O.
Proof.
  unfold single_line, count_lines. intros H.
  apply count_occ_not_In. intros Hin.
  rewrite forallb_forall in H. specialize (H _ Hin).
  now rewrite Ascii.eqb_refl in H.
Qed.

Lemma hex_digit_plain d : plain [hex_digit d] = true.
Proof.
  unfold hex_digit.
  destruct (nth_in_or_default (Z.to_nat d) (cstr "0123456789abcdef")
              "0"%char) as [H|H].
  - assert (Hall : plain (cstr "0123456789abcdef") = true) by reflexivity.
    unfold plain in *. rewrite forallb_forall in Hall.
    cbn [forallb]. now rewrite (Hall _ H).
  - now rewrite H.
Qed.

Lemma hex_digits_plain n : forall v, plain (hex_digits n v) = true.
Proof.
  induction n as [|n IH]; intros v; [reflexivity|].
  cbn [hex_digits]. apply plain_app. split; [apply IH | apply hex_digit_plain].
Qed.

Lemma hex_digits_length n : forall v, length (hex_digits n v) = n.
Proof.
  induction n as [|n IH]; intros v; [reflexivity|].
  cbn [hex_digits]. rewrite length_app, IH. cbn. lia.
Qed.

Lemma strip_zeros_plain ds : plain ds = true -> plain (strip_zeros ds) = true.
Proof.
  induction ds as [|d ds IH]; intros H; [reflexivity|].
  cbn [strip_zeros]. destruct (Ascii.eqb d "0"%char); [|exact H].
  apply IH. change (d :: ds) with ([d] ++ ds) in H.
  now apply plain_app in H.
Qed.

Lemma strip_zeros_length ds : (length (strip_zeros ds) <= length ds)%nat.
Proof.
  induction ds as [|d ds IH]; [reflexivity|].
  cbn [strip_zeros]. destruct (Ascii.eqb d "0"%char); cbn; lia.
Qed.

Lemma fmt_x_plain width v : plain (fmt_x width v) = true.
Proof.
  unfold fmt_x. apply plain_app. split.
  - now apply plain_repeat.
  - apply strip_zeros_plain, hex_digits_plain.
Qed.

Lemma fmt_x_length width v :
  (width <= length (fmt_x width v))%nat
  /\ (length (fmt_x width v) <= Nat.max width 8)%nat.
Proof.
  unfold fmt_x. rewrite length_app, repeat_length.
  pose proof (strip_zeros_length (hex_digits 8 v)) as H.
  rewrite hex_digits_length in H. lia.
Qed.

Lemma fmt_x_byte_length b : length (fmt_x 2 (byte_val b)) = 2%nat.
Proof. destruct b; reflexivity. Qed.

Lemma render_plain b : plain [render b] = true.
Proof. destruct b; reflexivity. Qed.

Lemma hex_pairs_plain bs : plain (hex_pairs bs) = true.
Proof.
  induction bs as [|b bs IH]; [reflexivity|].
  unfold hex_pairs. cbn [flat_map]. apply plain_app.
  split; [apply fmt_x_plain | exact IH].
Qed.

Lemma hex_pairs_length bs : length (hex_pairs bs) = (2 * length bs)%nat.
Proof.
  induction bs as [|b bs IH]; [reflexivity|].
  unfold hex_pairs in *. cbn [flat_map length].
  rewrite length_app, fmt_x_byte_length, IH. lia.
Qed.

Lemma hex_pairs_app a b : hex_pairs (a ++ b) = hex_pairs a ++ hex_pairs b.
Proof. unfold hex_pairs. apply flat_map_app. Qed.

Lemma map_render_plain bs : plain (map render bs) = true.
Proof.
  induction bs as [|b bs IH]; [reflexivity|].
  change (map render (b :: bs)) with ([render b] ++ map render bs).
  apply plain_app. split; [apply render_plain | exact IH].
Qed.

Lemma plain_firstn n s : plain s = true -> plain (firstn n s) = true.
Proof.
  intros H. rewrite <- (firstn_skipn n s) in H.
  now apply plain_app in H.
Qed.

(** The offset field takes six characters. *)
Lemma header_length v : length (firstn 6 (fmt_x 4 v ++ cstr ": ")) = 6%nat.
Proof.
  rewrite length_firstn, length_app.
  pose proof (fmt_x_length 4 v). cbn [length cstr list_ascii_of_string]. lia.
Qed.

Lemma header_plain v : plain (firstn 6 (fmt_x 4 v ++ cstr ": ")) = true.
Proof.
  apply plain_firstn, plain_app. split; [apply fmt_x_plain | reflexivity].
Qed.

Lemma dump_line_plain offset chunk : plain (dump_line offset chunk) = true.
Proof.
  unfold dump_line. rewrite !plain_app. repeat split.
  - apply header_plain.
  - apply hex_pairs_plain.
  - now apply plain_repeat.
  - apply map_render_plain.
Qed.

(** * The line buffer *)

Lemma agrees_store buffer L s :
  agrees buffer L -> holds (store buffer (length L) s) (L ++ s).
Proof.
  intros H. split.
  - intros k Hk. unfold store.
    destruct (Nat.ltb_spec k (length L)) as [Hlt|Hge].
    + rewrite app_nth1 by exact Hlt. now apply H.
    + rewrite length_app in Hk.
      rewrite app_nth1 by lia. rewrite app_nth2 by exact Hge.
      apply nth_indep. lia.
  - unfold store. rewrite length_app.
    destruct (Nat.ltb_spec (length L + length s) (length L)) as [Hlt|Hge];
      [lia|].
    rewrite app_nth2 by lia.
    replace (length L + length s - length L - length s)%nat with O by lia.
    reflexivity.
Qed.

Lemma agrees_app_l buffer L L' : agrees buffer (L ++ L') -> agrees buffer L.
Proof.
  intros H k Hk. rewrite (H k) by (rewrite length_app; lia).
  now apply app_nth1.
Qed.

Lemma agrees_firstn buffer L n : agrees buffer L -> agrees buffer (firstn n L).
Proof.
  intros H. rewrite <- (firstn_skipn n L) in H. now apply agrees_app_l in H.
Qed.

Lemma agrees_nil buffer : agrees buffer [].
Proof. intros k Hk. cbn in Hk. lia. Qed.

Lemma sprintf_fits buffer off s w :
  (off + length s + 1 <= LINE_LEN)%nat ->
  sprintf buffer off s w = Returns (store buffer off s, w).
Proof.
  intros H. unfold sprintf.
  destruct (Nat.leb_spec (off + length s + 1) LINE_LEN); [reflexivity | lia].
Qed.

Lemma buffer_string_from buffer : forall L from len,
  (forall k, (k < length L)%nat -> buffer (from + k)%nat = nth k L NUL) ->
  buffer (from + length L)%nat = NUL ->
  no_nul L = true -> (length L < len)%nat ->
  buffer_string buffer from len = Some L.
Proof.
  induction L as [|c L IH]; intros from len Hag Hz Hn Hl.
  - destruct len; [cbn in Hl; lia|]. cbn [buffer_string].
    cbn [length] in Hz. rewrite Nat.add_0_r in Hz. rewrite Hz.
    reflexivity.
  - destruct len; [cbn in Hl; lia|]. cbn [buffer_string].
    apply no_nul_cons in Hn. destruct Hn as [Hc Hn].
    pose proof (Hag O ltac:(cbn; lia)) as H0.
    rewrite Nat.add_0_r in H0. cbn [nth] in H0. rewrite H0.
    rewrite (eqb_NUL_false _ Hc).
    rewrite (IH (S from) len); [reflexivity | | | exact Hn | cbn in Hl; lia].
    + intros k Hk. specialize (Hag (S k) ltac:(cbn; lia)).
      cbn [nth] in Hag. rewrite <- Hag. f_equal. lia.
    + rewrite <- Hz. f_equal. cbn [length]. lia.
Qed.

Lemma buffer_string_holds buffer L :
  holds buffer L -> no_nul L = true -> (length L < LINE_LEN)%nat ->
  buffer_string buffer 0 LINE_LEN = Some L.
Proof.
  intros [Hag Hz] Hn Hl. apply buffer_string_from; assumption.
Qed.

(** * The loops of [doLogBlob] *)

Lemma add_events_nil w : add_events w [] = w.
Proof. destruct w. unfold add_events. cbn. now rewrite app_nil_r. Qed.

Lemma add_events_app w a b :
  add_events (add_events w a) b = add_events w (a ++ b).
Proof. unfold add_events. cbn. now rewrite app_assoc. Qed.

Lemma emit_add_events e w : emit e w = add_events w [e].
Proof. reflexivity. Qed.

Lemma resolved_to_add_events f w evs :
  resolved_to f w -> resolved_to f (add_events w evs).
Proof. unfold resolved_to. now destruct LOG_FILE_ENABLED. Qed.

Ltac literal_lengths :=
  unfold LINE_LEN, ascii_column in *;
  cbn [length cstr list_ascii_of_string app] in *.

(** The alignment loop pads the line with blanks up to the ASCII
    column. *)
Lemma align_loop_spec w : forall n fuel buffer L,
  holds buffer L -> (length L + n = ascii_column)%nat -> (n < fuel)%nat ->
  exists buffer',
    align_loop fuel (length L) (length L) buffer w
    = Returns ((buffer', ascii_column), w)
    /\ holds buffer' (L ++ repeat " "%char n).
Proof.
  unfold ascii_column.
  induction n as [|n IH]; intros fuel buffer L Hh Hl Hf;
    (destruct fuel as [|fuel]; [lia|]); cbn [align_loop].
  - replace (length L) with 40%nat by lia.
    exists buffer. cbn. now rewrite app_nil_r.
  - destruct (Nat.ltb_spec (length L) (16 * 2 + 8)) as [_|Hge];
      [|cbn in Hge; lia].
    unfold bind. rewrite sprintf_fits by (literal_lengths; lia).
    destruct Hh as [Hag _].
    pose proof (agrees_store buffer L (cstr " ") Hag) as Hh'.
    destruct (IH fuel (store buffer (length L) (cstr " ")) (L ++ cstr " ")
                Hh') as (buffer' & Hrun & Hh'').
    + rewrite length_app. literal_lengths. lia.
    + lia.
    + exists buffer'. split.
      * rewrite length_app in Hrun. cbn [length cstr list_ascii_of_string]
          in Hrun.
        replace (length L + 1)%nat with (S (length L)) in Hrun by lia.
        exact Hrun.
      * rewrite <- app_assoc in Hh''. exact Hh''.
Qed.

(** The ASCII loop appends the rendering of the bytes of the line. *)
Lemma ascii_loop_spec blob off2 off w : forall todo y buffer L,
  holds buffer L -> length L = (y + off)%nat ->
  (forall j b, nth_error todo j = Some b ->
     nth_error blob (Z.to_nat (off2 + Z.of_nat (y + j))) = Some b) ->
  (length L + length todo < LINE_LEN)%nat ->
  exists buffer',
    ascii_loop (length todo) y blob off2 off buffer w = Returns (buffer', w)
    /\ holds buffer' (L ++ map render todo).
Proof.
  induction todo as [|b todo IH]; intros y buffer L Hh Hl Hblob Hfit.
  - exists buffer. cbn. now rewrite app_nil_r.
  - cbn [length ascii_loop]. unfold bind.
    pose proof (Hblob O b eq_refl) as H0. rewrite Nat.add_0_r in H0.
    rewrite H0. cbn [of_option ret].
    cbn [length] in Hfit.
    rewrite sprintf_fits by (literal_lengths; lia).
    rewrite <- Hl. fold (render b).
    destruct Hh as [Hag _].
    pose proof (agrees_store buffer L [render b] Hag) as Hh'.
    destruct (IH (S y) (store buffer (length L) [render b])
                (L ++ [render b]) Hh') as (buffer' & Hrun & Hh'').
    + rewrite length_app. cbn. lia.
    + intros j b' Hj. specialize (Hblob (S j) b' Hj).
      rewrite <- Hblob. do 3 f_equal. lia.
    + rewrite length_app. cbn [length]. lia.
    + exists buffer'. split; [exact Hrun|].
      rewrite <- app_assoc in Hh''. exact Hh''.
Qed.

(** The line that is printed for the bytes [chunk], the array holding the
    offset field and the bytes in hexadecimal ([L]). *)
Lemma flush_line_spec blob i off2 f w buffer L chunk :
  agrees buffer L -> plain L = true ->
  length L = (6 + 2 * length chunk)%nat ->
  (1 <= length chunk <= 16)%nat ->
  Z.of_nat (length chunk) = (if i mod 16 =? 0 then 16 else i mod 16) ->
  (forall j b, nth_error chunk j = Some b ->
     nth_error blob (Z.to_nat (off2 + Z.of_nat j)) = Some b) ->
  resolved_to f w ->
  exists buffer',
    flush_line blob i (length L) off2 buffer w
    = Returns ((buffer', 6%nat, i),
               add_events w
                 [Write f ((L ++ cstr "  "
                            ++ repeat " "%char
                                 (ascii_column - (8 + 2 * length chunk))
                            ++ map render chunk) ++ [newline]);
                  Fflush f])
    /\ agrees buffer' (firstn 6 (fmt_x 4 i ++ cstr ": ")).
Proof.
  intros Hag Hpl Hlen Hchunk Hcount Hblob Hres.
  unfold flush_line, bind.
  rewrite sprintf_fits by (literal_lengths; lia).
  pose proof (agrees_store buffer L (cstr "  ") Hag) as Hh1.
  destruct (align_loop_spec w (ascii_column - (8 + 2 * length chunk)) 41
              _ _ Hh1) as (buffer2 & Hrun2 & Hh2).
  { rewrite length_app. literal_lengths. lia. }
  { unfold ascii_column. lia. }
  rewrite length_app in Hrun2.
  change (length (cstr "  ")) with 2%nat in Hrun2.
  rewrite Hrun2. clear Hrun2.
  replace (Z.to_nat (16 - (if 16 - i mod 16 =? 16 then 0 else 16 - i mod 16)))
    with (length chunk).
  2:{ destruct (Z.eqb_spec (i mod 16) 0) as [E|E];
      destruct (Z.eqb_spec (16 - i mod 16) 16); lia. }
  destruct (ascii_loop_spec blob off2 ascii_column w chunk O buffer2 _ Hh2)
    as (buffer3 & Hrun3 & Hh3).
  { rewrite !length_app, repeat_length. literal_lengths. lia. }
  { exact Hblob. }
  { rewrite !length_app, repeat_length. literal_lengths. lia. }
  rewrite Hrun3. clear Hrun3.
  unfold lift. rewrite (getLogFile_resolved _ _ Hres).
  rewrite <- !app_assoc in Hh3.
  rewrite (buffer_string_holds buffer3 _ Hh3).
  2:{ apply plain_no_nul. rewrite !plain_app. repeat split;
        [exact Hpl | now apply plain_repeat | apply map_render_plain]. }
  2:{ rewrite !length_app, repeat_length, length_map.
      literal_lengths. lia. }
  cbn [of_option ret do_emit].
  rewrite sprintf_fits.
  2:{ rewrite length_app. pose proof (fmt_x_length 4 i).
      literal_lengths. lia. }
  eexists. split.
  - rewrite !emit_add_events, add_events_app. reflexivity.
  - apply agrees_firstn.
    apply (agrees_store memset_zero [] (fmt_x 4 i ++ cstr ": ")).
    apply agrees_nil.
Qed.

Lemma first_header_spec done cur off buffer w :
  (done = [] /\ cur = [] /\ off = O
   \/ (done ++ cur <> [] /\ off = (6 + 2 * length cur)%nat
       /\ agrees buffer
            (firstn 6 (fmt_x 4 (Z.of_nat (length done)) ++ cstr ": ")
             ++ hex_pairs cur))) ->
  exists buffer',
    first_header (Z.of_nat (length done + length cur) + 1) off buffer w
    = Returns ((buffer', (6 + 2 * length cur)%nat), w)
    /\ agrees buffer'
         (firstn 6 (fmt_x 4 (Z.of_nat (length done)) ++ cstr ": ")
          ++ hex_pairs cur).
Proof.
  intros [(-> & -> & ->) | (Hne & -> & Hag)].
  - exists (store buffer 0 (cstr "0000: ")). split; [reflexivity|].
    apply (agrees_store buffer [] (cstr "0000: ")), agrees_nil.
  - exists buffer. split; [|exact Hag].
    unfold first_header.
    destruct (Z.eqb_spec (Z.of_nat (length done + length cur) + 1) 1)
      as [E|E]; [|reflexivity].
    exfalso. apply Hne.
    destruct done; [destruct cur; [reflexivity|]|]; cbn in E; lia.
Qed.

Lemma flush_condition (i size : Z) (ld lc lr : nat) :
  i = Z.of_nat (ld + lc) -> size = Z.of_nat (ld + lc + lr) ->
  Z.of_nat ld mod 16 = 0 -> (1 <= lc <= 16)%nat ->
  ((i mod 16 =? 0) && (i >? 1)) || (i =? size)
  = (lc =? 16)%nat || (lr =? 0)%nat.
Proof.
  intros -> -> Hld Hlc.
  destruct (Nat.eqb_spec lc 16) as [E16|E16];
    destruct (Nat.eqb_spec lr 0) as [Er|Er];
    destruct (Z.eqb_spec (Z.of_nat (ld + lc) mod 16) 0) as [Em|Em];
    destruct (Z.eqb_spec (Z.of_nat (ld + lc)) (Z.of_nat (ld + lc + lr)))
      as [Es|Es];
    destruct (Z.gtb_spec (Z.of_nat (ld + lc)) 1) as [Eg|Eg];
    cbn [andb orb]; try reflexivity; exfalso;
    rewrite ?Nat2Z.inj_add in *;
    Z.div_mod_to_equations; lia.
Qed.

(** The [for] loop of [doLogBlob] prints the lines of the dump.  [done]
    are the bytes of the lines already printed, [cur] the bytes of the
    line under construction, [rest] the bytes still to come. *)
Lemma dump_loop_spec f blob size :
  size = Z.of_nat (length blob) -> size < UINT_MAX ->
  forall rest fuel done cur off buffer w,
    blob = done ++ cur ++ rest ->
    (length cur < 16)%nat ->
    (rest <> [] -> Z.of_nat (length done) mod 16 = 0) ->
    (length rest < fuel)%nat ->
    resolved_to f w ->
    (done = [] /\ cur = [] /\ off = O
     \/ (done ++ cur <> [] /\ off = (6 + 2 * length cur)%nat
         /\ agrees buffer
              (firstn 6 (fmt_x 4 (Z.of_nat (length done)) ++ cstr ": ")
               ++ hex_pairs cur))) ->
    dump_loop fuel blob size (Z.of_nat (length done + length cur) + 1) off
      (Z.of_nat (length done)) buffer w
    = Returns (tt, add_events w
                     (line_events f
                        (dump_lines (Z.of_nat (length done)) cur rest))).
Proof.
  intros Hsize Hmax.
  induction rest as [|b rest IH];
    intros fuel done cur off buffer w Hblob Hcur Hdone Hfuel Hres Hstate;
    (destruct fuel as [|fuel]; [cbn in Hfuel; lia|]); cbn [dump_loop].
  - assert (Hs : size = Z.of_nat (length done + length cur)).
    { subst size blob. rewrite !length_app. cbn [length]. f_equal. lia. }
    destruct (Z.leb_spec (Z.of_nat (length done + length cur) + 1) size);
      [lia|].
    cbn [negb dump_lines line_events flat_map].
    now rewrite add_events_nil.
  - assert (Hs : size
                 = Z.of_nat (length done + (length cur + 1) + length rest)).
    { subst size blob. rewrite !length_app. cbn [length]. f_equal. lia. }
    unfold UINT_MAX in Hmax.
    specialize (Hdone ltac:(discriminate)).
    destruct (Z.leb_spec (Z.of_nat (length done + length cur) + 1) size);
      [|lia].
    cbn [negb]. unfold bind.
    destruct (first_header_spec done cur off buffer w Hstate)
      as (buffer1 & Hrun1 & Hag1).
    rewrite Hrun1. cbv beta iota.
    replace (uint (Z.of_nat (length done + length cur) + 1 - 1))
      with (Z.of_nat (length done + length cur))
      by (unfold uint; rewrite Z.mod_small; lia).
    rewrite Nat2Z.id.
    replace (nth_error blob (length done + length cur)) with (Some b).
    2:{ subst blob. rewrite nth_error_app2 by lia.
        rewrite nth_error_app2 by lia.
        replace (length done + length cur - length done - length cur)%nat
          with O by lia.
        reflexivity. }
    cbn [of_option ret].
    set (L := firstn 6 (fmt_x 4 (Z.of_nat (length done)) ++ cstr ": ")
              ++ hex_pairs cur) in *.
    assert (HL : length L = (6 + 2 * length cur)%nat).
    { unfold L. rewrite length_app, header_length, hex_pairs_length. lia. }
    rewrite <- HL.
    rewrite sprintf_fits
      by (rewrite fmt_x_byte_length; literal_lengths; lia).
    pose proof (agrees_store buffer1 L (fmt_x 2 (byte_val b)) Hag1)
      as [Hag2 _].
    set (buffer2 := store buffer1 (length L) (fmt_x 2 (byte_val b))) in *.
    assert (HL2 : L ++ fmt_x 2 (byte_val b)
                  = firstn 6 (fmt_x 4 (Z.of_nat (length done)) ++ cstr ": ")
                    ++ hex_pairs (cur ++ [b])).
    { unfold L. rewrite hex_pairs_app, <- app_assoc. f_equal. f_equal.
      unfold hex_pairs. cbn [flat_map]. now rewrite app_nil_r. }
    rewrite (flush_condition _ size (length done) (length cur + 1)
               (length rest));
      [ | lia | exact Hs | exact Hdone | lia ].
    replace (Z.of_nat (length done + length cur) + 1)
      with (Z.of_nat (length done + (length cur + 1))) by lia.
    replace (uint (Z.of_nat (length done + (length cur + 1)) + 1))
      with (Z.of_nat (length done + (length cur + 1)) + 1)
      by (unfold uint; rewrite Z.mod_small; lia).
    cbn [dump_lines]. rewrite length_app. cbn [length].
    replace (match rest with [] => true | _ :: _ => false end)
      with (length rest =? 0)%nat by (now destruct rest).
    destruct ((length cur + 1 =? 16)%nat || (length rest =? 0)%nat) eqn:Eflush.
    + (* the line is complete *)
      replace (length L + 2)%nat with (length (L ++ fmt_x 2 (byte_val b)))
        by (rewrite length_app, fmt_x_byte_length; reflexivity).
      destruct (flush_line_spec blob
                  (Z.of_nat (length done + (length cur + 1)))
                  (Z.of_nat (length done)) f w buffer2
                  (L ++ fmt_x 2 (byte_val b)) (cur ++ [b]))
        as (buffer3 & Hrun3 & Hag3).
      * exact Hag2.
      * rewrite HL2. apply plain_app. split;
          [apply header_plain | apply hex_pairs_plain].
      * rewrite !length_app, HL, fmt_x_byte_length. cbn [length]. lia.
      * rewrite length_app. cbn [length]. lia.
      * rewrite length_app. cbn [length].
        destruct (Z.eqb_spec
                    (Z.of_nat (length done + (length cur + 1)) mod 16) 0);
          rewrite ?Nat2Z.inj_add in *; Z.div_mod_to_equations; lia.
      * intros j b' Hj. subst blob.
        assert (Hjl : (j < length (cur ++ [b]))%nat)
          by (apply nth_error_Some; congruence).
        rewrite <- Nat2Z.inj_add, Nat2Z.id.
        rewrite nth_error_app2 by lia.
        replace (length done + j - length done)%nat with j by lia.
        replace (cur ++ b :: rest) with ((cur ++ [b]) ++ rest)
          by (rewrite <- app_assoc; reflexivity).
        rewrite nth_error_app1 by exact Hjl. exact Hj.
      * exact Hres.
      * rewrite Hrun3. cbv beta iota.
        replace (Z.of_nat (length done + (length cur + 1)))
          with (Z.of_nat (length (done ++ cur ++ [b])))
          by (rewrite !length_app; cbn [length]; reflexivity).
        replace (Z.of_nat (length (done ++ cur ++ [b])) + 1)
          with (Z.of_nat (length (done ++ cur ++ [b])
                          + length (@nil Byte.byte)) + 1)
          by (cbn [length]; lia).
        rewrite (IH fuel (done ++ cur ++ [b]) [] 6%nat buffer3).
        -- rewrite add_events_app. cbn [line_events flat_map app].
           rewrite HL2. unfold dump_line.
           rewrite !length_app. cbn [length].
           rewrite <- !app_assoc.
           replace (Z.of_nat (length done)
                    + Z.of_nat (length cur + 1))
             with (Z.of_nat (length done + (length cur + 1))) by lia.
           reflexivity.
        -- subst blob. rewrite <- !app_assoc. reflexivity.
        -- cbn [length]. lia.
        -- intros Hrest. rewrite !length_app. cbn [length].
           apply orb_prop in Eflush. destruct Eflush as [E|E].
           ++ apply Nat.eqb_eq in E. rewrite !Nat2Z.inj_add in *.
              Z.div_mod_to_equations. lia.
           ++ apply Nat.eqb_eq in E. destruct rest; [contradiction|].
              discriminate.
        -- cbn [length] in Hfuel. lia.
        -- now apply resolved_to_add_events.
        -- right. repeat split.
           ++ destruct done; [destruct cur|]; discriminate.
           ++ cbn [hex_pairs flat_map]. rewrite app_nil_r.
              replace (Z.of_nat (length (done ++ cur ++ [b])))
                with (Z.of_nat (length done + (length cur + 1)))
                by (rewrite !length_app; cbn [length]; reflexivity).
              exact Hag3.
    + (* the line goes on *)
      unfold ret. cbv beta iota.
      apply orb_false_elim in Eflush. destruct Eflush as [E16 _].
      apply Nat.eqb_neq in E16.
      replace (Z.of_nat (length done + (length cur + 1)) + 1)
        with (Z.of_nat (length done + length (cur ++ [b])) + 1)
        by (rewrite length_app; cbn [length]; lia).
      rewrite (IH fuel done (cur ++ [b]) (length L + 2)%nat buffer2).
      * reflexivity.
      * subst blob. rewrite <- app_assoc. reflexivity.
      * rewrite length_app. cbn [length]. lia.
      * intros _. exact Hdone.
      * cbn [length] in Hfuel. lia.
      * exact Hres.
      * right. repeat split.
        -- destruct done; [destruct cur|]; discriminate.
        -- rewrite HL, length_app. cbn [length]. lia.
        -- rewrite <- HL2. exact Hag2.
Qed.

(** * The emitters *)

Lemma new_events_app w w' evs :
  trace w' = trace w ++ evs -> new_events w w' = evs.
Proof.
  intros H. unfold new_events. rewrite H, skipn_app, skipn_all, Nat.sub_diag.
  reflexivity.
Qed.

Lemma written_app a b : written (a ++ b) = written a ++ written b.
Proof.
  induction a as [|e a IH]; [reflexivity|].
  destruct e; cbn [app written]; rewrite IH; try reflexivity.
  now rewrite app_assoc.
Qed.

(** ** Decimal conversions contain digits and a sign only *)

Lemma string_of_uint_single_line d :
  single_line (cstr (DecimalString.NilEmpty.string_of_uint d)) = true.
Proof.
  induction d; cbn [DecimalString.NilEmpty.string_of_uint cstr
                    list_ascii_of_string]; try reflexivity;
    fold (cstr (DecimalString.NilEmpty.string_of_uint d));
    unfold single_line in *; cbn [forallb]; rewrite IHd; reflexivity.
Qed.

Lemma fmt_d_single_line v : single_line (fmt_d v) = true.
Proof.
  unfold fmt_d, DecimalString.NilZero.string_of_int,
    DecimalString.NilZero.string_of_uint.
  destruct (Z.to_int v) as [d|d].
  - destruct d; try reflexivity; apply string_of_uint_single_line.
  - cbn [cstr list_ascii_of_string].
    change (single_line
              ("-"%char
               :: cstr match d with
                       | Decimal.Nil => "0"
                       | _ => DecimalString.NilEmpty.string_of_uint d
                       end) = true).
    unfold single_line. cbn [forallb].
    change (forallb (fun c => negb (Ascii.eqb c newline)) ?x)
      with (single_line x).
    destruct d; try reflexivity; apply string_of_uint_single_line.
Qed.

Lemma to_nul_single_line s :
  single_line s = true -> single_line (to_nul s) = true.
Proof. apply single_line_firstn. Qed.

Lemma log_strings_at_single_line loglevel name :
  log_strings_at loglevel = Some name -> single_line (to_nul name) = true.
Proof.
  unfold log_strings_at. destruct (loglevel <? 0); [discriminate|].
  intros H. apply nth_error_In in H. apply to_nul_single_line.
  assert (Hall : forallb single_line log_strings = true) by reflexivity.
  rewrite forallb_forall in Hall. now apply Hall.
Qed.

Lemma log_strings_at_valid loglevel :
  0 <= loglevel <= 6 -> exists name, log_strings_at loglevel = Some name.
Proof.
  intros H. unfold log_strings_at.
  destruct (Z.ltb_spec loglevel 0); [lia|].
  destruct (nth_error log_strings (Z.to_nat loglevel)) as [name|] eqn:E;
    [now exists name|].
  apply nth_error_None in E. change (length log_strings) with 7%nat in E.
  lia.
Qed.

Lemma log_prefix_single_line name module file line func :
  single_line (to_nul name) = true -> single_line module = true ->
  single_line file = true -> single_line func = true ->
  single_line (log_prefix name module file line func) = true.
Proof.
  intros Hn Hm Hf Hu. unfold log_prefix. apply single_line_firstn.
  rewrite !single_line_app. repeat split;
    try reflexivity; try (now apply to_nul_single_line);
    try assumption; apply fmt_d_single_line.
Qed.

(** ** Resolution of the cached level and of the destination *)

Lemma resolve_status_shape module logdefault status w :
  exists evs,
    resolve_status module logdefault status w
    = (threshold module logdefault status w, add_events w evs)
    /\ written evs = [].
Proof.
  unfold threshold, resolve_status.
  destruct (status =? LOGLEVEL_UNDEFINED).
  - exists [Getenv "TSS2_LOG"]. split; reflexivity.
  - exists []. now rewrite add_events_nil.
Qed.

(** Once resolved, the level is not resolved to anything else. *)
Lemma threshold_idem module logdefault status w evs :
  threshold module logdefault
    (threshold module logdefault status w) (add_events w evs)
  = threshold module logdefault status w.
Proof.
  unfold threshold, resolve_status.
  destruct (Z.eqb_spec status LOGLEVEL_UNDEFINED) as [E|E];
    cbn [fst emit add_events environ].
  - destruct (Z.eqb_spec
                (getLogLevel (environ w "TSS2_LOG"%string) module logdefault)
                LOGLEVEL_UNDEFINED); reflexivity.
  - destruct (Z.eqb_spec status LOGLEVEL_UNDEFINED); [contradiction|].
    reflexivity.
Qed.

Lemma open_fails_add_events w evs :
  open_fails (add_events w evs) = open_fails w.
Proof. reflexivity. Qed.

(** What [getLogFile] adds to the trace writes nothing, unless the file
    cannot be opened. *)
Lemma getLogFile_trace w :
  exists evs,
    trace (snd (getLogFile w)) = trace w ++ evs
    /\ (open_fails w = false -> written evs = []).
Proof.
  unfold getLogFile, open_fails.
  destruct LOG_FILE_ENABLED; cbn [andb].
  2:{ exists []. now rewrite app_nil_r. }
  destruct (logfile_static w) as [f|].
  { exists []. now rewrite app_nil_r. }
  cbn [emit environ fopen_error].
  destruct (environ w "TSS2_LOGFILE"%string) as [envpath|].
  2:{ exists [Getenv "TSS2_LOGFILE"]. now split. }
  rewrite getLogFile_tests.
  destruct (case_insensitive_strncmp (Some envpath) (Some (cstr "stderr")) 7 =? 0).
  { exists [Getenv "TSS2_LOGFILE"]. now split. }
  destruct ((strcmp envpath (cstr "-") =? 0)
              || (case_insensitive_strncmp
                    (Some envpath) (Some (cstr "stdout")) 7 =? 0)).
  { exists [Getenv "TSS2_LOGFILE"]. now split. }
  destruct (fopen_error w (to_nul envpath)) as [err|].
  - eexists. split; [|discriminate].
    cbn [snd trace emit set_logfile]. rewrite <- !app_assoc. reflexivity.
  - exists [Getenv "TSS2_LOGFILE"; Fopen (to_nul envpath) "a+"].
    split; [|reflexivity].
    cbn [snd trace emit set_logfile]. rewrite <- !app_assoc. reflexivity.
Qed.

(** ** [doLog] *)

Lemma doLog_suppressed loglevel module logdefault status file func line text w :
  threshold module logdefault status w < loglevel ->
  exists w' evs,
    doLog loglevel module logdefault status file func line text w
    = Returns (threshold module logdefault status w, w')
    /\ w' = add_events w evs /\ written evs = [].
Proof.
  intros Hlt. unfold doLog, bind, lift.
  destruct (resolve_status_shape module logdefault status w)
    as (evs & -> & Hw).
  destruct (Z.gtb_spec loglevel (threshold module logdefault status w));
    [|lia].
  exists (add_events w evs), evs. now repeat split.
Qed.

Lemma doLog_emits loglevel module logdefault status file func line text w name :
  log_strings_at loglevel = Some name ->
  loglevel <= threshold module logdefault status w ->
  exists w' f evs,
    doLog loglevel module logdefault status file func line text w
    = Returns (threshold module logdefault status w, w')
    /\ trace w'
       = trace w ++ evs
         ++ message_events f (log_prefix name module file line func) text
    /\ (open_fails w = false -> written evs = [])
    /\ resolved_to f w'.
Proof.
  intros Hname Hle. unfold doLog, bind, lift.
  destruct (resolve_status_shape module logdefault status w)
    as (evs1 & -> & Hw1).
  destruct (Z.gtb_spec loglevel (threshold module logdefault status w));
    [lia|].
  rewrite Hname. cbn [of_option ret].
  pose proof (getLogFile_resolves (add_events w evs1)) as Hres.
  destruct (getLogFile_trace (add_events w evs1)) as (evs2 & Htr & Hw2).
  destruct (getLogFile (add_events w evs1)) as [f w2].
  cbn [fst snd] in *. cbn [do_emit].
  eexists _, f, (evs1 ++ evs2). repeat split.
  - cbn [trace emit add_events] in *. rewrite Htr.
    unfold message_events. rewrite <- !app_assoc. reflexivity.
  - intros Hof. rewrite written_app, Hw1, (Hw2 Hof). reflexivity.
  - now do 4 apply resolved_to_emit.
Qed.

(** ** [doLogBlob] *)

Lemma doLogBlob_suppressed fuel stack loglevel module logdefault status
    file func line blob size text w :
  threshold module logdefault status w < loglevel ->
  exists w' evs,
    doLogBlob fuel stack loglevel module logdefault status file func line
      blob size text w
    = Returns (threshold module logdefault status w, w')
    /\ w' = add_events w evs /\ written evs = [].
Proof.
  intros Hlt. unfold doLogBlob, bind, lift.
  destruct (resolve_status_shape module logdefault status w)
    as (evs & -> & Hw).
  destruct (Z.gtb_spec loglevel (threshold module logdefault status w));
    [|lia].
  exists (add_events w evs), evs. now repeat split.
Qed.

Lemma doLogBlob_null fuel stack loglevel module logdefault status
    file func line size text w name :
  log_strings_at loglevel = Some name ->
  loglevel <= threshold module logdefault status w ->
  exists w' f evs,
    doLogBlob fuel stack loglevel module logdefault status file func line
      None size text w
    = Returns (threshold module logdefault status w, w')
    /\ trace w'
       = trace w ++ evs
         ++ message_events f (log_prefix name module file line func)
              (null_blob_message text size)
    /\ (open_fails w = false -> written evs = []).
Proof.
  intros Hname Hle. unfold doLogBlob, bind, lift.
  destruct (resolve_status_shape module logdefault status w)
    as (evs1 & -> & Hw1).
  destruct (Z.gtb_spec loglevel (threshold module logdefault status w));
    [lia|].
  set (th := threshold module logdefault status w) in *.
  destruct (doLog_emits loglevel module logdefault th file func line
              (null_blob_message text size) (add_events w evs1) name Hname)
    as (w' & f & evs2 & Hrun & Htr & Hw2 & _).
  { unfold th. now rewrite threshold_idem. }
  unfold th in Hrun. rewrite threshold_idem in Hrun. fold th in Hrun.
  exists w', f, (evs1 ++ evs2). repeat split.
  - exact Hrun.
  - rewrite Htr. cbn [trace add_events]. now rewrite <- !app_assoc.
  - intros Hof. rewrite written_app, Hw1, (Hw2 Hof). reflexivity.
Qed.

Lemma doLogBlob_dump fuel stack loglevel module logdefault status
    file func line bytes size text w name :
  log_strings_at loglevel = Some name ->
  loglevel <= threshold module logdefault status w ->
  size = Z.of_nat (length bytes) -> size < UINT_MAX ->
  (length bytes < fuel)%nat ->
  exists w' f evs,
    doLogBlob fuel stack loglevel module logdefault status file func line
      (Some bytes) size text w
    = Returns (threshold module logdefault status w, w')
    /\ trace w'
       = trace w ++ evs
         ++ message_events f (log_prefix name module file line func)
              (blob_message text size)
         ++ line_events f (dump_lines 0 [] bytes)
    /\ (open_fails w = false -> written evs = []).
Proof.
  intros Hname Hle Hsize Hmax Hfuel. unfold doLogBlob, bind, lift.
  destruct (resolve_status_shape module logdefault status w)
    as (evs1 & -> & Hw1).
  destruct (Z.gtb_spec loglevel (threshold module logdefault status w));
    [lia|].
  set (th := threshold module logdefault status w) in *.
  destruct (doLog_emits loglevel module logdefault th file func line
              (blob_message text size) (add_events w evs1) name Hname)
    as (w' & f & evs2 & Hrun & Htr & Hw2 & Hres).
  { unfold th. now rewrite threshold_idem. }
  unfold th in Hrun. rewrite threshold_idem in Hrun. fold th in Hrun.
  fold (blob_message text size). rewrite Hrun.
  assert (Hloop : dump_loop fuel bytes size 1 0 0 stack w'
                  = Returns (tt, add_events w'
                                   (line_events f (dump_lines 0 [] bytes)))).
  { apply (dump_loop_spec f bytes size Hsize Hmax bytes fuel [] [] O stack w');
      [ reflexivity | cbn; lia | intros _; reflexivity | exact Hfuel
      | exact Hres | left; now repeat split ]. }
  rewrite Hloop.
  exists (add_events w' (line_events f (dump_lines 0 [] bytes))), f,
    (evs1 ++ evs2).
  repeat split.
  - cbn [trace add_events]. rewrite Htr. cbn [trace add_events].
    now rewrite <- !app_assoc.
  - intros Hof. rewrite written_app, Hw1, (Hw2 Hof). reflexivity.
Qed.

(** ** Counting lines *)

Lemma count_lines_message f prefix text :
  single_line prefix = true -> single_line text = true ->
  count_lines (written (message_events f prefix text)) = 1%nat.
Proof.
  intros Hp Ht. cbn [message_events written].
  rewrite !count_lines_app, (count_lines_single_line _ Hp),
    (count_lines_single_line _ Ht).
  reflexivity.
Qed.

Lemma count_lines_dump f : forall lines,
  Forall (fun l => plain l = true) lines ->
  count_lines (written (line_events f lines)) = length lines.
Proof.
  induction lines as [|l lines IH]; intros H; [reflexivity|].
  inversion H as [|? ? Hl Hls]; subst.
  cbn [line_events flat_map app written length].
  fold (line_events f lines).
  rewrite !count_lines_app, (IH Hls),
    (count_lines_single_line _ (plain_single_line _ Hl)).
  reflexivity.
Qed.

Lemma dump_lines_plain : forall rest offset cur,
  Forall (fun l => plain l = true) (dump_lines offset cur rest).
Proof.
  induction rest as [|b rest IH]; intros offset cur; cbn [dump_lines].
  - constructor.
  - destruct (_ || _); [constructor|]; try apply IH.
    apply dump_line_plain.
Qed.

(** The dump has one line for every 16 bytes, and one for what is left. *)
Lemma dump_lines_length : forall rest offset cur,
  (length cur < 16)%nat ->
  length (dump_lines offset cur rest)
  = match rest with
    | [] => O
    | _ => ((length cur + length rest + 15) / 16)%nat
    end.
Proof.
  induction rest as [|b rest IH]; intros offset cur Hcur; [reflexivity|].
  cbn [dump_lines]. rewrite length_app. cbn [length].
  destruct (Nat.eqb_spec (length cur + 1) 16) as [E|E]; cbn [orb].
  - cbn [length]. rewrite IH by (cbn; lia). cbn [length].
    destruct rest as [|b' rest]; cbn [length].
    + replace (length cur + 1 + 15)%nat with (1 * 16 + 15)%nat by lia.
      rewrite Nat.div_add_l by lia. reflexivity.
    + replace (length cur + S (S (length rest)) + 15)%nat
        with (1 * 16 + (0 + S (length rest) + 15))%nat by lia.
      rewrite Nat.div_add_l by lia. reflexivity.
  - destruct rest as [|b' rest].
    + cbn [length].
      replace (length cur + 1 + 15)%nat
        with (1 * 16 + length cur)%nat by lia.
      rewrite Nat.div_add_l by lia. rewrite Nat.div_small by lia.
      reflexivity.
    + rewrite IH by (rewrite length_app; cbn; lia).
      rewrite length_app. cbn [length]. f_equal. lia.
Qed.

Lemma blob_message_single_line text size :
  single_line text = true -> single_line (blob_message text size) = true.
Proof.
  intros H. unfold blob_message. rewrite !single_line_app. repeat split.
  - now apply to_nul_single_line, single_line_firstn.
  - apply fmt_d_single_line.
Qed.

Lemma ceil_div_16 (bytes : list Byte.byte) :
  match bytes with
  | [] => O
  | _ => ((length (@nil Byte.byte) + length bytes + 15) / 16)%nat
  end = ((length bytes + 15) / 16)%nat.
Proof. destruct bytes; reflexivity. Qed.

(** * Properties of the emitters *)

(** Claim C1, amended.  With [th] the effective threshold of the call
    (the cached level, resolved first if undefined): a line-log or blob-log
    call whose level is greater than [th] writes nothing.  A call whose
    level is one of the levels 0..6 and at most [th], that does not have to
    report a log file that cannot be opened ([open_fails]), and whose
    module, file and function names and formatted message contain no
    newline, writes exactly one line if it is a line-log call, and exactly
    one message line plus ceil(len/16) dump lines (none for len = 0) if it
    is a blob-log call with a buffer of len bytes, len below [UINT_MAX]. *)
Theorem emitters_line_count
    loglevel module logdefault status file func line text w :
  let th := threshold module logdefault status w in
  (th < loglevel ->
   (exists w',
      doLog loglevel module logdefault status file func line text w
      = Returns (th, w')
      /\ written (new_events w w') = [])
   /\ (forall fuel stack blob size,
       exists w',
         doLogBlob fuel stack loglevel module logdefault status file func
           line blob size text w
         = Returns (th, w')
         /\ written (new_events w w') = []))
  /\
  (0 <= loglevel <= 6 -> loglevel <= th -> open_fails w = false ->
   single_line module = true -> single_line file = true ->
   single_line func = true -> single_line text = true ->
   (exists w',
      doLog loglevel module logdefault status file func line text w
      = Returns (th, w')
      /\ count_lines (written (new_events w w')) = 1%nat)
   /\ (forall fuel stack bytes size,
       size = Z.of_nat (length bytes) -> size < UINT_MAX ->
       (length bytes < fuel)%nat ->
       exists w',
         doLogBlob fuel stack loglevel module logdefault status file func
           line (Some bytes) size text w
         = Returns (th, w')
         /\ count_lines (written (new_events w w'))
            = (1 + (length bytes + 15) / 16)%nat)).
Proof.
  intros th. split.
  - intros Hlt. split.
    + destruct (doLog_suppressed loglevel module logdefault status file func
                  line text w Hlt) as (w' & evs & Hrun & -> & Hw).
      exists (add_events w evs). split; [exact Hrun|].
      now rewrite (new_events_app w _ evs).
    + intros fuel stack blob size.
      destruct (doLogBlob_suppressed fuel stack loglevel module logdefault
                  status file func line blob size text w Hlt)
        as (w' & evs & Hrun & -> & Hw).
      exists (add_events w evs). split; [exact Hrun|].
      now rewrite (new_events_app w _ evs).
  - intros Hvalid Hle Hof Hm Hfi Hfu Ht.
    destruct (log_strings_at_valid loglevel Hvalid) as (name & Hname).
    pose proof (log_prefix_single_line name module file line func
                  (log_strings_at_single_line _ _ Hname) Hm Hfi Hfu) as Hp.
    split.
    + destruct (doLog_emits loglevel module logdefault status file func line
                  text w name Hname Hle)
        as (w' & f & evs & Hrun & Htr & Hw & _).
      exists w'. split; [exact Hrun|].
      rewrite (new_events_app w w' _ Htr), written_app, (Hw Hof).
      now apply count_lines_message.
    + intros fuel stack bytes size Hsize Hmax Hfuel.
      destruct (doLogBlob_dump fuel stack loglevel module logdefault status
                  file func line bytes size text w name Hname Hle Hsize Hmax
                  Hfuel)
        as (w' & f & evs & Hrun & Htr & Hw).
      exists w'. split; [exact Hrun|].
      rewrite (new_events_app w w' _ Htr), !written_app, (Hw Hof).
      cbn [app]. rewrite count_lines_app.
      rewrite count_lines_message
        by (try exact Hp; now apply blob_message_single_line).
      rewrite count_lines_dump by apply dump_lines_plain.
      rewrite dump_lines_length by (cbn; lia).
      now rewrite ceil_div_16.
Qed.

(** Claim C9, amended.  A blob-log call whose buffer pointer is NULL,
    whose level is one of the levels 0..6 and at most the threshold, that
    does not have to report a log file that cannot be opened
    ([open_fails]) and whose size is below 2^63, writes exactly the
    prefix, the formatted message (its first [LOG_MSG_MAX] characters)
    followed by " (size=N): (null)" with N the size in decimal, a blank
    and a newline, and no dump line; when the module, file and function
    names and the formatted message contain no newline, that is exactly
    one line.  A call whose level is above the threshold writes
    nothing. *)
Theorem doLogBlob_null_buffer
    fuel stack loglevel module logdefault status file func line size text
    w :
  let th := threshold module logdefault status w in
  (th < loglevel ->
   exists w',
     doLogBlob fuel stack loglevel module logdefault status file func line
       None size text w
     = Returns (th, w')
     /\ written (new_events w w') = [])
  /\
  (forall name,
     log_strings_at loglevel = Some name -> loglevel <= th ->
     open_fails w = false -> 0 <= size < 2 ^ 63 ->
     exists w' f evs,
       doLogBlob fuel stack loglevel module logdefault status file func
         line None size text w
       = Returns (th, w')
       /\ new_events w w'
          = evs
            ++ [Write f (log_prefix name module file line func);
                Write f (to_nul (firstn LOG_MSG_MAX text)
                         ++ cstr " (size=" ++ fmt_d size
                         ++ cstr "): (null)");
                Write f (cstr " " ++ [newline]);
                Fflush f]
       /\ written evs = []
       /\ written (new_events w w')
          = log_prefix name module file line func
            ++ to_nul (firstn LOG_MSG_MAX text)
            ++ cstr " (size=" ++ fmt_d size ++ cstr "): (null) "
            ++ [newline]
       /\ (single_line module = true -> single_line file = true ->
           single_line func = true -> single_line text = true ->
           count_lines (written (new_events w w')) = 1%nat)
       /\ (no_nul text = true -> (length text <= LOG_MSG_MAX)%nat ->
           to_nul (firstn LOG_MSG_MAX text) = text)).
Proof.
  intros th. split.
  - intros Hlt.
    destruct (doLogBlob_suppressed fuel stack loglevel module logdefault
                status file func line None size text w Hlt)
      as (w' & evs & Hrun & -> & Hw).
    exists (add_events w evs). split; [exact Hrun|].
    now rewrite (new_events_app w _ evs).
  - intros name Hname Hle Hof Hsz.
    destruct (doLogBlob_null fuel stack loglevel module logdefault status
                file func line size text w name Hname Hle)
      as (w' & f & evs & Hrun & Htr & Hw).
    assert (Hzi : fmt_zi size = fmt_d size).
    { unfold fmt_zi. destruct (Z.ltb_spec size (2 ^ 63)); [reflexivity|lia]. }
    assert (Hev : new_events w w'
                  = evs ++ message_events f
                             (log_prefix name module file line func)
                             (null_blob_message text size))
      by now rewrite (new_events_app w w' _ Htr).
    exists w', f, evs. split; [exact Hrun|].
    split.
    { rewrite Hev. unfold message_events, null_blob_message.
      now rewrite Hzi. }
    split; [exact (Hw Hof)|].
    split.
    { rewrite Hev, written_app, (Hw Hof).
      unfold message_events, null_blob_message. rewrite Hzi.
      cbn [written app]. rewrite app_nil_r, <- !app_assoc. reflexivity. }
    split.
    { intros Hm Hfi Hfu Ht.
      rewrite Hev, written_app, (Hw Hof). cbn [app].
      apply count_lines_message.
      - exact (log_prefix_single_line name module file line func
                 (log_strings_at_single_line _ _ Hname) Hm Hfi Hfu).
      - unfold null_blob_message. rewrite !single_line_app. repeat split.
        + now apply to_nul_single_line, single_line_firstn.
        + apply fmt_d_single_line. }
    intros Hn Hl. rewrite firstn_all2 by exact Hl. now apply to_nul_no_nul.
Qed.

Lemma dump_lines_17 bytes :
  length bytes = 17%nat ->
  dump_lines 0 [] bytes
  = [dump_line 0 (firstn 16 bytes); dump_line 16 (skipn 16 bytes)].
Proof.
  intros Hlen.
  do 17 (destruct bytes as [|? bytes]; [discriminate|]).
  destruct bytes; [|discriminate].
  reflexivity.
Qed.

(** Claim C8.  A blob-log call at or below the threshold with a buffer of
    17 bytes prints, after the message, exactly two dump lines: the first
    with the offset 0000, the 16 pairs of hexadecimal digits of the first
    16 bytes, two blanks and their ASCII rendering; the second with the
    offset 0010, the pair of the last byte, two blanks, 30 blanks of
    padding and its ASCII rendering.  In both lines the ASCII rendering
    starts at column [ascii_column]. *)
Theorem doLogBlob_17_bytes
    fuel stack loglevel module logdefault status file func line bytes text
    w name :
  log_strings_at loglevel = Some name ->
  loglevel <= threshold module logdefault status w ->
  length bytes = 17%nat -> (17 < fuel)%nat ->
  let first := firstn 16 bytes in
  let last := skipn 16 bytes in
  let left1 := cstr "0000: " ++ hex_pairs first ++ cstr "  " in
  let left2 :=
    cstr "0010: " ++ hex_pairs last ++ cstr "  " ++ repeat " "%char 30 in
  (exists w' f evs,
     doLogBlob fuel stack loglevel module logdefault status file func line
       (Some bytes) 17 text w
     = Returns (threshold module logdefault status w, w')
     /\ new_events w w'
        = evs
          ++ message_events f (log_prefix name module file line func)
               (blob_message text 17)
          ++ [Write f ((left1 ++ map render first) ++ [newline]); Fflush f;
              Write f ((left2 ++ map render last) ++ [newline]); Fflush f]
     /\ (open_fails w = false -> written evs = []))
  /\ length first = 16%nat /\ length (hex_pairs first) = 32%nat
  /\ length last = 1%nat /\ length (hex_pairs last) = 2%nat
  /\ length left1 = ascii_column /\ length left2 = ascii_column.
Proof.
  intros Hname Hle Hlen Hfuel first last left1 left2.
  assert (Hfirst : length first = 16%nat)
    by (unfold first; rewrite length_firstn; lia).
  assert (Hlast : length last = 1%nat)
    by (unfold last; rewrite length_skipn; lia).
  split; [|repeat split].
  - destruct (doLogBlob_dump fuel stack loglevel module logdefault status
                file func line bytes 17 text w name Hname Hle)
      as (w' & f & evs & Hrun & Htr & Hw).
    { rewrite Hlen. reflexivity. }
    { reflexivity. }
    { lia. }
    exists w', f, evs. repeat split; [exact Hrun | | exact Hw].
    rewrite (new_events_app w w' _ Htr). do 2 f_equal.
    rewrite (dump_lines_17 bytes Hlen).
    cbn [line_events flat_map app]. unfold dump_line.
    fold first. fold last. subst left1 left2. rewrite Hfirst, Hlast.
    change (firstn 6 (fmt_x 4 0 ++ cstr ": ")) with (cstr "0000: ").
    change (firstn 6 (fmt_x 4 16 ++ cstr ": ")) with (cstr "0010: ").
    change (repeat " "%char (ascii_column - (8 + 2 * 16))) with (@nil ascii).
    change (repeat " "%char (ascii_column - (8 + 2 * 1)))
      with (repeat " "%char 30).
    cbn [app]. rewrite <- !app_assoc. reflexivity.
  - exact Hfirst.
  - rewrite hex_pairs_length, Hfirst. reflexivity.
  - exact Hlast.
  - rewrite hex_pairs_length, Hlast. reflexivity.
  - unfold left1. rewrite !length_app, hex_pairs_length, Hfirst. reflexivity.
  - unfold left2.
    rewrite !length_app, hex_pairs_length, Hlast, repeat_length. reflexivity.
Qed.

(** * Further properties of the comparison and of the table lookup *)

Lemma to_nul_nil : to_nul [] = [].
Proof. reflexivity. Qed.

Lemma to_nul_cons c s :
  to_nul (c :: s) = if Ascii.eqb c NUL then [] else c :: to_nul s.
Proof. unfold to_nul. cbn [strlen]. now destruct (Ascii.eqb c NUL). Qed.

Lemma deref_NUL_to_nul s : deref s = NUL -> to_nul s = [].
Proof.
  destruct s as [|c s]; [reflexivity|]. cbn [deref hd]. intros ->.
  now rewrite to_nul_cons.
Qed.

Lemma deref_to_nul s :
  deref s <> NUL -> exists s', s = deref s :: s' /\ to_nul s = deref s :: to_nul s'.
Proof.
  destruct s as [|c s]; cbn [deref hd]; [contradiction|].
  intros Hc. exists s. split; [reflexivity|].
  now rewrite to_nul_cons, (eqb_NUL_false _ Hc).
Qed.

Lemma strncmp_loop_NUL_l m s t :
  deref s = NUL -> strncmp_loop m s t = - lower (deref t).
Proof.
  intros Hs. rewrite strncmp_loop_eq, Hs. change (lower NUL) with 0.
  rewrite Ascii.eqb_refl. destruct (negb _); lia.
Qed.

Lemma strncmp_loop_NUL_r m s t :
  deref t = NUL -> strncmp_loop m s t = lower (deref s).
Proof.
  intros Ht. rewrite strncmp_loop_eq, Ht. change (lower NUL) with 0.
  rewrite Ascii.eqb_refl.
  destruct (negb _); [lia|]. destruct (Ascii.eqb (deref s) NUL); lia.
Qed.

Lemma strncmp_loop_zero_iff m : forall s t,
  strncmp_loop m s t = 0
  <-> lower_eq (firstn (S m) (to_nul s)) (firstn (S m) (to_nul t)).
Proof.
  unfold lower_eq.
  induction m as [|m IH]; intros s t;
    destruct (Ascii.eqb_spec (deref s) NUL) as [Hs|Hs];
    destruct (Ascii.eqb_spec (deref t) NUL) as [Ht|Ht].
  1, 5: rewrite (strncmp_loop_NUL_l _ _ _ Hs), Ht,
          (deref_NUL_to_nul _ Hs), (deref_NUL_to_nul _ Ht);
        split; reflexivity.
  1, 4: rewrite (strncmp_loop_NUL_l _ _ _ Hs), (deref_NUL_to_nul _ Hs);
        destruct (deref_to_nul _ Ht) as (t' & _ & Et); rewrite Et;
        split; [|discriminate]; intros H; exfalso; apply Ht, lower_zero; lia.
  1, 3: rewrite (strncmp_loop_NUL_r _ _ _ Ht), (deref_NUL_to_nul _ Ht);
        destruct (deref_to_nul _ Hs) as (s' & _ & Es); rewrite Es;
        split; [|discriminate]; intros H; exfalso; now apply Hs, lower_zero.
  - rewrite strncmp_loop_eq.
    rewrite (eqb_NUL_false _ Hs), (eqb_NUL_false _ Ht).
    destruct (deref_to_nul _ Hs) as (s' & _ & Es).
    destruct (deref_to_nul _ Ht) as (t' & _ & Et).
    rewrite Es, Et. cbn [firstn map].
    destruct (Z.eqb_spec (lower (deref s) - lower (deref t)) 0) as [E|E];
      cbn [negb].
    + split; intros _; [f_equal; lia | exact E].
    + split; [contradiction|]. intros H. injection H as H. lia.
  - rewrite strncmp_loop_eq.
    rewrite (eqb_NUL_false _ Hs), (eqb_NUL_false _ Ht).
    destruct (deref_to_nul _ Hs) as (s' & Hs' & Es).
    destruct (deref_to_nul _ Ht) as (t' & Ht' & Et).
    rewrite Es, Et.
    replace (tl s) with s' by (rewrite Hs'; reflexivity).
    replace (tl t) with t' by (rewrite Ht'; reflexivity).
    rewrite !firstn_cons. cbn [map].
    destruct (Z.eqb_spec (lower (deref s) - lower (deref t)) 0) as [E|E];
      cbn [negb].
    + rewrite (IH s' t'). split; intros H.
      * rewrite H. f_equal. lia.
      * now injection H.
    + split; [contradiction|]. intros H. injection H as H _. lia.
Qed.

(** The result of [case_insensitive_strncmp] is 0 exactly when the two
    strings, cut after [n] characters, are equal up to case; a NULL pointer
    equals only a NULL pointer. *)
Theorem case_insensitive_strncmp_zero :
  (forall s t n,
     case_insensitive_strncmp (Some s) (Some t) n = 0
     <-> lower_eq (firstn n (to_nul s)) (firstn n (to_nul t)))
  /\ (forall t n, case_insensitive_strncmp None (Some t) n <> 0)
  /\ (forall s n, case_insensitive_strncmp (Some s) None n <> 0)
  /\ (forall n, case_insensitive_strncmp None None n = 0).
Proof.
  repeat split; try discriminate; try reflexivity.
  - destruct n as [|m]; [intros _; reflexivity|].
    now apply strncmp_loop_zero_iff.
  - destruct n as [|m]; [reflexivity|].
    now apply strncmp_loop_zero_iff.
Qed.

(** Exchanging the two strings negates the result: the comparison is an
    antisymmetric three-way comparison, NULL being the least string. *)
Theorem case_insensitive_strncmp_antisym string1 string2 n :
  case_insensitive_strncmp string2 string1 n
  = - case_insensitive_strncmp string1 string2 n.
Proof.
  destruct string1 as [s|], string2 as [t|]; try reflexivity.
  destruct n as [|m]; [reflexivity|]. apply strncmp_loop_sym.
Qed.

Lemma log_stringlevel_loop_cases n : forall table i,
  forallb no_nul table = true ->
  (log_stringlevel_loop table i n = LOGLEVEL_UNDEFINED
   /\ forall name, In name table -> ~ starts_ci n name)
  \/ (exists k name,
        nth_error table k = Some name /\ starts_ci n name
        /\ log_stringlevel_loop table i n = i + Z.of_nat k).
Proof.
  induction table as [|e table IH]; intros i Ht.
  - left. split; [reflexivity | intros name []].
  - cbn [forallb] in Ht. apply andb_prop in Ht. destruct Ht as [He Ht].
    cbn [log_stringlevel_loop].
    destruct (Z.eqb_spec
                (case_insensitive_strncmp (Some e) (Some n) (strlen e)) 0)
      as [E|E].
    + right. exists O, e. repeat split; [now apply table_compare_zero | lia].
    + destruct (IH (i + 1) Ht) as [[Hu Hnone] | (k & name & Hk & Hs & Hr)].
      * left. split; [exact Hu|]. intros name [<-|Hin]; [|now apply Hnone].
        intros Hs. apply E. now apply table_compare_zero.
      * right. exists (S k), name. repeat split; [exact Hk | exact Hs | lia].
Qed.

(** Claim C7.  The level-name lookup compares as many characters as the
    table entry has, all of them and no more: a token is taken for level
    [i] exactly when it starts, up to case, with the [i]-th name of the
    table, and for no level exactly when it starts with none of the
    names.  So the token "debugger" resolves to the level debug, while
    "dog", which shares only its first letter with a name, resolves to no
    level. *)
Theorem log_stringlevel_prefix_match :
  (forall i name tok,
     nth_error log_strings i = Some name ->
     (starts_ci tok name <-> log_stringlevel tok = Z.of_nat i))
  /\ (forall tok,
        log_stringlevel tok = LOGLEVEL_UNDEFINED
        <-> (forall name, In name log_strings -> ~ starts_ci tok name))
  /\ log_stringlevel (cstr "debugger") = LOGLEVEL_DEBUG
  /\ log_stringlevel (cstr "dog") = LOGLEVEL_UNDEFINED.
Proof using LOGLEVEL_UNDEFINED_sentinel.
  assert (Hidx : forall k name,
            nth_error log_strings k = Some name ->
            Z.of_nat k <> LOGLEVEL_UNDEFINED).
  { intros k name Hk. apply level_defined.
    assert (k < length log_strings)%nat
      by (apply nth_error_Some; congruence).
    change (length log_strings) with 7%nat in *. lia. }
  split; [|split; [|split; reflexivity]].
  - intros i name tok Hi. split.
    + intros Hs. exact (log_stringlevel_hit tok i name Hi Hs).
    + intros Hr.
      destruct (log_stringlevel_loop_cases tok log_strings 0
                  log_strings_no_nul)
        as [[HU _] | (k & name' & Hk & Hs & Hk')].
      * exfalso. apply (Hidx i name Hi).
        rewrite <- Hr. exact HU.
      * unfold log_stringlevel in Hr. rewrite Hk' in Hr.
        assert (k = i) by lia. subst k.
        rewrite Hi in Hk. injection Hk as <-. exact Hs.
  - intros tok.
    destruct (log_stringlevel_loop_cases tok log_strings 0
                log_strings_no_nul)
      as [[HU Hnone] | (k & name & Hk & Hs & Hk')].
    + split; [intros _; exact Hnone | intros _; exact HU].
    + split.
      * intros HU. exfalso. apply (Hidx k name Hk).
        unfold log_stringlevel in HU. rewrite Hk' in HU.
        rewrite <- HU. lia.
      * intros Hnone. exfalso.
        exact (Hnone name (nth_error_In _ _ Hk) Hs).
Qed.

(** What [log_stringlevel] returns: the sentinel when the token starts
    with none of the seven level names, and otherwise the index of a name
    the token starts with (up to case). *)
Theorem log_stringlevel_cases tok :
  (log_stringlevel tok = LOGLEVEL_UNDEFINED
   /\ forall name, In name log_strings -> ~ starts_ci tok name)
  \/ (exists i name,
        nth_error log_strings i = Some name /\ starts_ci tok name
        /\ log_stringlevel tok = Z.of_nat i).
Proof.
  destruct (log_stringlevel_loop_cases tok log_strings 0 log_strings_no_nul)
    as [H | (k & name & Hk & Hs & Hr)]; [now left | right].
  exists k, name. repeat split; [exact Hk | exact Hs|].
  unfold log_stringlevel. rewrite Hr. lia.
Qed.

(** * Further properties of the level resolver *)

Lemma getLogLevel_loop_range envlevel module : forall fuel i loglevel,
  getLogLevel_loop fuel envlevel module i loglevel = loglevel
  \/ 0 <= getLogLevel_loop fuel envlevel module i loglevel <= 6.
Proof.
  induction fuel as [|fuel IH]; intros i loglevel; cbn [getLogLevel_loop].
  - now left.
  - destruct (strchr (skipn i envlevel) "+"%char) as [k|]; [|now left].
    match goal with
    | |- context [getLogLevel_loop fuel envlevel module ?j ?l] =>
        destruct (IH j l) as [H|H]; [rewrite H | now right]
    end.
    destruct (entry_matches envlevel module (i + k)); [|now left].
    destruct (Z.eqb_spec
                (log_stringlevel (skipn (i + k + 1) envlevel))
                LOGLEVEL_UNDEFINED) as [E|E]; cbn [negb]; [now left|].
    right.
    destruct (log_stringlevel_range (skipn (i + k + 1) envlevel));
      [contradiction | assumption].
Qed.

(** The resolver returns the default level or one of the levels 0..6:
    whatever [TSS2_LOG] holds, it never yields the sentinel (unless the
    default is the sentinel) nor a value outside the table of names. *)
Theorem getLogLevel_range envlevel module logdefault :
  getLogLevel envlevel module logdefault = logdefault
  \/ 0 <= getLogLevel envlevel module logdefault <= 6.
Proof.
  destruct envlevel as [e|]; [|now left]. apply getLogLevel_loop_range.
Qed.

Lemma strchr_past_end (s : list ascii) i :
  (length s <= i)%nat -> strchr (skipn i s) "+"%char = None.
Proof. intros H. now rewrite skipn_all2. Qed.

Lemma getLogLevel_loop_more_fuel envlevel module : forall fuel i loglevel,
  (length envlevel - i < fuel)%nat ->
  getLogLevel_loop (S fuel) envlevel module i loglevel
  = getLogLevel_loop fuel envlevel module i loglevel.
Proof.
  induction fuel as [|fuel IH]; intros i loglevel Hf; [lia|].
  cbn [getLogLevel_loop].
  destruct (strchr (skipn i envlevel) "+"%char) as [k|] eqn:E;
    [|reflexivity].
  destruct (Nat.le_gt_cases (length envlevel) i) as [Hle|Hgt].
  { rewrite strchr_past_end in E by exact Hle. discriminate. }
  change (getLogLevel_loop (S fuel) envlevel module (i + k + 1)
            (if entry_matches envlevel module (i + k)
             then
               if negb (log_stringlevel (skipn (i + k + 1) envlevel)
                        =? LOGLEVEL_UNDEFINED)
               then log_stringlevel (skipn (i + k + 1) envlevel)
               else loglevel
             else loglevel)
          = getLogLevel_loop fuel envlevel module (i + k + 1)
              (if entry_matches envlevel module (i + k)
               then
                 if negb (log_stringlevel (skipn (i + k + 1) envlevel)
                          =? LOGLEVEL_UNDEFINED)
                 then log_stringlevel (skipn (i + k + 1) envlevel)
                 else loglevel
               else loglevel)).
  apply IH. lia.
Qed.

Lemma getLogLevel_loop_fuel envlevel module logdefault fuel :
  (length envlevel < fuel)%nat ->
  getLogLevel_loop fuel envlevel module 0 logdefault
  = getLogLevel (Some envlevel) module logdefault.
Proof.
  unfold getLogLevel. intros Hf.
  induction fuel as [|fuel IH]; [lia|].
  destruct (Nat.eq_dec fuel (length envlevel)) as [->|Hne]; [reflexivity|].
  rewrite getLogLevel_loop_more_fuel by lia. apply IH. lia.
Qed.

Lemma strchr_plus_bound (s : list ascii) k :
  strchr s "+"%char = Some k -> (k < length s)%nat.
Proof.
  intros H. destruct (strchr_plus_split s k H) as (a & r & -> & <- & _).
  rewrite length_app. cbn [length]. lia.
Qed.

(** Every round of the loop moves [i] past a '+' of the value: from the
    offset [i], more rounds than there are characters left reach the
    end. *)
Lemma getLogLevel_while_ends envlevel module : forall fuel i loglevel,
  (i <= length envlevel)%nat -> (length envlevel < i + fuel)%nat ->
  getLogLevel_while fuel envlevel module i loglevel
  = Some (getLogLevel_loop fuel envlevel module i loglevel).
Proof.
  induction fuel as [|fuel IH]; intros i loglevel Hi Hf; [lia|].
  cbn [getLogLevel_while getLogLevel_loop].
  destruct (strchr (skipn i envlevel) "+"%char) as [k|] eqn:E;
    [|reflexivity].
  apply strchr_plus_bound in E. rewrite length_skipn in E.
  cbv zeta. apply IH; lia.
Qed.

(** The [while] loop of [getLogLevel] terminates: it ends within one
    round per character of the value plus one, and then has the level
    that [getLogLevel] returns. *)
Theorem getLogLevel_loop_terminates envlevel module logdefault fuel :
  (length envlevel < fuel)%nat ->
  getLogLevel_while fuel envlevel module 0 logdefault
  = Some (getLogLevel (Some envlevel) module logdefault).
Proof.
  intros Hf. rewrite getLogLevel_while_ends by lia.
  now rewrite getLogLevel_loop_fuel.
Qed.

(** ** Case does not matter *)

Lemma lower_eq_length a b : lower_eq a b -> length a = length b.
Proof.
  intros H. apply (f_equal (@length Z)) in H. now rewrite !length_map in H.
Qed.

Lemma lower_eq_app a a' b b' :
  lower_eq a a' -> lower_eq b b' -> lower_eq (a ++ b) (a' ++ b').
Proof. unfold lower_eq. intros Ha Hb. now rewrite !map_app, Ha, Hb. Qed.

Lemma eqb_NUL_lower c c' :
  lower c = lower c' -> Ascii.eqb c NUL = Ascii.eqb c' NUL.
Proof.
  intros H.
  destruct (Ascii.eqb_spec c NUL) as [->|Hc];
    destruct (Ascii.eqb_spec c' NUL) as [->|Hc']; try reflexivity; exfalso.
  - apply Hc'. apply lower_zero. rewrite <- H. reflexivity.
  - apply Hc. apply lower_zero. rewrite H. reflexivity.
Qed.

Lemma eqb_plus_lower c c' :
  lower c = lower c' -> Ascii.eqb c "+"%char = Ascii.eqb c' "+"%char.
Proof.
  intros H.
  destruct (Ascii.eqb_spec c "+"%char) as [->|Hc];
    destruct (Ascii.eqb_spec c' "+"%char) as [->|Hc']; try reflexivity;
    exfalso.
  - apply Hc'. apply lower_plus. rewrite <- H. reflexivity.
  - apply Hc. apply lower_plus. rewrite H. reflexivity.
Qed.

Lemma no_nul_lower_eq a b : lower_eq a b -> no_nul a = no_nul b.
Proof.
  unfold lower_eq, no_nul. revert b.
  induction a as [|c a IH]; intros [|c' b] H; try discriminate;
    [reflexivity|].
  cbn [map] in H. injection H as Hc H. cbn [forallb].
  now rewrite (eqb_NUL_lower _ _ Hc), (IH b H).
Qed.

Lemma lower_eqb_congr a a' b b' :
  lower_eq a a' -> lower_eq b b' -> lower_eqb a b = lower_eqb a' b'.
Proof. unfold lower_eq, lower_eqb. now intros -> ->. Qed.

Lemma ends_ci_congr s s' t t' :
  lower_eq s s' -> lower_eq t t' -> ends_ci s t = ends_ci s' t'.
Proof.
  intros Hs Ht. unfold ends_ci.
  rewrite (lower_eq_length _ _ Hs), (lower_eq_length _ _ Ht).
  f_equal. apply lower_eqb_congr; [|exact Ht].
  unfold lower_eq in *. now rewrite <- !skipn_map, Hs.
Qed.

Lemma name_matches_congr module module' pre pre' :
  lower_eq module module' -> lower_eq pre pre' ->
  name_matches module pre = name_matches module' pre'.
Proof.
  intros Hm Hp. unfold name_matches.
  rewrite (ends_ci_congr pre pre' (cstr "all") (cstr "all") Hp eq_refl).
  now rewrite (ends_ci_congr pre pre' module module' Hp Hm).
Qed.

Lemma starts_ci_congr tok tok' entry :
  lower_eq tok tok' -> (starts_ci tok entry <-> starts_ci tok' entry).
Proof.
  unfold starts_ci, lower_eq. intros H.
  now rewrite <- !firstn_map, H.
Qed.

Lemma log_stringlevel_loop_congr tok tok' : forall table i,
  forallb no_nul table = true -> lower_eq tok tok' ->
  log_stringlevel_loop table i tok = log_stringlevel_loop table i tok'.
Proof.
  induction table as [|e table IH]; intros i Ht H; [reflexivity|].
  cbn [forallb] in Ht. apply andb_prop in Ht. destruct Ht as [He Ht].
  cbn [log_stringlevel_loop]. rewrite (IH (i + 1) Ht H).
  replace (case_insensitive_strncmp (Some e) (Some tok) (strlen e) =? 0)
    with (case_insensitive_strncmp (Some e) (Some tok') (strlen e) =? 0);
    [reflexivity|].
  apply eq_true_iff_eq. rewrite !Z.eqb_eq, !(table_compare_zero e _ He).
  symmetry. now apply starts_ci_congr.
Qed.

Lemma log_stringlevel_congr tok tok' :
  lower_eq tok tok' -> log_stringlevel tok = log_stringlevel tok'.
Proof. apply log_stringlevel_loop_congr, log_strings_no_nul. Qed.

Lemma scan_congr module module' :
  lower_eq module module' ->
  forall rest rest' pre pre' loglevel,
    lower_eq rest rest' -> lower_eq pre pre' ->
    scan module pre rest loglevel = scan module' pre' rest' loglevel.
Proof.
  intros Hm.
  induction rest as [|c rest IH]; intros [|c' rest'] pre pre' loglevel Hr Hp;
    try discriminate; [reflexivity|].
  unfold lower_eq in Hr. cbn [map] in Hr. injection Hr as Hc Hr.
  cbn [scan].
  rewrite (eqb_NUL_lower _ _ Hc), (eqb_plus_lower _ _ Hc),
    (name_matches_congr _ _ _ _ Hm Hp).
  unfold entry_level. rewrite (log_stringlevel_congr rest rest' Hr).
  destruct (Ascii.eqb c' NUL); [reflexivity|].
  apply IH; [exact Hr|].
  apply lower_eq_app; [exact Hp|]. unfold lower_eq. cbn [map]. now rewrite Hc.
Qed.

(** The resolver does not distinguish upper and lower case, neither in the
    module name nor in the value of [TSS2_LOG] (module names and level
    names alike). *)
Theorem getLogLevel_case_insensitive env env' module module' logdefault :
  no_nul module = true ->
  lower_eq module module' -> lower_eq env env' ->
  getLogLevel (Some env) module logdefault
  = getLogLevel (Some env') module' logdefault.
Proof.
  intros Hn Hm He.
  rewrite (getLogLevel_scan _ _ _ Hn).
  rewrite (getLogLevel_scan env' module' logdefault)
    by (rewrite <- (no_nul_lower_eq _ _ Hm); exact Hn).
  now apply scan_congr.
Qed.

(** * The events of a call *)

Lemma resolve_status_events module logdefault status w :
  resolve_status module logdefault status w
  = (threshold module logdefault status w,
     add_events w (level_events status)).
Proof.
  unfold threshold, resolve_status, level_events.
  destruct (status =? LOGLEVEL_UNDEFINED); [reflexivity|].
  now rewrite add_events_nil.
Qed.

Lemma threshold_resolved module logdefault status w :
  status <> LOGLEVEL_UNDEFINED ->
  threshold module logdefault status w = status.
Proof.
  intros H. unfold threshold, resolve_status.
  destruct (Z.eqb_spec status LOGLEVEL_UNDEFINED); [contradiction|].
  reflexivity.
Qed.

Lemma level_events_resolved status :
  status <> LOGLEVEL_UNDEFINED -> level_events status = [].
Proof.
  intros H. unfold level_events.
  destruct (Z.eqb_spec status LOGLEVEL_UNDEFINED); [contradiction|].
  reflexivity.
Qed.

Lemma getLogFile_events w :
  exists R,
    trace (snd (getLogFile w)) = trace w ++ R
    /\ Forall (resolver_event (fst (getLogFile w))) R.
Proof.
  unfold getLogFile.
  destruct LOG_FILE_ENABLED.
  2:{ exists []. split; [now rewrite app_nil_r | constructor]. }
  destruct (logfile_static w) as [f|].
  { exists []. split; [now rewrite app_nil_r | constructor]. }
  cbn [emit environ fopen_error].
  destruct (environ w "TSS2_LOGFILE"%string) as [envpath|].
  2:{ exists [Getenv "TSS2_LOGFILE"]. split; [reflexivity|].
      repeat constructor. }
  destruct (case_insensitive_strncmp (Some envpath) (Some (cstr "stderr")) 7
            =? 0).
  { exists [Getenv "TSS2_LOGFILE"]. split; [reflexivity|].
    repeat constructor. }
  destruct ((strcmp envpath (cstr "-") =? 0)
            || (case_insensitive_strncmp
                  (Some envpath) (Some (cstr "stdout")) 7 =? 0)).
  { exists [Getenv "TSS2_LOGFILE"]. split; [reflexivity|].
    repeat constructor. }
  destruct (fopen_error w (to_nul envpath)) as [err|].
  - exists [Getenv "TSS2_LOGFILE"; Fopen (to_nul envpath) "a+";
            Write stderr (open_diagnostic (to_nul envpath) err);
            Fflush stderr].
    split; [|repeat constructor].
    cbn [snd trace emit set_logfile]. rewrite <- !app_assoc. reflexivity.
  - exists [Getenv "TSS2_LOGFILE"; Fopen (to_nul envpath) "a+"].
    split; [|repeat constructor].
    cbn [snd trace emit set_logfile]. rewrite <- !app_assoc. reflexivity.
Qed.

Lemma message_events_stream f prefix text :
  Forall (stream_event f) (message_events f prefix text).
Proof. repeat constructor. Qed.

Lemma message_events_flushed f prefix text :
  ends_flushed f (message_events f prefix text).
Proof.
  right. exists [Write f prefix; Write f text;
                 Write f (cstr " " ++ [newline])].
  reflexivity.
Qed.

(** What a call of [doLog] that returns has done. *)
Lemma doLog_returns loglevel module logdefault status file func line text
    w s' w' :
  doLog loglevel module logdefault status file func line text w
  = Returns (s', w') ->
  s' = threshold module logdefault status w
  /\ (s' < loglevel /\ w' = add_events w (level_events status)
      \/ loglevel <= s'
         /\ exists name,
              log_strings_at loglevel = Some name
              /\ w' = add_events
                        (snd (getLogFile
                                (add_events w (level_events status))))
                        (message_events
                           (fst (getLogFile
                                   (add_events w (level_events status))))
                           (log_prefix name module file line func) text)).
Proof.
  unfold doLog, bind, lift. rewrite resolve_status_events.
  destruct (Z.gtb_spec loglevel (threshold module logdefault status w))
    as [Hgt|Hle].
  - intros [= <- <-]. split; [reflexivity|]. left. split; [lia | reflexivity].
  - destruct (log_strings_at loglevel) as [name|]; cbn [of_option ret];
      [|discriminate].
    destruct (getLogFile (add_events w (level_events status))) as [f w2].
    cbn [ret do_emit fst snd]. intros [= <- <-].
    split; [reflexivity|]. right. split; [exact Hle|].
    exists name. split; [reflexivity|].
    now rewrite !emit_add_events, !add_events_app.
Qed.

Lemma stream_is_resolver f e : stream_event f e -> resolver_event f e.
Proof. destruct e; cbn; intros H; try contradiction; exact H. Qed.

(** The trace of a call of [doLog]: the reading of [TSS2_LOG] if the level
    is not cached, what [getLogFile] does, and the message. *)
Lemma doLog_trace loglevel module logdefault status file func line text
    w s' w' :
  doLog loglevel module logdefault status file func line text w
  = Returns (s', w') ->
  exists f R S,
    trace w' = trace w ++ level_events status ++ R ++ S
    /\ Forall (resolver_event f) R /\ Forall (stream_event f) S
    /\ ends_flushed f S
    /\ (S <> [] -> resolved_to f w') /\ (S = [] -> R = []).
Proof.
  intros H. apply doLog_returns in H.
  destruct H as [_ [[_ ->] | (_ & name & _ & ->)]].
  - exists stderr, [], [].
    split; [cbn [trace add_events]; now rewrite !app_nil_r|].
    split; [constructor|]. split; [constructor|]. split; [now left|].
    split; [intros Hne; now contradiction Hne | reflexivity].
  - set (w1 := add_events w (level_events status)).
    destruct (getLogFile_events w1) as (R & Htr & HR).
    pose proof (getLogFile_resolves w1) as Hres.
    exists (fst (getLogFile w1)), R, (message_events (fst (getLogFile w1))
                                    (log_prefix name module file line func)
                                    text).
    repeat split.
    + cbn [trace add_events]. rewrite Htr.
      unfold w1. cbn [trace add_events]. now rewrite <- !app_assoc.
    + exact HR.
    + apply message_events_stream.
    + apply message_events_flushed.
    + intros _. now apply resolved_to_add_events.
    + discriminate.
Qed.

(** With the destination resolved to [f], a call of [doLog] leaves it
    resolved and, apart from reading [TSS2_LOG], only uses [f]. *)
Lemma doLog_trace_resolved f loglevel module logdefault status file func line
    text w s' w' :
  resolved_to f w ->
  doLog loglevel module logdefault status file func line text w
  = Returns (s', w') ->
  resolved_to f w'
  /\ exists S,
       trace w' = trace w ++ level_events status ++ S
       /\ Forall (stream_event f) S /\ ends_flushed f S.
Proof.
  intros Hres H. apply doLog_returns in H.
  destruct H as [_ [[_ ->] | (_ & name & _ & ->)]].
  - split; [now apply resolved_to_add_events|].
    exists [].
    split; [cbn [trace add_events]; now rewrite !app_nil_r|].
    split; [constructor | now left].
  - rewrite (getLogFile_resolved f _
               (resolved_to_add_events f w (level_events status) Hres)).
    cbn [fst snd]. split; [now do 2 apply resolved_to_add_events|].
    eexists. repeat split.
    + cbn [trace add_events]. rewrite <- app_assoc. reflexivity.
    + apply message_events_stream.
    + apply message_events_flushed.
Qed.

(** ** The dump loop changes the world by its output only *)

Lemma sprintf_returns buffer off s w x w1 :
  sprintf buffer off s w = Returns (x, w1) -> w1 = w.
Proof.
  unfold sprintf. destruct (off + length s + 1 <=? LINE_LEN)%nat;
    [|discriminate].
  now intros [= _ <-].
Qed.

Lemma of_option_returns {A} (o : option A) w x w1 :
  of_option o w = Returns (x, w1) -> w1 = w.
Proof. destruct o; [|discriminate]. now intros [= _ <-]. Qed.

Ltac bind_step H a w1 E :=
  unfold bind in H;
  match type of H with
  | match ?X with _ => _ end = _ =>
      destruct X as [[a w1]| |] eqn:E; [|discriminate H..]
  end.

Lemma first_header_returns i off buffer w x w1 :
  first_header i off buffer w = Returns (x, w1) -> w1 = w.
Proof.
  unfold first_header. destruct (i =? 1).
  - intros H. bind_step H b w2 E. apply sprintf_returns in E. subst w2.
    now injection H as _ <-.
  - now intros [= _ <-].
Qed.

Lemma align_loop_returns : forall fuel x off buffer w r w1,
  align_loop fuel x off buffer w = Returns (r, w1) -> w1 = w.
Proof.
  induction fuel as [|fuel IH]; intros x off buffer w r w1 H;
    cbn [align_loop] in H; [discriminate|].
  destruct (x <? 16 * 2 + 8)%nat.
  - bind_step H b w2 E. apply sprintf_returns in E. subst w2.
    now apply IH in H.
  - now injection H as _ <-.
Qed.

Lemma ascii_loop_returns blob off2 off : forall count y buffer w r w1,
  ascii_loop count y blob off2 off buffer w = Returns (r, w1) -> w1 = w.
Proof.
  induction count as [|count IH]; intros y buffer w r w1 H;
    cbn [ascii_loop] in H.
  - now injection H as _ <-.
  - bind_step H b w2 E. apply of_option_returns in E. subst w2.
    bind_step H b2 w3 E2. apply sprintf_returns in E2. subst w3.
    now apply IH in H.
Qed.

Lemma flush_line_returns f blob i off off2 buffer w r w1 :
  resolved_to f w ->
  flush_line blob i off off2 buffer w = Returns (r, w1) ->
  exists l, w1 = add_events w [Write f (l ++ [newline]); Fflush f].
Proof.
  intros Hres H. unfold flush_line in H.
  bind_step H b1 w2 E1. apply sprintf_returns in E1. subst w2.
  bind_step H st w3 E2. apply align_loop_returns in E2. subst w3.
  destruct st as [b2 off'].
  bind_step H b3 w4 E3. apply ascii_loop_returns in E3. subst w4.
  unfold bind, lift in H. rewrite (getLogFile_resolved f w Hres) in H.
  bind_step H l w5 E4. apply of_option_returns in E4. subst w5.
  unfold bind, do_emit in H.
  bind_step H b4 w6 E5. apply sprintf_returns in E5. subst w6.
  injection H as _ <-. exists l.
  now rewrite !emit_add_events, add_events_app.
Qed.

Lemma ends_flushed_app f a b :
  ends_flushed f a -> ends_flushed f b -> ends_flushed f (a ++ b).
Proof.
  intros Ha [->|(b0 & ->)]; [now rewrite app_nil_r|].
  right. exists (a ++ b0). now rewrite app_assoc.
Qed.

Lemma dump_loop_returns f blob size : forall fuel i off off2 buffer w r w1,
  resolved_to f w ->
  dump_loop fuel blob size i off off2 buffer w = Returns (r, w1) ->
  exists S,
    w1 = add_events w S /\ Forall (stream_event f) S /\ ends_flushed f S.
Proof.
  induction fuel as [|fuel IH]; intros i off off2 buffer w r w1 Hres H;
    cbn [dump_loop] in H; [discriminate|].
  destruct (negb (i <=? size)).
  { injection H as _ <-. exists []. rewrite add_events_nil.
    repeat split; [constructor | now left]. }
  bind_step H st w2 E1. apply first_header_returns in E1. subst w2.
  destruct st as [b1 off1].
  bind_step H b w3 E2. apply of_option_returns in E2. subst w3.
  bind_step H b2 w4 E3. apply sprintf_returns in E3. subst w4.
  bind_step H st w5 E4. destruct st as [[b3 off3] off2'].
  destruct (((i mod 16 =? 0) && (i >? 1)) || (i =? size)).
  - destruct (flush_line_returns f _ _ _ _ _ _ _ _ Hres E4) as (l & ->).
    apply IH in H; [|now apply resolved_to_add_events].
    destruct H as (S & -> & HS & Hfl).
    exists ([Write f (l ++ [newline]); Fflush f] ++ S).
    rewrite add_events_app. repeat split.
    + repeat constructor. exact HS.
    + apply ends_flushed_app; [|exact Hfl].
      right. now exists [Write f (l ++ [newline])].
  - injection E4 as _ _ _ <-. now apply IH in H.
Qed.

(** ** The trace of [doLogBlob] *)

Lemma level_events_reads status : level_reads (level_events status).
Proof.
  unfold level_reads, level_events.
  destruct (status =? LOGLEVEL_UNDEFINED); repeat constructor.
Qed.

Lemma level_reads_app a b :
  level_reads a -> level_reads b -> level_reads (a ++ b).
Proof. unfold level_reads. intros Ha Hb. apply Forall_app. now split. Qed.

(** What a call of [doLogBlob] that returns has done: it has read
    [TSS2_LOG] (if the level was not cached), resolved the destination to
    a stream [f] and used [f]. *)
Lemma doLogBlob_trace fuel stack loglevel module logdefault status file func
    line blob size text w s' w' :
  doLogBlob fuel stack loglevel module logdefault status file func line
    blob size text w = Returns (s', w') ->
  s' = threshold module logdefault status w
  /\ exists f L R S,
       trace w' = trace w ++ level_events status ++ L ++ R ++ S
       /\ level_reads L /\ (s' <> LOGLEVEL_UNDEFINED -> L = [])
       /\ Forall (resolver_event f) R /\ Forall (stream_event f) S
       /\ ends_flushed f S /\ (S = [] -> R = []).
Proof.
  unfold doLogBlob, bind, lift. rewrite resolve_status_events.
  set (th := threshold module logdefault status w).
  set (w1 := add_events w (level_events status)).
  assert (Hidem : threshold module logdefault th w1 = th)
    by apply threshold_idem.
  destruct (Z.gtb_spec loglevel th) as [Hgt|Hle].
  { intros [= <- <-]. split; [reflexivity|].
    exists stderr, [], [], [].
    split; [cbn [trace add_events]; now rewrite !app_nil_r|].
    split; [constructor|]. split; [reflexivity|].
    split; [constructor|]. split; [constructor|].
    split; [now left | reflexivity]. }
  assert (Hinner : forall text2 s2 w2,
            doLog loglevel module logdefault th file func line text2 w1
            = Returns (s2, w2) ->
            s2 = th
            /\ exists name,
                 w2 = add_events
                        (snd (getLogFile (add_events w1 (level_events th))))
                        (message_events
                           (fst (getLogFile
                                   (add_events w1 (level_events th))))
                           (log_prefix name module file line func) text2)).
  { intros text2 s2 w2 H. apply doLog_returns in H.
    rewrite Hidem in H. destruct H as [-> [[Hlt _] | (_ & name & _ & ->)]];
      [lia|].
    split; [reflexivity|]. now exists name. }
  set (w1' := add_events w1 (level_events th)) in *.
  destruct (getLogFile_events w1') as (R & Htr & HR).
  pose proof (getLogFile_resolves w1') as Hres.
  assert (Hl : th <> LOGLEVEL_UNDEFINED -> level_events th = [])
    by apply level_events_resolved.
  destruct blob as [bytes|].
  - destruct (doLog loglevel module logdefault th file func line
                (to_nul (firstn LOG_MSG_MAX text) ++ cstr " (size="
                 ++ fmt_zi size ++ cstr "):") w1) as [[s2 w2]| |] eqn:E;
      [|discriminate..].
    destruct (Hinner _ _ _ E) as (-> & name & ->).
    match goal with
    | |- match dump_loop ?a ?b ?c ?d ?e ?g ?h ?x with _ => _ end = _ -> _ =>
        destruct (dump_loop a b c d e g h x) as [[u w3]| |] eqn:E2;
          [|discriminate..]
    end.
    intros [= <- <-]. split; [reflexivity|].
    apply (dump_loop_returns (fst (getLogFile w1'))) in E2;
      [|now apply resolved_to_add_events].
    destruct E2 as (S & -> & HS & Hfl).
    exists (fst (getLogFile w1')), (level_events th), R,
      (message_events (fst (getLogFile w1'))
         (log_prefix name module file line func)
         (to_nul (firstn LOG_MSG_MAX text) ++ cstr " (size="
          ++ fmt_zi size ++ cstr "):") ++ S).
    split.
    { cbn [trace add_events]. rewrite Htr.
      unfold w1', w1. cbn [trace add_events]. now rewrite <- !app_assoc. }
    split; [apply level_events_reads|]. split; [exact Hl|].
    split; [exact HR|].
    split; [apply Forall_app; split;
              [apply message_events_stream | exact HS]|].
    split; [apply ends_flushed_app;
              [apply message_events_flushed | exact Hfl]|].
    discriminate.
  - intros H. destruct (Hinner _ _ _ H) as (-> & name & ->).
    split; [reflexivity|].
    exists (fst (getLogFile w1')), (level_events th), R,
      (message_events (fst (getLogFile w1'))
         (log_prefix name module file line func)
         (to_nul (firstn LOG_MSG_MAX text) ++ cstr " (size="
          ++ fmt_zi size ++ cstr "): (null)")).
    split.
    { cbn [trace add_events]. rewrite Htr.
      unfold w1', w1. cbn [trace add_events]. now rewrite <- !app_assoc. }
    split; [apply level_events_reads|]. split; [exact Hl|].
    split; [exact HR|]. split; [apply message_events_stream|].
    split; [apply message_events_flushed | discriminate].
Qed.

(** With the destination resolved to [f], a call of [doLogBlob] leaves it
    resolved and, apart from reading [TSS2_LOG], only uses [f]. *)
Lemma doLogBlob_trace_resolved f fuel stack loglevel module logdefault status
    file func line blob size text w s' w' :
  resolved_to f w ->
  doLogBlob fuel stack loglevel module logdefault status file func line
    blob size text w = Returns (s', w') ->
  resolved_to f w'
  /\ exists L S,
       trace w' = trace w ++ L ++ S /\ level_reads L
       /\ Forall (stream_event f) S /\ ends_flushed f S.
Proof.
  intros Hres. unfold doLogBlob, bind, lift. rewrite resolve_status_events.
  set (th := threshold module logdefault status w).
  set (w1 := add_events w (level_events status)).
  assert (Hres1 : resolved_to f w1) by now apply resolved_to_add_events.
  destruct (Z.gtb_spec loglevel th) as [Hgt|Hle].
  { intros [= <- <-]. split; [exact Hres1|].
    exists (level_events status), [].
    split; [cbn [trace add_events]; now rewrite !app_nil_r|].
    split; [apply level_events_reads|]. split; [constructor | now left]. }
  destruct blob as [bytes|].
  - destruct (doLog loglevel module logdefault th file func line
                (to_nul (firstn LOG_MSG_MAX text) ++ cstr " (size="
                 ++ fmt_zi size ++ cstr "):") w1) as [[s2 w2]| |] eqn:E;
      [|discriminate..].
    destruct (doLog_trace_resolved f _ _ _ _ _ _ _ _ _ _ _ Hres1 E)
      as (Hres2 & S1 & Hev & HS1 & Hfl1).
    destruct (dump_loop fuel bytes size 1 0 0 stack w2) as [[u w3]| |] eqn:E2;
      [|discriminate..].
    intros [= <- <-].
    destruct (dump_loop_returns f _ _ _ _ _ _ _ _ _ _ Hres2 E2)
      as (S2 & -> & HS2 & Hfl2).
    split; [now apply resolved_to_add_events|].
    exists (level_events status ++ level_events th), (S1 ++ S2).
    split.
    { cbn [trace add_events]. rewrite Hev. unfold w1.
      cbn [trace add_events]. now rewrite <- !app_assoc. }
    split; [apply level_reads_app; apply level_events_reads|].
    split; [apply Forall_app; now split | now apply ends_flushed_app].
  - intros H.
    destruct (doLog_trace_resolved f _ _ _ _ _ _ _ _ _ _ _ Hres1 H)
      as (Hres2 & S1 & Hev & HS1 & Hfl1).
    split; [exact Hres2|].
    exists (level_events status ++ level_events th), S1.
    split.
    { rewrite Hev. unfold w1. cbn [trace add_events].
      now rewrite <- !app_assoc. }
    split; [apply level_reads_app; apply level_events_reads|].
    split; [exact HS1 | exact Hfl1].
Qed.

(** * Further properties of the emitters *)

Lemma level_reads_written L : level_reads L -> written L = [].
Proof.
  unfold level_reads. induction 1 as [|e L He _ IH]; [reflexivity|].
  subst e. exact IH.
Qed.

Lemma resolver_not_level_read f R :
  Forall (resolver_event f) R -> ~ In (Getenv "TSS2_LOG") R.
Proof.
  intros H Hin. rewrite Forall_forall in H. specialize (H _ Hin).
  cbn in H. discriminate.
Qed.

Lemma stream_not_level_read f S :
  Forall (stream_event f) S -> ~ In (Getenv "TSS2_LOG") S.
Proof.
  intros H Hin. rewrite Forall_forall in H. exact (H _ Hin).
Qed.

Lemma threshold_unfold module logdefault status w :
  threshold module logdefault status w
  = if status =? LOGLEVEL_UNDEFINED
    then getLogLevel (environ w "TSS2_LOG"%string) module logdefault
    else status.
Proof.
  unfold threshold, resolve_status.
  now destruct (status =? LOGLEVEL_UNDEFINED).
Qed.

(** The level of a call site is resolved on first use and cached: a call
    of [doLog] that finds the level undefined reads [TSS2_LOG] exactly
    once, as its first action, and returns what [getLogLevel] yields; a
    call of [doLog] or [doLogBlob] that finds a level returns it unchanged
    and does not read [TSS2_LOG], whatever the environment holds by
    then. *)
Theorem emitters_level_cache
    loglevel module logdefault status file func line text w :
  (forall s' w',
     doLog loglevel module logdefault status file func line text w
     = Returns (s', w') ->
     s' = (if status =? LOGLEVEL_UNDEFINED
           then getLogLevel (environ w "TSS2_LOG"%string) module logdefault
           else status)
     /\ exists evs,
          new_events w w'
          = (if status =? LOGLEVEL_UNDEFINED
             then [Getenv "TSS2_LOG"] else []) ++ evs
          /\ ~ In (Getenv "TSS2_LOG") evs)
  /\ (forall fuel stack blob size s' w',
        status <> LOGLEVEL_UNDEFINED ->
        doLogBlob fuel stack loglevel module logdefault status file func line
          blob size text w = Returns (s', w') ->
        s' = status /\ ~ In (Getenv "TSS2_LOG") (new_events w w')).
Proof.
  split.
  - intros s' w' H. split.
    + apply doLog_returns in H. destruct H as [-> _].
      apply threshold_unfold.
    + destruct (doLog_trace _ _ _ _ _ _ _ _ _ _ _ H)
        as (f & R & S & Htr & HR & HS & _).
      exists (R ++ S). split; [now apply new_events_app|].
      intros Hin. apply in_app_or in Hin. destruct Hin as [Hin|Hin].
      * exact (resolver_not_level_read f R HR Hin).
      * exact (stream_not_level_read f S HS Hin).
  - intros fuel stack blob size s' w' Hst H.
    destruct (doLogBlob_trace _ _ _ _ _ _ _ _ _ _ _ _ _ _ _ H)
      as (-> & f & L & R & S & Htr & _ & HL & HR & HS & _).
    rewrite (threshold_resolved _ _ _ _ Hst) in *.
    split; [reflexivity|].
    rewrite (level_events_resolved _ Hst), (HL Hst) in Htr.
    rewrite (new_events_app w w' _ Htr). cbn [app].
    intros Hin. apply in_app_or in Hin. destruct Hin as [Hin|Hin].
    + exact (resolver_not_level_read f R HR Hin).
    + exact (stream_not_level_read f S HS Hin).
Qed.

Lemma on_stream_level_reads f L : level_reads L -> Forall (on_stream f) L.
Proof.
  unfold level_reads. intros H. eapply Forall_impl; [|exact H].
  intros e ->. exact I.
Qed.

Lemma on_stream_resolver f R :
  Forall (resolver_event f) R -> Forall (on_stream f) R.
Proof.
  intros H. eapply Forall_impl; [|exact H].
  intros [n|p m|s l|s]; cbn; auto.
Qed.

Lemma on_stream_stream f S :
  Forall (stream_event f) S -> Forall (on_stream f) S.
Proof.
  intros H. eapply Forall_impl; [|exact H].
  intros [n|p m|s l|s]; cbn; auto.
Qed.

Lemma single_stream_shape f Lv L R S evs :
  evs = Lv ++ L ++ R ++ S ->
  level_reads Lv -> level_reads L ->
  Forall (resolver_event f) R -> Forall (stream_event f) S ->
  ends_flushed f S -> (S = [] -> R = []) ->
  Forall (on_stream f) evs
  /\ (written evs <> [] -> exists evs0, evs = evs0 ++ [Fflush f]).
Proof.
  intros -> HLv HL HR HS Hfl Hnil. split.
  - repeat (apply Forall_app; split);
      auto using on_stream_level_reads, on_stream_resolver, on_stream_stream.
  - intros Hw. destruct Hfl as [->|(S0 & ->)].
    + exfalso. apply Hw. rewrite (Hnil eq_refl), !written_app.
      now rewrite (level_reads_written _ HLv), (level_reads_written _ HL).
    + exists (Lv ++ L ++ R ++ S0). now rewrite <- !app_assoc.
Qed.

(** Everything a call writes goes to one stream, and a call that has
    written anything ends with a flush of that stream. *)
Theorem emitters_single_stream
    loglevel module logdefault status file func line text w :
  (forall s' w',
     doLog loglevel module logdefault status file func line text w
     = Returns (s', w') ->
     exists f,
       Forall (on_stream f) (new_events w w')
       /\ (written (new_events w w') <> [] ->
           exists evs0, new_events w w' = evs0 ++ [Fflush f]))
  /\ (forall fuel stack blob size s' w',
        doLogBlob fuel stack loglevel module logdefault status file func line
          blob size text w = Returns (s', w') ->
        exists f,
          Forall (on_stream f) (new_events w w')
          /\ (written (new_events w w') <> [] ->
              exists evs0, new_events w w' = evs0 ++ [Fflush f])).
Proof.
  split.
  - intros s' w' H.
    destruct (doLog_trace _ _ _ _ _ _ _ _ _ _ _ H)
      as (f & R & S & Htr & HR & HS & Hfl & _ & Hnil).
    exists f.
    apply (single_stream_shape f (level_events status) [] R S);
      try assumption;
      [ now apply new_events_app | apply level_events_reads | constructor ].
  - intros fuel stack blob size s' w' H.
    destruct (doLogBlob_trace _ _ _ _ _ _ _ _ _ _ _ _ _ _ _ H)
      as (_ & f & L & R & S & Htr & HL & _ & HR & HS & Hfl & Hnil).
    exists f.
    apply (single_stream_shape f (level_events status) L R S);
      try assumption; [now apply new_events_app | apply level_events_reads].
Qed.

(** In a build without [LOG_FILE_ENABLED] a call reads at most [TSS2_LOG]
    and writes to standard error only: [TSS2_LOGFILE] is not read and no
    file is opened. *)
Theorem emitters_without_log_file
    loglevel module logdefault status file func line text w :
  LOG_FILE_ENABLED = false ->
  (forall s' w',
     doLog loglevel module logdefault status file func line text w
     = Returns (s', w') ->
     exists L S,
       new_events w w' = L ++ S /\ level_reads L
       /\ Forall (stream_event stderr) S)
  /\ (forall fuel stack blob size s' w',
        doLogBlob fuel stack loglevel module logdefault status file func line
          blob size text w = Returns (s', w') ->
        exists L S,
          new_events w w' = L ++ S /\ level_reads L
          /\ Forall (stream_event stderr) S).
Proof.
  intros Hoff.
  assert (Hres : resolved_to stderr w)
    by (unfold resolved_to; now rewrite Hoff).
  split.
  - intros s' w' H.
    destruct (doLog_trace_resolved stderr _ _ _ _ _ _ _ _ _ _ _ Hres H)
      as (_ & S & Htr & HS & _).
    exists (level_events status), S.
    repeat split; [now apply new_events_app | apply level_events_reads
                  | exact HS].
  - intros fuel stack blob size s' w' H.
    destruct (doLogBlob_trace_resolved stderr _ _ _ _ _ _ _ _ _ _ _ _ _ _ _
                Hres H) as (_ & L & S & Htr & HL & HS & _).
    exists L, S. repeat split; [now apply new_events_app | exact HL | exact HS].
Qed.

(** The destination is resolved by the first message and kept: a call of
    [doLog] that prints a message leaves the destination resolved to the
    stream [f] it wrote to, and from a state in which the destination is
    resolved to [f] every call of [doLog] or [doLogBlob] leaves it so,
    reads at most [TSS2_LOG] and otherwise only writes to and flushes
    [f]. *)
Theorem destination_resolved_once :
  (forall loglevel module logdefault status file func line text w name,
     log_strings_at loglevel = Some name ->
     loglevel <= threshold module logdefault status w ->
     exists w' f,
       doLog loglevel module logdefault status file func line text w
       = Returns (threshold module logdefault status w, w')
       /\ In (Write f text) (new_events w w')
       /\ resolved_to f w')
  /\
  (forall f w,
     resolved_to f w ->
     (forall loglevel module logdefault status file func line text s' w',
        doLog loglevel module logdefault status file func line text w
        = Returns (s', w') ->
        resolved_to f w'
        /\ exists L S,
             new_events w w' = L ++ S /\ level_reads L
             /\ Forall (stream_event f) S)
     /\
     (forall fuel stack loglevel module logdefault status file func line
             blob size text s' w',
        doLogBlob fuel stack loglevel module logdefault status file func line
          blob size text w = Returns (s', w') ->
        resolved_to f w'
        /\ exists L S,
             new_events w w' = L ++ S /\ level_reads L
             /\ Forall (stream_event f) S)).
Proof.
  split.
  - intros loglevel module logdefault status file func line text w name
      Hname Hle.
    destruct (doLog_emits loglevel module logdefault status file func line
                text w name Hname Hle)
      as (w' & f & evs & Hrun & Htr & _ & Hres).
    exists w', f. repeat split; [exact Hrun | | exact Hres].
    rewrite (new_events_app w w' _ Htr). apply in_or_app. right.
    cbn. auto.
  - intros f w Hres. split.
    + intros loglevel module logdefault status file func line text s' w' H.
      destruct (doLog_trace_resolved f _ _ _ _ _ _ _ _ _ _ _ Hres H)
        as (Hres' & S & Htr & HS & _).
      split; [exact Hres'|].
      exists (level_events status), S.
      repeat split; [now apply new_events_app | apply level_events_reads
                    | exact HS].
    + intros fuel stack loglevel module logdefault status file func line
        blob size text s' w' H.
      destruct (doLogBlob_trace_resolved f _ _ _ _ _ _ _ _ _ _ _ _ _ _ _
                  Hres H) as (Hres' & L & S & Htr & HL & HS & _).
      split; [exact Hres'|].
      exists L, S.
      repeat split; [now apply new_events_app | exact HL | exact HS].
Qed.

Lemma log_strings_at_no_nul loglevel name :
  log_strings_at loglevel = Some name -> no_nul name = true.
Proof.
  unfold log_strings_at. destruct (loglevel <? 0); [discriminate|].
  intros H. apply nth_error_In in H.
  pose proof log_strings_no_nul as Hall. rewrite forallb_forall in Hall.
  now apply Hall.
Qed.

(** The line [doLog] prints: the level name, the module, the file, the
    line and the function, separated by colons and followed by "() ",
    then the message, a blank and a newline, with a flush at the end.  The
    prefix never has more than 1023 characters; it is cut when the names
    are longer. *)
Theorem doLog_line_format
    loglevel module logdefault status file func line text w name :
  log_strings_at loglevel = Some name ->
  loglevel <= threshold module logdefault status w ->
  (exists w' f evs,
     doLog loglevel module logdefault status file func line text w
     = Returns (threshold module logdefault status w, w')
     /\ new_events w w'
        = evs ++ [Write f (log_prefix name module file line func);
                  Write f text;
                  Write f (cstr " " ++ [newline]);
                  Fflush f]
     /\ (open_fails w = false -> written evs = []))
  /\ (length (log_prefix name module file line func) <= 1023)%nat
  /\ (no_nul module = true -> no_nul file = true -> no_nul func = true ->
      (length name + length module + length file + length (fmt_d line)
       + length func + 7 <= 1023)%nat ->
      log_prefix name module file line func
      = name ++ cstr ":" ++ module ++ cstr ":" ++ file ++ cstr ":"
        ++ fmt_d line ++ cstr ":" ++ func ++ cstr "() ").
Proof.
  intros Hname Hle. split; [|split].
  - destruct (doLog_emits loglevel module logdefault status file func line
                text w name Hname Hle)
      as (w' & f & evs & Hrun & Htr & Hw & _).
    exists w', f, evs. repeat split; [exact Hrun | | exact Hw].
    now rewrite (new_events_app w w' _ Htr).
  - unfold log_prefix. rewrite length_firstn. lia.
  - intros Hm Hf Hu Hlen. unfold log_prefix.
    rewrite (to_nul_no_nul _ (log_strings_at_no_nul _ _ Hname)),
      (to_nul_no_nul _ Hm), (to_nul_no_nul _ Hf), (to_nul_no_nul _ Hu).
    apply firstn_all2. rewrite !length_app.
    cbn [length cstr list_ascii_of_string]. lia.
Qed.

(** [TSS2_LOG] ending with the entry [all+none] silences every module: a
    call at any level above NONE, by a call site whose level is not yet
    resolved, resolves the level to NONE and writes nothing. *)
Theorem all_none_silences
    pre loglevel module logdefault file func line text w :
  environ w "TSS2_LOG"%string = Some (pre ++ cstr "all+none") ->
  no_nul pre = true -> no_nul module = true ->
  LOGLEVEL_NONE < loglevel ->
  (exists w',
     doLog loglevel module logdefault LOGLEVEL_UNDEFINED file func line text
       w = Returns (LOGLEVEL_NONE, w')
     /\ written (new_events w w') = [])
  /\ (forall fuel stack blob size,
      exists w',
        doLogBlob fuel stack loglevel module logdefault LOGLEVEL_UNDEFINED
          file func line blob size text w = Returns (LOGLEVEL_NONE, w')
        /\ written (new_events w w') = []).
Proof using LOGLEVEL_UNDEFINED_sentinel.
  intros Henv Hpre Hm Hlt.
  assert (Hth : threshold module logdefault LOGLEVEL_UNDEFINED w
                = LOGLEVEL_NONE).
  { rewrite threshold_unfold, Z.eqb_refl, Henv.
    rewrite (getLogLevel_scan _ _ _ Hm).
    replace (pre ++ cstr "all+none")
      with ((pre ++ cstr "all") ++ "+"%char :: cstr "none")
      by (rewrite <- app_assoc; reflexivity).
    rewrite scan_entry.
    - reflexivity.
    - apply no_nul_app. now split.
    - cbn [app]. unfold name_matches. now rewrite ends_ci_app_self.
    - change (log_stringlevel (cstr "none")) with 0. apply level_defined.
      lia.
    - now apply no_plus_no_match. }
  split.
  - destruct (doLog_suppressed loglevel module logdefault LOGLEVEL_UNDEFINED
                file func line text w) as (w' & evs & Hrun & -> & Hw).
    { now rewrite Hth. }
    rewrite Hth in Hrun. exists (add_events w evs). split; [exact Hrun|].
    now rewrite (new_events_app w _ evs).
  - intros fuel stack blob size.
    destruct (doLogBlob_suppressed fuel stack loglevel module logdefault
                LOGLEVEL_UNDEFINED file func line blob size text w)
      as (w' & evs & Hrun & -> & Hw).
    { now rewrite Hth. }
    rewrite Hth in Hrun. exists (add_events w evs). split; [exact Hrun|].
    now rewrite (new_events_app w _ evs).
Qed.

(** * The lines of the hex dump *)

Lemma dump_lines_unfold : forall rest offset cur,
  (length cur < 16)%nat -> rest <> [] ->
  dump_lines offset cur rest
  = dump_line offset (firstn 16 (cur ++ rest))
    :: dump_lines (offset + Z.of_nat (length (firstn 16 (cur ++ rest)))) []
         (skipn 16 (cur ++ rest)).
Proof.
  induction rest as [|b rest IH]; intros offset cur Hcur Hne;
    [contradiction|].
  cbn [dump_lines].
  replace (cur ++ b :: rest) with ((cur ++ [b]) ++ rest)
    by (rewrite <- app_assoc; reflexivity).
  assert (Hl : length (cur ++ [b]) = S (length cur))
    by (rewrite length_app; cbn; lia).
  destruct (Nat.eqb_spec (length (cur ++ [b])) 16) as [E|E]; cbn [orb].
  - rewrite firstn_app, skipn_app, E, Nat.sub_diag.
    rewrite <- E, firstn_all, skipn_all. cbn [firstn skipn app].
    now rewrite app_nil_r.
  - destruct rest as [|b' rest].
    + rewrite app_nil_r, firstn_all2, skipn_all2 by lia. reflexivity.
    + apply IH; [lia | discriminate].
Qed.

Lemma ceil_div_succ (n m : nat) :
  ((n + 15) / 16 = S m)%nat ->
  (n <> 0 /\ (n - 16 + 15) / 16 = m
   /\ (m <> 0 -> 16 < n))%nat.
Proof.
  intros H.
  pose proof (Nat.div_mod_eq (n + 15) 16) as E.
  pose proof (Nat.mod_upper_bound (n + 15) 16 ltac:(lia)) as Hm.
  rewrite H in E.
  split; [lia|]. split; [|lia].
  destruct (Nat.le_gt_cases n 16) as [Hle|Hgt].
  - replace (n - 16 + 15)%nat with 15%nat by lia.
    assert (m = 0)%nat by lia. subst m. reflexivity.
  - symmetry. apply (Nat.div_unique _ _ _ ((n + 15) mod 16)); lia.
Qed.

(** The [j]-th line of the dump shows the offset [16 j] and the up to 16
    bytes found there. *)
Lemma dump_lines_chunks : forall n offset bytes,
  ((length bytes + 15) / 16 = n)%nat ->
  dump_lines offset [] bytes
  = map (fun j => dump_line (offset + Z.of_nat (16 * j))
                    (firstn 16 (skipn (16 * j) bytes)))
        (seq 0 n).
Proof.
  induction n as [|n IH]; intros offset bytes Hn.
  - apply Nat.div_small_iff in Hn; [|lia].
    destruct bytes; [reflexivity | cbn in Hn; lia].
  - destruct (ceil_div_succ _ _ Hn) as (Hne & Hn' & Hbig).
    rewrite dump_lines_unfold;
      [ | cbn; lia | intros ->; now apply Hne ].
    cbn [app seq map]. rewrite Z.add_0_r. cbn [skipn]. f_equal.
    rewrite (IH _ (skipn 16 bytes)) by (rewrite length_skipn; exact Hn').
    rewrite <- seq_shift, map_map.
    apply map_ext_in. intros j Hj. apply in_seq in Hj.
    rewrite length_firstn, skipn_skipn.
    replace (Nat.min 16 (length bytes)) with 16%nat by lia.
    replace (16 * j + 16)%nat with (16 * S j)%nat by lia.
    f_equal. lia.
Qed.

Lemma in_line_events f l lines :
  In l lines -> In (Write f (l ++ [newline])) (line_events f lines).
Proof.
  intros H. unfold line_events. apply in_flat_map. exists l.
  split; [exact H | now left].
Qed.



(** * The offset field of a dump line *)

Lemma hex_digits_zero n : hex_digits n 0 = repeat "0"%char n.
Proof.
  induction n as [|n IH]; [reflexivity|].
  cbn [hex_digits]. change (0 / 16) with 0. rewrite IH.
  change (hex_digit (0 mod 16)) with "0"%char.
  change ("0"%char :: repeat "0"%char n) with (repeat "0"%char (S n)).
  now rewrite <- repeat_cons.
Qed.

Lemma hex_digits_split n : forall k v,
  hex_digits (k + n) v
  = hex_digits n (v / 16 ^ Z.of_nat k) ++ hex_digits k v.
Proof.
  induction k as [|k IH]; intros v.
  - cbn [Nat.add hex_digits]. change (16 ^ Z.of_nat 0) with 1.
    now rewrite Z.div_1_r, app_nil_r.
  - cbn [Nat.add hex_digits]. rewrite IH, <- app_assoc.
    rewrite Nat2Z.inj_succ, Z.pow_succ_r by lia.
    rewrite Z.div_div by lia. reflexivity.
Qed.

Lemma strip_zeros_repeat n ds :
  strip_zeros (repeat "0"%char n ++ ds) = strip_zeros ds.
Proof. induction n as [|n IH]; [reflexivity | exact IH]. Qed.

Lemma strip_zeros_pad ds :
  repeat "0"%char (length ds - length (strip_zeros ds)) ++ strip_zeros ds
  = ds.
Proof.
  induction ds as [|d ds IH]; [reflexivity|].
  cbn [strip_zeros]. destruct (Ascii.eqb_spec d "0"%char) as [->|Hd].
  - pose proof (strip_zeros_length ds).
    cbn [length].
    replace (S (length ds) - length (strip_zeros ds))%nat
      with (S (length ds - length (strip_zeros ds))) by lia.
    cbn [repeat app]. now rewrite IH.
  - now rewrite Nat.sub_diag.
Qed.

Lemma hex_digit_nonzero d :
  1 <= d <= 15 -> Ascii.eqb (hex_digit d) "0"%char = false.
Proof.
  intros H. unfold hex_digit.
  assert (Hn : (1 <= Z.to_nat d <= 15)%nat) by lia.
  destruct (Z.to_nat d) as [|n]; [lia|].
  do 15 (destruct n as [|n]; [reflexivity|]). lia.
Qed.

(** Up to [0xffff] the offset is printed with four digits. *)
Lemma fmt_x_4_digits o : 0 <= o < 65536 -> fmt_x 4 o = hex_digits 4 o.
Proof.
  intros H. unfold fmt_x. cbv zeta.
  change (hex_digits 8 o) with (hex_digits (4 + 4) o).
  rewrite (hex_digits_split 4 4 o).
  change (16 ^ Z.of_nat 4) with 65536. rewrite Z.div_small by exact H.
  rewrite hex_digits_zero, strip_zeros_repeat.
  rewrite <- (hex_digits_length 4 o) at 1. apply strip_zeros_pad.
Qed.

(** From [0x10000] to [0xfffff] it takes five. *)
Lemma fmt_x_5_digits o :
  65536 <= o < 1048576 -> fmt_x 4 o = hex_digits 5 o.
Proof.
  intros H. unfold fmt_x. cbv zeta.
  change (hex_digits 8 o) with (hex_digits (5 + 3) o).
  rewrite (hex_digits_split 3 5 o).
  change (16 ^ Z.of_nat 5) with 1048576. rewrite Z.div_small by lia.
  rewrite hex_digits_zero, strip_zeros_repeat.
  change (hex_digits 5 o) with (hex_digits (4 + 1) o).
  rewrite (hex_digits_split 1 4 o).
  change (16 ^ Z.of_nat 4) with 65536.
  change (hex_digits 1 (o / 65536)) with [hex_digit ((o / 65536) mod 16)].
  assert (Hd : 1 <= o / 65536 <= 15).
  { split.
    - apply Z.div_le_lower_bound; lia.
    - assert (o / 65536 < 16) by (apply Z.div_lt_upper_bound; lia). lia. }
  rewrite Z.mod_small by lia.
  cbn [app strip_zeros]. rewrite (hex_digit_nonzero _ Hd).
  cbn [length]. rewrite hex_digits_length. reflexivity.
Qed.

Lemma header_4_digits o :
  0 <= o < 65536 ->
  firstn 6 (fmt_x 4 o ++ cstr ": ") = hex_digits 4 o ++ cstr ": ".
Proof.
  intros H. rewrite (fmt_x_4_digits o H).
  apply firstn_all2. rewrite length_app, hex_digits_length. cbn. lia.
Qed.

Lemma header_5_digits o :
  65536 <= o < 1048576 ->
  firstn 6 (fmt_x 4 o ++ cstr ": ") = hex_digits 5 o ++ cstr ":".
Proof.
  intros H. rewrite (fmt_x_5_digits o H).
  rewrite firstn_app, hex_digits_length.
  rewrite firstn_all2 by (rewrite hex_digits_length; lia).
  reflexivity.
Qed.

(** The hex dump of a buffer of at most 64 KiB: every line starts with
    its offset in four hexadecimal digits, a colon and a blank, followed
    by the bytes in two digits each without separators, two blanks, the
    padding that a full line does not need, and the ASCII rendering. *)
Theorem doLogBlob_dump_format
    fuel stack loglevel module logdefault status file func line bytes size
    text w name :
  log_strings_at loglevel = Some name ->
  loglevel <= threshold module logdefault status w ->
  size = Z.of_nat (length bytes) -> size <= 65536 ->
  (length bytes < fuel)%nat ->
  exists w' f evs,
    doLogBlob fuel stack loglevel module logdefault status file func line
      (Some bytes) size text w
    = Returns (threshold module logdefault status w, w')
    /\ new_events w w'
       = evs
         ++ message_events f (log_prefix name module file line func)
              (blob_message text size)
         ++ line_events f
              (map (fun j =>
                      let chunk := firstn 16 (skipn (16 * j) bytes) in
                      hex_digits 4 (Z.of_nat (16 * j)) ++ cstr ": "
                      ++ hex_pairs chunk ++ cstr "  "
                      ++ repeat " "%char (32 - 2 * length chunk)
                      ++ map render chunk)
                   (seq 0 ((length bytes + 15) / 16)))
    /\ (open_fails w = false -> written evs = []).
Proof.
  intros Hname Hle Hsize Hsmall Hfuel.
  assert (Hmax : size < UINT_MAX).
  { subst size. unfold UINT_MAX. lia. }
  destruct (doLogBlob_dump fuel stack loglevel module logdefault status
              file func line bytes size text w name Hname Hle Hsize Hmax
              Hfuel)
    as (w' & f & evs & Hrun & Htr & Hw).
  exists w', f, evs. repeat split; [exact Hrun | | exact Hw].
  rewrite (new_events_app w w' _ Htr).
  rewrite (dump_lines_chunks _ 0 bytes eq_refl).
  do 3 f_equal. apply map_ext_in. intros j Hj. apply in_seq in Hj.
  assert (Hj' : (16 * j < length bytes)%nat).
  { destruct Hj as [_ Hj]. cbn [Nat.add] in Hj.
    pose proof (Nat.div_mod_eq (length bytes + 15) 16) as E.
    pose proof (Nat.mod_upper_bound (length bytes + 15) 16 ltac:(lia)).
    lia. }
  cbv zeta. unfold dump_line. rewrite Z.add_0_l.
  rewrite header_4_digits by lia. rewrite <- app_assoc.
  unfold ascii_column.
  now replace (40 - (8 + 2 * length (firstn 16 (skipn (16 * j) bytes))))%nat
    with (32 - 2 * length (firstn 16 (skipn (16 * j) bytes)))%nat by lia.
Qed.

(** Beyond 64 KiB the offset no longer fits its field: the line of the
    bytes at an offset from [0x10000] to [0xfffff] starts with five digits
    and the colon, and the first byte follows without a blank. *)
Theorem doLogBlob_dump_wide_offset
    fuel stack loglevel module logdefault status file func line bytes size
    text w name j :
  log_strings_at loglevel = Some name ->
  loglevel <= threshold module logdefault status w ->
  size = Z.of_nat (length bytes) -> size < UINT_MAX ->
  (length bytes < fuel)%nat ->
  65536 <= Z.of_nat (16 * j) < 1048576 ->
  (16 * j < length bytes)%nat ->
  exists w' f,
    doLogBlob fuel stack loglevel module logdefault status file func line
      (Some bytes) size text w
    = Returns (threshold module logdefault status w, w')
    /\ In (Write f
             ((hex_digits 5 (Z.of_nat (16 * j)) ++ cstr ":"
               ++ hex_pairs (firstn 16 (skipn (16 * j) bytes)) ++ cstr "  "
               ++ repeat " "%char
                    (32 - 2 * length (firstn 16 (skipn (16 * j) bytes)))
               ++ map render (firstn 16 (skipn (16 * j) bytes)))
              ++ [newline]))
          (new_events w w').
Proof.
  intros Hname Hle Hsize Hmax Hfuel Hoff Hj.
  destruct (doLogBlob_dump fuel stack loglevel module logdefault status
              file func line bytes size text w name Hname Hle Hsize Hmax
              Hfuel)
    as (w' & f & evs & Hrun & Htr & Hw).
  exists w', f. split; [exact Hrun|].
  rewrite (new_events_app w w' _ Htr).
  apply in_or_app. right. apply in_or_app. right.
  rewrite (dump_lines_chunks _ 0 bytes eq_refl).
  replace (hex_digits 5 (Z.of_nat (16 * j)) ++ cstr ":"
           ++ hex_pairs (firstn 16 (skipn (16 * j) bytes)) ++ cstr "  "
           ++ repeat " "%char
                (32 - 2 * length (firstn 16 (skipn (16 * j) bytes)))
           ++ map render (firstn 16 (skipn (16 * j) bytes)))
    with (dump_line (0 + Z.of_nat (16 * j))
            (firstn 16 (skipn (16 * j) bytes))).
  - apply in_line_events.
    apply (in_map (fun j => dump_line (0 + Z.of_nat (16 * j))
                              (firstn 16 (skipn (16 * j) bytes)))).
    apply in_seq. split; [lia|]. cbn [Nat.add].
    apply Nat.div_le_lower_bound; lia.
  - unfold dump_line. rewrite Z.add_0_l.
    rewrite header_5_digits by exact Hoff. rewrite <- app_assoc.
    unfold ascii_column.
    now replace
      (40 - (8 + 2 * length (firstn 16 (skipn (16 * j) bytes))))%nat
      with (32 - 2 * length (firstn 16 (skipn (16 * j) bytes)))%nat by lia.
Qed.

(** * Arguments outside the domain of the emitters *)

Lemma bind_returns {A B} (m : M A) (k : A -> M B) w x :
  bind m k w = Returns x ->
  exists a w1, m w = Returns (a, w1) /\ k a w1 = Returns x.
Proof.
  unfold bind. destruct (m w) as [[a w1]| |]; try discriminate.
  intros H. now exists a, w1.
Qed.

Lemma log_strings_at_None loglevel :
  ~ (0 <= loglevel <= 6) -> log_strings_at loglevel = None.
Proof.
  intros H. unfold log_strings_at.
  destruct (Z.ltb_spec loglevel 0); [reflexivity|].
  apply nth_error_None. change (length log_strings) with 7%nat. lia.
Qed.

Lemma doLog_out_of_table loglevel module logdefault status file func line
    text w :
  ~ (0 <= loglevel <= 6) ->
  loglevel <= threshold module logdefault status w ->
  doLog loglevel module logdefault status file func line text w = Undefined.
Proof.
  intros Hout Hle. unfold doLog, bind, lift.
  rewrite resolve_status_events.
  destruct (Z.gtb_spec loglevel (threshold module logdefault status w));
    [lia|].
  now rewrite (log_strings_at_None _ Hout).
Qed.

(** The message level indexes the table of level names unchecked: a call
    whose level lies beyond the last entry of [log_strings] and is not
    above the threshold (which takes a cached or default level beyond the
    table as well) reads outside [log_strings]. *)
Theorem emitters_level_out_of_table
    loglevel module logdefault status file func line text w :
  6 < loglevel ->
  loglevel <= threshold module logdefault status w ->
  doLog loglevel module logdefault status file func line text w = Undefined
  /\ (forall fuel stack blob size,
        doLogBlob fuel stack loglevel module logdefault status file func
          line blob size text w = Undefined).
Proof.
  intros Hout Hle.
  assert (Hout' : ~ (0 <= loglevel <= 6)) by lia.
  split; [now apply doLog_out_of_table|].
  intros fuel stack blob size. unfold doLogBlob, bind, lift.
  rewrite resolve_status_events.
  destruct (Z.gtb_spec loglevel (threshold module logdefault status w));
    [lia|].
  destruct blob as [blob|]; rewrite doLog_out_of_table; try reflexivity;
    try exact Hout'; now rewrite threshold_idem.
Qed.

Lemma dump_loop_never_returns blob size :
  UINT_MAX <= size ->
  forall fuel i off off2 buffer w x,
    0 <= i < 2 ^ 32 ->
    dump_loop fuel blob size i off off2 buffer w <> Returns x.
Proof.
  intros Hsize. induction fuel as [|fuel IH];
    intros i off off2 buffer w x Hi; [discriminate|].
  cbn [dump_loop].
  replace (i <=? size) with true
    by (symmetry; apply Z.leb_le; unfold UINT_MAX in Hsize; lia).
  cbn [negb]. intros H.
  apply bind_returns in H as ([buf1 off1] & w1 & _ & H).
  apply bind_returns in H as (b & w2 & _ & H).
  apply bind_returns in H as (buf2 & w3 & _ & H).
  apply bind_returns in H as ([[buf3 off3] off23] & w4 & _ & H).
  revert H. apply IH. unfold uint. apply Z.mod_pos_bound. lia.
Qed.

(** The loop counter of the dump is an [unsigned int] compared with a
    [size_t]: with a buffer of [UINT_MAX] bytes or more the test
    [i <= size] never fails, and a call that is not suppressed does not
    return, whatever the number of iterations it is given. *)
Theorem doLogBlob_size_beyond_uint
    fuel stack loglevel module logdefault status file func line blob size
    text w :
  loglevel <= threshold module logdefault status w ->
  UINT_MAX <= size ->
  forall x,
    doLogBlob fuel stack loglevel module logdefault status file func line
      (Some blob) size text w <> Returns x.
Proof.
  intros Hle Hsize x. unfold doLogBlob. intros H.
  apply bind_returns in H as (s & w1 & Hs & H).
  unfold lift in Hs. rewrite resolve_status_events in Hs.
  injection Hs as <- <-.
  destruct (Z.gtb_spec loglevel (threshold module logdefault status w));
    [lia|].
  apply bind_returns in H as (s2 & w2 & _ & H).
  apply bind_returns in H as (u & w3 & H & _).
  revert H. apply dump_loop_never_returns; [exact Hsize | lia].
Qed.

(** * The configuration, entry by entry *)

Lemma scan_last_entry module tok :
  no_plus tok = true ->
  forall r pre loglevel,
    no_nul r = true ->
    scan module pre (r ++ "+"%char :: tok) loglevel
    = if name_matches module (pre ++ r)
      then entry_level tok (scan module pre r loglevel)
      else scan module pre r loglevel.
Proof.
  intros Hp. induction r as [|c r IH]; intros pre loglevel Hn.
  - cbn [app scan]. change (Ascii.eqb "+" NUL) with false. cbn iota.
    rewrite scan_no_match by now apply no_plus_no_match.
    rewrite app_nil_r. change (Ascii.eqb "+" "+") with true.
    reflexivity.
  - apply no_nul_cons in Hn. destruct Hn as [Hc Hn].
    cbn [app scan]. rewrite (eqb_NUL_false _ Hc).
    rewrite (IH _ _ Hn). rewrite <- app_assoc. cbn [app].
    replace (entry_level (r ++ "+"%char :: tok) loglevel)
      with (entry_level r loglevel)
      by (unfold entry_level; now rewrite log_stringlevel_app_plus).
    reflexivity.
Qed.

(** Claim C5.  Of the entries for a module the later one wins.  An entry
    [m+tok] appended to any configuration decides the level of [m] when
    [tok] names a level, whatever the earlier entries say; an appended
    entry whose name is neither that of [m] nor "all" leaves the level of
    [m] as the earlier entries set it.  So of two entries [m+a,m+b] with
    level names [a] and [b] the second decides, in whatever order the
    levels come: the configuration [m+ERROR,m+TRACE] resolves the level of
    [m] to TRACE, and [m+TRACE,m+ERROR] resolves it to ERROR. *)
Theorem getLogLevel_later_entry_wins :
  (forall env m tok logdefault,
     no_nul env = true -> no_nul m = true -> no_plus tok = true ->
     log_stringlevel tok <> LOGLEVEL_UNDEFINED ->
     getLogLevel (Some (env ++ m ++ "+"%char :: tok)) m logdefault
     = log_stringlevel tok)
  /\ (forall env m tok logdefault,
        no_nul env = true -> no_nul m = true -> no_plus tok = true ->
        name_matches m env = false ->
        getLogLevel (Some (env ++ "+"%char :: tok)) m logdefault
        = getLogLevel (Some env) m logdefault)
  /\ (forall m i j a b logdefault,
        no_nul m = true ->
        nth_error log_strings i = Some a ->
        nth_error log_strings j = Some b ->
        getLogLevel
          (Some ((m ++ "+"%char :: a ++ cstr ",") ++ m ++ "+"%char :: b))
          m logdefault
        = Z.of_nat j)
  /\ (forall m logdefault,
        no_nul m = true ->
        getLogLevel (Some (m ++ cstr "+ERROR," ++ m ++ cstr "+TRACE")) m
          logdefault = LOGLEVEL_TRACE
        /\ getLogLevel (Some (m ++ cstr "+TRACE," ++ m ++ cstr "+ERROR")) m
             logdefault = LOGLEVEL_ERROR).
Proof using LOGLEVEL_UNDEFINED_sentinel.
  assert (G : forall env m tok logdefault,
     no_nul env = true -> no_nul m = true -> no_plus tok = true ->
     log_stringlevel tok <> LOGLEVEL_UNDEFINED ->
     getLogLevel (Some (env ++ m ++ "+"%char :: tok)) m logdefault
     = log_stringlevel tok).
  { intros env m tok d He Hm Hp Hl.
    rewrite (getLogLevel_scan _ _ _ Hm), app_assoc.
    rewrite (scan_last_entry m tok Hp (env ++ m) [] d)
      by (apply no_nul_app; now split).
    cbn [app]. rewrite name_matches_self. now apply entry_level_known. }
  split; [exact G|]. split; [|split].
  - intros env m tok d He Hm Hp Hno.
    rewrite !(getLogLevel_scan _ _ _ Hm).
    rewrite (scan_last_entry m tok Hp env [] d He). cbn [app].
    now rewrite Hno.
  - intros m i j a b d Hm Hi Hj.
    pose proof log_strings_no_nul as Hnn.
    pose proof log_strings_no_plus as Hnp.
    rewrite forallb_forall in Hnn, Hnp.
    pose proof (Hnn a (nth_error_In _ _ Hi)) as Ha.
    pose proof (Hnp b (nth_error_In _ _ Hj)) as Hb.
    assert (Hl : log_stringlevel b = Z.of_nat j).
    { apply (log_stringlevel_hit b j b Hj).
      unfold starts_ci. now rewrite firstn_all. }
    rewrite G; [exact Hl | | exact Hm | exact Hb |].
    + apply no_nul_app. split; [exact Hm|].
      apply no_nul_cons. split; [discriminate|].
      apply no_nul_app. now split.
    + rewrite Hl. apply level_defined.
      assert (j < length log_strings)%nat
        by (apply nth_error_Some; congruence).
      change (length log_strings) with 7%nat in *. lia.
  - intros m d Hm. split.
    + replace (m ++ cstr "+ERROR," ++ m ++ cstr "+TRACE")
        with ((m ++ cstr "+ERROR,") ++ m ++ "+"%char :: cstr "TRACE")
        by (rewrite <- app_assoc; reflexivity).
      rewrite G; [reflexivity | | exact Hm | reflexivity |].
      * apply no_nul_app. now split.
      * change (log_stringlevel (cstr "TRACE")) with 6.
        apply level_defined. lia.
    + replace (m ++ cstr "+TRACE," ++ m ++ cstr "+ERROR")
        with ((m ++ cstr "+TRACE,") ++ m ++ "+"%char :: cstr "ERROR")
        by (rewrite <- app_assoc; reflexivity).
      rewrite G; [reflexivity | | exact Hm | reflexivity |].
      * apply no_nul_app. now split.
      * change (log_stringlevel (cstr "ERROR")) with 2.
        apply level_defined. lia.
Qed.

(** [TSS2_LOG] is read entry by entry.  With the entry [+tok] appended to
    a value [env], the level of a module is the one [tok] names if [env]
    ends, up to case, with "all" or with the module name and [tok] starts
    with a level name; otherwise it is the level that [env] alone
    gives. *)
Theorem getLogLevel_last_entry env tok module logdefault :
  no_nul env = true -> no_nul module = true -> no_plus tok = true ->
  getLogLevel (Some (env ++ "+"%char :: tok)) module logdefault
  = if name_matches module env
       && negb (log_stringlevel tok =? LOGLEVEL_UNDEFINED)
    then log_stringlevel tok
    else getLogLevel (Some env) module logdefault.
Proof.
  intros Hn Hm Hp. rewrite !(getLogLevel_scan _ _ _ Hm).
  rewrite (scan_last_entry module tok Hp env [] logdefault Hn).
  cbn [app]. unfold entry_level.
  destruct (name_matches module env); [|reflexivity].
  now destruct (log_stringlevel tok =? LOGLEVEL_UNDEFINED).
Qed.

(** * A log file that cannot be opened *)

Lemma getLogFile_open_failure w path err :
  LOG_FILE_ENABLED = true ->
  logfile_static w = None ->
  destination_of (environ w "TSS2_LOGFILE"%string) = To_path path ->
  fopen_error w path = Some err ->
  fst (getLogFile w) = stderr
  /\ logfile_static (snd (getLogFile w)) = Some stderr
  /\ trace (snd (getLogFile w))
     = trace w ++ [Getenv "TSS2_LOGFILE"; Fopen path "a+";
                   Write stderr (open_diagnostic path err); Fflush stderr].
Proof.
  intros Hen Hst Hdest Herr. unfold getLogFile. rewrite Hen, Hst.
  cbn [environ emit].
  destruct (environ w "TSS2_LOGFILE"%string) as [envpath|];
    [|discriminate].
  rewrite getLogFile_tests in Hdest.
  destruct (case_insensitive_strncmp (Some envpath) (Some (cstr "stderr")) 7
            =? 0); [discriminate|].
  destruct ((strcmp envpath (cstr "-") =? 0)
            || (case_insensitive_strncmp
                  (Some envpath) (Some (cstr "stdout")) 7 =? 0));
    [discriminate|].
  injection Hdest as <-.
  cbn [fopen_error emit]. rewrite Herr.
  cbn [fst snd logfile_static set_logfile emit trace].
  repeat split. unfold open_diagnostic. now rewrite <- !app_assoc.
Qed.

(** When the file named by [TSS2_LOGFILE] cannot be opened, the message
    of the call that finds this out is not lost: the call reports the
    failure on standard error, prints its message there, and leaves
    standard error as the destination of the process. *)
Theorem doLog_open_failure
    loglevel module logdefault status file func line text w name path err :
  LOG_FILE_ENABLED = true ->
  logfile_static w = None ->
  destination_of (environ w "TSS2_LOGFILE"%string) = To_path path ->
  fopen_error w path = Some err ->
  log_strings_at loglevel = Some name ->
  loglevel <= threshold module logdefault status w ->
  exists w',
    doLog loglevel module logdefault status file func line text w
    = Returns (threshold module logdefault status w, w')
    /\ new_events w w'
       = (if status =? LOGLEVEL_UNDEFINED then [Getenv "TSS2_LOG"] else [])
         ++ [Getenv "TSS2_LOGFILE"; Fopen path "a+";
             Write stderr (open_diagnostic path err); Fflush stderr]
         ++ message_events stderr (log_prefix name module file line func)
              text
    /\ logfile_static w' = Some stderr.
Proof.
  intros Hen Hst Hdest Herr Hname Hle.
  destruct (doLog_emits loglevel module logdefault status file func line
              text w name Hname Hle) as (w' & f & evs & Hrun & _).
  exists w'. split; [exact Hrun|].
  destruct (doLog_returns _ _ _ _ _ _ _ _ _ _ _ Hrun) as (_ & [[Hlt _]|H]);
    [lia|].
  destruct H as (_ & name' & Hname' & ->).
  rewrite Hname in Hname'. injection Hname' as <-.
  destruct (getLogFile_open_failure
              (add_events w (level_events status)) path err Hen Hst Hdest
              Herr) as (-> & Hs & Htr).
  split; [|exact Hs].
  apply new_events_app. cbn [trace add_events]. rewrite Htr.
  cbn [trace add_events]. now rewrite <- !app_assoc.
Qed.

(** * The memory that the dump reads *)

Lemma returns_also_refl {A} (m : M A) : returns_also m m.
Proof. now intros w x H. Qed.

Lemma returns_also_bind {A B} (m m' : M A) (k k' : A -> M B) :
  returns_also m m' -> (forall a, returns_also (k a) (k' a)) ->
  returns_also (bind m k) (bind m' k').
Proof.
  intros Hm Hk w x H.
  apply bind_returns in H as (a & w1 & H1 & H2).
  unfold bind. rewrite (Hm _ _ H1). now apply Hk.
Qed.

Lemma returns_also_nth_error (blob more : list Byte.byte) n :
  returns_also (of_option (nth_error blob n))
               (of_option (nth_error (blob ++ more) n)).
Proof.
  intros w x. destruct (nth_error blob n) as [b|] eqn:E; [|discriminate].
  rewrite nth_error_app1 by (apply nth_error_Some; congruence).
  now rewrite E.
Qed.

Lemma ascii_loop_extend blob more off2 off : forall count y buffer,
  returns_also (ascii_loop count y blob off2 off buffer)
               (ascii_loop count y (blob ++ more) off2 off buffer).
Proof.
  induction count as [|count IH]; intros y buffer; cbn [ascii_loop];
    [apply returns_also_refl|].
  apply returns_also_bind; [apply returns_also_nth_error|]. intros b.
  apply returns_also_bind; [apply returns_also_refl|]. intros buf.
  apply IH.
Qed.

Lemma flush_line_extend blob more i off off2 buffer :
  returns_also (flush_line blob i off off2 buffer)
               (flush_line (blob ++ more) i off off2 buffer).
Proof.
  unfold flush_line.
  apply returns_also_bind; [apply returns_also_refl|]. intros buf.
  cbv zeta.
  apply returns_also_bind; [apply returns_also_refl|]. intros [buf1 off1].
  apply returns_also_bind; [apply ascii_loop_extend|]. intros buf2.
  apply returns_also_refl.
Qed.

Lemma dump_loop_extend blob more size : forall fuel i off off2 buffer,
  returns_also (dump_loop fuel blob size i off off2 buffer)
               (dump_loop fuel (blob ++ more) size i off off2 buffer).
Proof.
  induction fuel as [|fuel IH]; intros i off off2 buffer; cbn [dump_loop];
    [apply returns_also_refl|].
  destruct (negb (i <=? size)); [apply returns_also_refl|].
  apply returns_also_bind; [apply returns_also_refl|]. intros [buf1 off1].
  apply returns_also_bind; [apply returns_also_nth_error|]. intros b.
  apply returns_also_bind; [apply returns_also_refl|]. intros buf2.
  cbv zeta.
  apply returns_also_bind.
  - destruct ((i mod 16 =? 0) && (i >? 1) || (i =? size));
      [apply flush_line_extend | apply returns_also_refl].
  - intros [[buf3 off3] off23]. apply IH.
Qed.

Lemma doLogBlob_extend fuel stack loglevel module logdefault status file
    func line blob more size text :
  returns_also
    (doLogBlob fuel stack loglevel module logdefault status file func line
       (Some blob) size text)
    (doLogBlob fuel stack loglevel module logdefault status file func line
       (Some (blob ++ more)) size text).
Proof.
  unfold doLogBlob.
  apply returns_also_bind; [apply returns_also_refl|]. intros s.
  destruct (loglevel >? s); [apply returns_also_refl|].
  apply returns_also_bind; [apply returns_also_refl|]. intros s2.
  apply returns_also_bind; [apply dump_loop_extend|]. intros u.
  apply returns_also_refl.
Qed.

Lemma doLog_no_name loglevel module logdefault status file func line
    text w :
  log_strings_at loglevel = None ->
  loglevel <= threshold module logdefault status w ->
  doLog loglevel module logdefault status file func line text w = Undefined.
Proof.
  intros Hnone Hle. unfold doLog, bind, lift.
  rewrite resolve_status_events.
  destruct (Z.gtb_spec loglevel (threshold module logdefault status w));
    [lia|].
  now rewrite Hnone.
Qed.

(** [doLogBlob] reads the [size] bytes it is given and nothing else:
    whatever follows them in memory, the call behaves the same, so for a
    size below [UINT_MAX] no byte beyond [blob[size - 1]] is accessed. *)
Theorem doLogBlob_reads_within_size
    fuel stack loglevel module logdefault status file func line bytes more
    size text w :
  size = Z.of_nat (length bytes) -> size < UINT_MAX ->
  (length bytes < fuel)%nat ->
  doLogBlob fuel stack loglevel module logdefault status file func line
    (Some (bytes ++ more)) size text w
  = doLogBlob fuel stack loglevel module logdefault status file func line
      (Some bytes) size text w.
Proof.
  intros Hsize Hmax Hfuel.
  destruct (Z.gtb_spec loglevel (threshold module logdefault status w))
    as [Hgt|Hle].
  - unfold doLogBlob, bind, lift. rewrite resolve_status_events.
    apply Z.gtb_lt in Hgt. now rewrite Hgt.
  - destruct (log_strings_at loglevel) as [name|] eqn:Hname.
    + destruct (doLogBlob_dump fuel stack loglevel module logdefault status
                  file func line bytes size text w name Hname Hle Hsize
                  Hmax Hfuel) as (w' & f & evs & Hrun & _).
      rewrite Hrun. now apply doLogBlob_extend.
    + unfold doLogBlob, bind, lift. rewrite resolve_status_events.
      destruct (Z.gtb_spec loglevel
                  (threshold module logdefault status w)); [lia|].
      rewrite !doLog_no_name; try reflexivity; try exact Hname;
        now rewrite threshold_idem.
Qed.

End Logger.

(** * The properties at sample inputs

    The sentinel is instantiated with 0xff and the build is the one with
    [LOG_FILE_ENABLED]. *)

Lemma getLogLevel_entry_debug_witness :
  no_match (cstr "sys") (cstr "all+ERROR," ++ cstr "sys" ++ cstr "+DEBUG")
    (cstr ",tcti+TRACE") = true
  /\ getLogLevel 255
       (Some (cstr "all+ERROR," ++ cstr "sys" ++ cstr "+DEBUG"
              ++ cstr ",tcti+TRACE"))
       (cstr "sys") LOGLEVEL_NONE = LOGLEVEL_DEBUG.
Proof.
  split; [reflexivity|].
  apply (getLogLevel_entry_debug 255); [lia | reflexivity ..].
Defined.

(** The claim C2 as stated fails: behind the entry [sys+DEBUG] the entry of
    another module, [esys+ERROR], sets the level of [sys]. *)
Lemma getLogLevel_entry_debug_counterexample :
  getLogLevel 255 (Some (cstr "sys+DEBUG" ++ cstr ",esys+ERROR"))
    (cstr "sys") LOGLEVEL_NONE = LOGLEVEL_ERROR
  /\ LOGLEVEL_ERROR <> LOGLEVEL_DEBUG.
Proof. split; [reflexivity | discriminate]. Qed.

Lemma getLogLevel_all_warning_moduleX_witness :
  no_nul (cstr "tcti") = true
  /\ getLogLevel 255 (Some (cstr "all+WARNING,moduleX+TRACE")) (cstr "tcti")
       LOGLEVEL_NONE = LOGLEVEL_WARNING.
Proof.
  split; [reflexivity|].
  apply (proj2 (getLogLevel_all_warning_moduleX 255 ltac:(lia)) (cstr "tcti")).
  reflexivity.
Defined.

(** The claim C3 as stated fails: the module [X] is not [moduleX], and its
    level resolves to TRACE, not to WARNING. *)
Lemma getLogLevel_all_warning_moduleX_counterexample :
  cstr "X" <> cstr "moduleX"
  /\ getLogLevel 255 (Some (cstr "all+WARNING,moduleX+TRACE")) (cstr "X")
       LOGLEVEL_NONE = LOGLEVEL_TRACE
  /\ LOGLEVEL_TRACE <> LOGLEVEL_WARNING.
Proof. repeat split; [discriminate | discriminate]. Qed.

Lemma getLogLevel_later_entry_wins_witness :
  no_nul (cstr "esys") = true
  /\ getLogLevel 255
       (Some (cstr "esys" ++ cstr "+ERROR," ++ cstr "esys" ++ cstr "+TRACE"))
       (cstr "esys") LOGLEVEL_NONE = LOGLEVEL_TRACE
  /\ getLogLevel 255
       (Some (cstr "esys" ++ cstr "+TRACE," ++ cstr "esys" ++ cstr "+ERROR"))
       (cstr "esys") LOGLEVEL_NONE = LOGLEVEL_ERROR
  /\ name_matches (cstr "esys") (cstr "esys+ERROR,tcti") = false
  /\ getLogLevel 255
       (Some (cstr "esys+ERROR,tcti" ++ "+"%char :: cstr "TRACE"))
       (cstr "esys") LOGLEVEL_NONE
     = getLogLevel 255 (Some (cstr "esys+ERROR,tcti")) (cstr "esys")
         LOGLEVEL_NONE.
Proof.
  split; [reflexivity|].
  split;
    [exact (proj1 (proj2 (proj2 (proj2
              (getLogLevel_later_entry_wins 255 ltac:(lia))))
              (cstr "esys") LOGLEVEL_NONE eq_refl))|].
  split;
    [exact (proj2 (proj2 (proj2 (proj2
              (getLogLevel_later_entry_wins 255 ltac:(lia))))
              (cstr "esys") LOGLEVEL_NONE eq_refl))|].
  split; [reflexivity|].
  exact (proj1 (proj2 (getLogLevel_later_entry_wins 255 ltac:(lia)))
           (cstr "esys+ERROR,tcti") (cstr "esys") (cstr "TRACE")
           LOGLEVEL_NONE eq_refl eq_refl eq_refl eq_refl).
Defined.

Lemma getLogLevel_default_retained_witness :
  getLogLevel 255 (Some (cstr "tcti+TRACE,fapi+DEBUG")) (cstr "sys")
    LOGLEVEL_WARNING = LOGLEVEL_WARNING
  /\ getLogLevel 255 (Some (cstr "sys+ERROR,sys" ++ "+"%char :: cstr "bogus"))
       (cstr "sys") LOGLEVEL_WARNING
     = getLogLevel 255 (Some (cstr "sys+ERROR,sys")) (cstr "sys")
         LOGLEVEL_WARNING.
Proof.
  split.
  - apply (proj1 (proj2 (getLogLevel_default_retained 255))); reflexivity.
  - apply (proj1 (proj2 (proj2 (getLogLevel_default_retained 255))));
      reflexivity.
Defined.

Lemma log_stringlevel_prefix_match_witness :
  starts_ci (cstr "TRACEall") (cstr "trace")
  /\ log_stringlevel 255 (cstr "TRACEall") = LOGLEVEL_TRACE
  /\ log_stringlevel 255 (cstr "dog") = 255
  /\ ~ starts_ci (cstr "dog") (cstr "debug").
Proof.
  split; [reflexivity|].
  split;
    [exact (proj1 (proj1 (log_stringlevel_prefix_match 255 ltac:(lia))
                     6%nat (cstr "trace") (cstr "TRACEall") eq_refl)
              eq_refl)|].
  split; [reflexivity|].
  apply (proj1 (proj1 (proj2 (log_stringlevel_prefix_match 255 ltac:(lia)))
                  (cstr "dog")) eq_refl (cstr "debug")).
  vm_compute. tauto.
Defined.

Lemma getLogLevel_all_suffix_wildcard_witness :
  ends_ci (cstr "firewALL") (cstr "all") = true
  /\ getLogLevel 255 (Some (cstr "firewALL" ++ "+"%char :: cstr "info"))
       (cstr "tcti") LOGLEVEL_NONE = LOGLEVEL_INFO.
Proof.
  split; [reflexivity|].
  apply (proj1 (getLogLevel_all_suffix_wildcard 255 ltac:(lia))
           (cstr "firewALL") (cstr "info") (cstr "tcti") LOGLEVEL_NONE);
    try reflexivity.
  vm_compute. discriminate.
Defined.

Lemma getLogFile_resolution_witness :
  fst (getLogFile true (sample_world_logfile (cstr "StdOut"))) = stdout
  /\ fst (getLogFile true sample_world_unwritable) = stderr
  /\ written (trace (snd (getLogFile true sample_world_unwritable)))
     = open_diagnostic (cstr "/nonexistent/tss.log")
         (cstr "No such file or directory").
Proof.
  pose proof (getLogFile_resolution true
                (sample_world_logfile (cstr "StdOut")) eq_refl) as H1.
  pose proof (getLogFile_resolution true sample_world_unwritable eq_refl)
    as H2.
  cbv zeta in H1, H2.
  destruct H1 as (_ & _ & H1). destruct H2 as (_ & _ & H2).
  specialize (H1 eq_refl). specialize (H2 eq_refl).
  split; [exact (proj1 H1)|]. split; [exact (proj1 H2)|].
  reflexivity.
Defined.

Lemma emitters_line_count_witness :
  (exists w',
     doLog 255 true LOGLEVEL_ERROR (cstr "tcti") LOGLEVEL_WARNING 255
       (cstr "tcti.c") (cstr "init") 42 (cstr "failed") sample_world
     = Returns (LOGLEVEL_WARNING, w')
     /\ count_lines (written (new_events sample_world w')) = 1%nat)
  /\ (exists w',
        doLogBlob 255 true 18 memset_zero LOGLEVEL_ERROR (cstr "tcti")
          LOGLEVEL_WARNING 255 (cstr "tcti.c") (cstr "init") 42
          (Some sample_blob) 17 (cstr "response") sample_world
        = Returns (LOGLEVEL_WARNING, w')
        /\ count_lines (written (new_events sample_world w')) = 3%nat).
Proof.
  destruct (proj2 (emitters_line_count 255 true LOGLEVEL_ERROR (cstr "tcti")
                     LOGLEVEL_WARNING 255 (cstr "tcti.c") (cstr "init") 42
                     (cstr "failed") sample_world))
    as [H1 _]; try reflexivity.
  { unfold LOGLEVEL_ERROR. lia. }
  { discriminate. }
  destruct (proj2 (emitters_line_count 255 true LOGLEVEL_ERROR (cstr "tcti")
                     LOGLEVEL_WARNING 255 (cstr "tcti.c") (cstr "init") 42
                     (cstr "response") sample_world))
    as [_ H2]; try reflexivity.
  { unfold LOGLEVEL_ERROR. lia. }
  { discriminate. }
  split; [exact H1|].
  apply (H2 18%nat memset_zero sample_blob 17); [reflexivity | reflexivity|].
  cbn. lia.
Defined.

(** The claim C1 as stated fails: the first call of a process whose log
    file cannot be opened writes two lines, the diagnostic of
    [getLogFile] and the message. *)
Lemma emitters_line_count_counterexample :
  exists w',
    doLog 255 true LOGLEVEL_ERROR (cstr "tcti") LOGLEVEL_WARNING
      LOGLEVEL_WARNING (cstr "tcti.c") (cstr "init") 42 (cstr "failed")
      sample_world_unwritable
    = Returns (LOGLEVEL_WARNING, w')
    /\ LOGLEVEL_ERROR <= LOGLEVEL_WARNING
    /\ count_lines (written (new_events sample_world_unwritable w')) = 2%nat.
Proof.
  eexists. split; [vm_compute; reflexivity|].
  split; [discriminate | vm_compute; reflexivity].
Qed.

(** A formatted message with a newline in it makes two lines of one
    message: the condition of [emitters_line_count] on the message cannot
    be dropped. *)
Lemma doLog_multiline_message :
  exists w',
    doLog 255 true LOGLEVEL_ERROR (cstr "tcti") LOGLEVEL_WARNING
      LOGLEVEL_WARNING (cstr "tcti.c") (cstr "init") 42
      (cstr "first" ++ [newline] ++ cstr "second") sample_world
    = Returns (LOGLEVEL_WARNING, w')
    /\ count_lines (written (new_events sample_world w')) = 2%nat.
Proof.
  eexists. split; vm_compute; reflexivity.
Qed.

Lemma doLogBlob_null_buffer_witness :
  exists w' f evs,
    doLogBlob 255 true 0 memset_zero LOGLEVEL_ERROR (cstr "tcti")
      LOGLEVEL_WARNING 255 (cstr "tcti.c") (cstr "init") 42 None 17
      (cstr "response") sample_world
    = Returns (LOGLEVEL_WARNING, w')
    /\ new_events sample_world w'
       = evs
         ++ [Write f (cstr "ERROR:tcti:tcti.c:42:init() ");
             Write f (cstr "response (size=17): (null)");
             Write f (cstr " " ++ [newline]);
             Fflush f]
    /\ written evs = []
    /\ written (new_events sample_world w')
       = cstr "ERROR:tcti:tcti.c:42:init() response (size=17): (null) "
         ++ [newline]
    /\ count_lines (written (new_events sample_world w')) = 1%nat.
Proof.
  destruct (proj2 (doLogBlob_null_buffer 255 true 0 memset_zero
                     LOGLEVEL_ERROR (cstr "tcti") LOGLEVEL_WARNING 255
                     (cstr "tcti.c") (cstr "init") 42 17 (cstr "response")
                     sample_world)
              (cstr "ERROR") eq_refl ltac:(discriminate) eq_refl
              ltac:(lia))
    as (w' & f & evs & Hrun & Hev & Hw & Hall & Hone & _).
  exists w', f, evs.
  split; [exact Hrun|]. split; [exact Hev|]. split; [exact Hw|].
  split; [exact Hall|]. apply Hone; reflexivity.
Defined.

(** The claim C9 as stated fails.  A call with a NULL buffer that finds
    that the log file cannot be opened writes two lines, the report of
    [getLogFile] and the message; a formatted message that contains a
    newline makes two lines of the one message; and for the size 2^64 - 1
    the message shows the size -1. *)
Lemma doLogBlob_null_buffer_counterexample :
  (exists w',
     doLogBlob 255 true 0 memset_zero LOGLEVEL_ERROR (cstr "tcti")
       LOGLEVEL_WARNING LOGLEVEL_WARNING (cstr "tcti.c") (cstr "init") 42
       None 17 (cstr "response") sample_world_unwritable
     = Returns (LOGLEVEL_WARNING, w')
     /\ LOGLEVEL_ERROR <= LOGLEVEL_WARNING
     /\ count_lines (written (new_events sample_world_unwritable w'))
        = 2%nat)
  /\ (exists w',
        doLogBlob 255 true 0 memset_zero LOGLEVEL_ERROR (cstr "tcti")
          LOGLEVEL_WARNING LOGLEVEL_WARNING (cstr "tcti.c") (cstr "init")
          42 None 17 (cstr "first" ++ [newline] ++ cstr "second")
          sample_world
        = Returns (LOGLEVEL_WARNING, w')
        /\ count_lines (written (new_events sample_world w')) = 2%nat)
  /\ (exists w',
        doLogBlob 255 true 0 memset_zero LOGLEVEL_ERROR (cstr "tcti")
          LOGLEVEL_WARNING LOGLEVEL_WARNING (cstr "tcti.c") (cstr "init")
          42 None (2 ^ 64 - 1) (cstr "response") sample_world
        = Returns (LOGLEVEL_WARNING, w')
        /\ written (new_events sample_world w')
           = cstr "ERROR:tcti:tcti.c:42:init() response (size=-1): (null) "
             ++ [newline]).
Proof.
  split; [|split].
  - eexists. split; [vm_compute; reflexivity|].
    split; [discriminate | vm_compute; reflexivity].
  - eexists. split; vm_compute; reflexivity.
  - eexists. split; vm_compute; reflexivity.
Qed.

Lemma doLogBlob_17_bytes_witness :
  exists w' f evs,
    doLogBlob 255 true 18 memset_zero LOGLEVEL_ERROR (cstr "tcti")
      LOGLEVEL_WARNING 255 (cstr "tcti.c") (cstr "init") 42
      (Some sample_blob) 17 (cstr "response") sample_world
    = Returns (LOGLEVEL_WARNING, w')
    /\ new_events sample_world w'
       = evs
         ++ message_events f (cstr "ERROR:tcti:tcti.c:42:init() ")
              (cstr "response (size=17):")
         ++ [Write f
               (cstr "0000: 30313233343536373839616263646566  0123456789abcdef"
                ++ [newline]);
             Fflush f;
             Write f
               (cstr "0010: 0a                                ."
                ++ [newline]);
             Fflush f].
Proof.
  destruct (proj1 (doLogBlob_17_bytes 255 true 18 memset_zero
                     LOGLEVEL_ERROR (cstr "tcti") LOGLEVEL_WARNING 255
                     (cstr "tcti.c") (cstr "init") 42 sample_blob
                     (cstr "response") sample_world (cstr "ERROR") eq_refl
                     ltac:(discriminate) eq_refl ltac:(lia)))
    as (w' & f & evs & Hrun & Hev & _).
  exists w', f, evs. split; [exact Hrun | exact Hev].
Defined.


(** * The further properties at sample inputs *)

Lemma case_insensitive_strncmp_zero_witness :
  lower_eq (firstn 7 (to_nul (cstr "StdErr")))
           (firstn 7 (to_nul (cstr "stderr")))
  /\ case_insensitive_strncmp (Some (cstr "StdErr")) (Some (cstr "stderr")) 7
     = 0.
Proof.
  split; [reflexivity|].
  apply (proj2 (proj1 case_insensitive_strncmp_zero
                  (cstr "StdErr") (cstr "stderr") 7%nat)).
  reflexivity.
Defined.

Lemma log_stringlevel_cases_witness :
  exists i name,
    nth_error log_strings i = Some name
    /\ starts_ci (cstr "debugger") name
    /\ log_stringlevel 255 (cstr "debugger") = Z.of_nat i.
Proof.
  destruct (log_stringlevel_cases 255 (cstr "debugger")) as [[H _]|H];
    [vm_compute in H; discriminate H | exact H].
Defined.

Lemma getLogLevel_loop_terminates_witness :
  (length (cstr "all+debug") < 10)%nat
  /\ getLogLevel_while 255 10 (cstr "all+debug") (cstr "tcti") 0
       LOGLEVEL_NONE
     = Some (getLogLevel 255 (Some (cstr "all+debug")) (cstr "tcti")
               LOGLEVEL_NONE).
Proof.
  split; [cbn; lia|].
  apply (getLogLevel_loop_terminates 255). cbn. lia.
Defined.

Lemma getLogLevel_case_insensitive_witness :
  lower_eq (cstr "tcti") (cstr "TCTI")
  /\ lower_eq (cstr "TCTI+Debug") (cstr "tcti+DEBUG")
  /\ getLogLevel 255 (Some (cstr "TCTI+Debug")) (cstr "tcti") LOGLEVEL_NONE
     = getLogLevel 255 (Some (cstr "tcti+DEBUG")) (cstr "TCTI")
         LOGLEVEL_NONE.
Proof.
  split; [reflexivity|]. split; [reflexivity|].
  apply (getLogLevel_case_insensitive 255); reflexivity.
Defined.

Lemma emitters_level_cache_witness :
  exists s' w',
    doLog 255 true LOGLEVEL_ERROR (cstr "tcti") LOGLEVEL_WARNING 255
      (cstr "tcti.c") (cstr "init") 42 (cstr "failed")
      (sample_world_log (cstr "tcti+debug"))
    = Returns (s', w')
    /\ s' = LOGLEVEL_DEBUG
    /\ exists evs,
         new_events (sample_world_log (cstr "tcti+debug")) w'
         = [Getenv "TSS2_LOG"] ++ evs
         /\ ~ In (Getenv "TSS2_LOG") evs.
Proof.
  destruct (doLog 255 true LOGLEVEL_ERROR (cstr "tcti") LOGLEVEL_WARNING 255
              (cstr "tcti.c") (cstr "init") 42 (cstr "failed")
              (sample_world_log (cstr "tcti+debug")))
    as [[s' w']| |] eqn:E;
    [| vm_compute in E; discriminate E ..].
  exists s', w'. split; [reflexivity|].
  exact (proj1 (emitters_level_cache 255 true LOGLEVEL_ERROR (cstr "tcti")
                  LOGLEVEL_WARNING 255 (cstr "tcti.c") (cstr "init") 42
                  (cstr "failed") (sample_world_log (cstr "tcti+debug")))
           s' w' E).
Defined.

Lemma emitters_single_stream_witness :
  exists s' w' f,
    doLogBlob 255 true 18 memset_zero LOGLEVEL_ERROR (cstr "tcti")
      LOGLEVEL_WARNING 255 (cstr "tcti.c") (cstr "init") 42
      (Some sample_blob) 17 (cstr "response")
      (sample_world_logfile (cstr "stdout"))
    = Returns (s', w')
    /\ Forall (on_stream f)
         (new_events (sample_world_logfile (cstr "stdout")) w')
    /\ (written (new_events (sample_world_logfile (cstr "stdout")) w') <> []
        -> exists evs0,
             new_events (sample_world_logfile (cstr "stdout")) w'
             = evs0 ++ [Fflush f]).
Proof.
  destruct (doLogBlob 255 true 18 memset_zero LOGLEVEL_ERROR (cstr "tcti")
              LOGLEVEL_WARNING 255 (cstr "tcti.c") (cstr "init") 42
              (Some sample_blob) 17 (cstr "response")
              (sample_world_logfile (cstr "stdout")))
    as [[s' w']| |] eqn:E;
    [| vm_compute in E; discriminate E ..].
  destruct (proj2 (emitters_single_stream 255 true LOGLEVEL_ERROR
                     (cstr "tcti") LOGLEVEL_WARNING 255 (cstr "tcti.c")
                     (cstr "init") 42 (cstr "response")
                     (sample_world_logfile (cstr "stdout")))
              18%nat memset_zero (Some sample_blob) 17 s' w' E)
    as (f & H).
  exists s', w', f. split; [reflexivity | exact H].
Defined.

Lemma emitters_without_log_file_witness :
  exists s' w' L S,
    doLog 255 false LOGLEVEL_ERROR (cstr "tcti") LOGLEVEL_WARNING 255
      (cstr "tcti.c") (cstr "init") 42 (cstr "failed")
      (sample_world_logfile (cstr "stdout"))
    = Returns (s', w')
    /\ new_events (sample_world_logfile (cstr "stdout")) w' = L ++ S
    /\ level_reads L /\ Forall (stream_event stderr) S.
Proof.
  destruct (doLog 255 false LOGLEVEL_ERROR (cstr "tcti") LOGLEVEL_WARNING
              255 (cstr "tcti.c") (cstr "init") 42 (cstr "failed")
              (sample_world_logfile (cstr "stdout")))
    as [[s' w']| |] eqn:E;
    [| vm_compute in E; discriminate E ..].
  destruct (proj1 (emitters_without_log_file 255 false LOGLEVEL_ERROR
                     (cstr "tcti") LOGLEVEL_WARNING 255 (cstr "tcti.c")
                     (cstr "init") 42 (cstr "failed")
                     (sample_world_logfile (cstr "stdout")) eq_refl)
              s' w' E)
    as (L & S & H).
  exists s', w', L, S. split; [reflexivity | exact H].
Defined.

Lemma destination_resolved_once_witness :
  exists w' f,
    doLog 255 true LOGLEVEL_ERROR (cstr "tcti") LOGLEVEL_WARNING 255
      (cstr "tcti.c") (cstr "init") 42 (cstr "failed")
      (sample_world_logfile (cstr "/var/log/tss.log"))
    = Returns (LOGLEVEL_WARNING, w')
    /\ In (Write f (cstr "failed"))
         (new_events (sample_world_logfile (cstr "/var/log/tss.log")) w')
    /\ resolved_to true f w'.
Proof.
  exact (proj1 (destination_resolved_once 255 true) LOGLEVEL_ERROR
           (cstr "tcti") LOGLEVEL_WARNING 255 (cstr "tcti.c") (cstr "init")
           42 (cstr "failed")
           (sample_world_logfile (cstr "/var/log/tss.log")) (cstr "ERROR")
           eq_refl ltac:(discriminate)).
Defined.

Lemma doLog_line_format_witness :
  exists w' f evs,
    doLog 255 true LOGLEVEL_ERROR (cstr "tcti") LOGLEVEL_WARNING 255
      (cstr "tcti.c") (cstr "init") 42 (cstr "failed") sample_world
    = Returns (LOGLEVEL_WARNING, w')
    /\ new_events sample_world w'
       = evs ++ [Write f (cstr "ERROR:tcti:tcti.c:42:init() ");
                 Write f (cstr "failed");
                 Write f (cstr " " ++ [newline]);
                 Fflush f]
    /\ (open_fails true sample_world = false -> written evs = []).
Proof.
  exact (proj1 (doLog_line_format 255 true LOGLEVEL_ERROR (cstr "tcti")
                  LOGLEVEL_WARNING 255 (cstr "tcti.c") (cstr "init") 42
                  (cstr "failed") sample_world (cstr "ERROR") eq_refl
                  ltac:(discriminate))).
Defined.

Lemma all_none_silences_witness :
  exists w',
    doLog 255 true LOGLEVEL_ERROR (cstr "tcti") LOGLEVEL_TRACE 255
      (cstr "tcti.c") (cstr "init") 42 (cstr "failed")
      (sample_world_log (cstr "tcti+trace," ++ cstr "all+none"))
    = Returns (LOGLEVEL_NONE, w')
    /\ written
         (new_events
            (sample_world_log (cstr "tcti+trace," ++ cstr "all+none")) w')
       = [].
Proof.
  exact (proj1 (all_none_silences 255 ltac:(lia) true (cstr "tcti+trace,")
                  LOGLEVEL_ERROR (cstr "tcti") LOGLEVEL_TRACE (cstr "tcti.c")
                  (cstr "init") 42 (cstr "failed")
                  (sample_world_log (cstr "tcti+trace," ++ cstr "all+none"))
                  eq_refl eq_refl eq_refl eq_refl)).
Defined.



Lemma doLogBlob_dump_format_witness :
  exists w' f evs,
    doLogBlob 255 true 20 memset_zero LOGLEVEL_ERROR (cstr "tcti")
      LOGLEVEL_WARNING 255 (cstr "tcti.c") (cstr "init") 42
      (Some (map byte_of_ascii (cstr "0123456789abcdefTSS"))) 19
      (cstr "response") sample_world
    = Returns (LOGLEVEL_WARNING, w')
    /\ new_events sample_world w'
       = evs
         ++ message_events f (cstr "ERROR:tcti:tcti.c:42:init() ")
              (cstr "response (size=19):")
         ++ line_events f
              [cstr "0000: 30313233343536373839616263646566  0123456789abcdef";
               cstr "0010: 545353" ++ repeat " "%char 28 ++ cstr "TSS"]
    /\ (open_fails true sample_world = false -> written evs = []).
Proof.
  exact (doLogBlob_dump_format 255 true 20 memset_zero LOGLEVEL_ERROR
           (cstr "tcti") LOGLEVEL_WARNING 255 (cstr "tcti.c") (cstr "init")
           42 (map byte_of_ascii (cstr "0123456789abcdefTSS")) 19
           (cstr "response") sample_world (cstr "ERROR") eq_refl
           ltac:(discriminate) eq_refl ltac:(discriminate)
           ltac:(cbn; lia)).
Defined.

Lemma emitters_level_out_of_table_witness :
  6 < 7
  /\ doLog 255 true 7 (cstr "tcti") 7 255 (cstr "tcti.c") (cstr "init") 42
       (cstr "failed") sample_world
     = Undefined.
Proof.
  split; [lia|].
  exact (proj1 (emitters_level_out_of_table 255 true 7 (cstr "tcti") 7 255
                  (cstr "tcti.c") (cstr "init") 42 (cstr "failed")
                  sample_world ltac:(lia) ltac:(discriminate))).
Defined.

Lemma doLogBlob_size_beyond_uint_witness :
  UINT_MAX <= 4294967296
  /\ ~ (exists x,
          doLogBlob 255 true 100 memset_zero LOGLEVEL_ERROR (cstr "tcti")
            LOGLEVEL_WARNING 255 (cstr "tcti.c") (cstr "init") 42
            (Some sample_blob) 4294967296 (cstr "response") sample_world
          = Returns x).
Proof.
  split; [discriminate|]. intros [x H].
  exact (doLogBlob_size_beyond_uint 255 true 100 memset_zero LOGLEVEL_ERROR
           (cstr "tcti") LOGLEVEL_WARNING 255 (cstr "tcti.c") (cstr "init")
           42 sample_blob 4294967296 (cstr "response") sample_world
           ltac:(discriminate) ltac:(discriminate) x H).
Defined.

Lemma getLogLevel_last_entry_witness :
  getLogLevel 255 (Some (cstr "all+error,tcti" ++ "+"%char :: cstr "trace"))
    (cstr "tcti") LOGLEVEL_NONE = LOGLEVEL_TRACE
  /\ getLogLevel 255 (Some (cstr "all+error,esys" ++ "+"%char :: cstr "trace"))
       (cstr "tcti") LOGLEVEL_NONE
     = getLogLevel 255 (Some (cstr "all+error,esys")) (cstr "tcti")
         LOGLEVEL_NONE.
Proof.
  split.
  - exact (getLogLevel_last_entry 255 (cstr "all+error,tcti") (cstr "trace")
             (cstr "tcti") LOGLEVEL_NONE eq_refl eq_refl eq_refl).
  - exact (getLogLevel_last_entry 255 (cstr "all+error,esys") (cstr "trace")
             (cstr "tcti") LOGLEVEL_NONE eq_refl eq_refl eq_refl).
Defined.

Lemma doLog_open_failure_witness :
  exists w',
    doLog 255 true LOGLEVEL_ERROR (cstr "tcti") LOGLEVEL_WARNING
      LOGLEVEL_WARNING (cstr "tcti.c") (cstr "init") 42 (cstr "failed")
      sample_world_unwritable
    = Returns (LOGLEVEL_WARNING, w')
    /\ new_events sample_world_unwritable w'
       = [Getenv "TSS2_LOGFILE";
          Fopen (cstr "/nonexistent/tss.log") "a+";
          Write stderr
            (cstr "Failed to open logging file /nonexistent/tss.log: No such file or directory"
             ++ [newline]);
          Fflush stderr;
          Write stderr (cstr "ERROR:tcti:tcti.c:42:init() ");
          Write stderr (cstr "failed");
          Write stderr (cstr " " ++ [newline]);
          Fflush stderr]
    /\ logfile_static w' = Some stderr.
Proof.
  exact (doLog_open_failure 255 true LOGLEVEL_ERROR (cstr "tcti")
           LOGLEVEL_WARNING LOGLEVEL_WARNING (cstr "tcti.c") (cstr "init")
           42 (cstr "failed") sample_world_unwritable (cstr "ERROR")
           (cstr "/nonexistent/tss.log") (cstr "No such file or directory")
           eq_refl eq_refl eq_refl eq_refl eq_refl ltac:(discriminate)).
Defined.

Lemma doLogBlob_reads_within_size_witness :
  doLogBlob 255 true 18 memset_zero LOGLEVEL_ERROR (cstr "tcti")
    LOGLEVEL_WARNING 255 (cstr "tcti.c") (cstr "init") 42
    (Some (sample_blob ++ map byte_of_ascii (cstr "secret"))) 17
    (cstr "response") sample_world
  = doLogBlob 255 true 18 memset_zero LOGLEVEL_ERROR (cstr "tcti")
      LOGLEVEL_WARNING 255 (cstr "tcti.c") (cstr "init") 42
      (Some sample_blob) 17 (cstr "response") sample_world.
Proof.
  exact (doLogBlob_reads_within_size 255 true 18 memset_zero LOGLEVEL_ERROR
           (cstr "tcti") LOGLEVEL_WARNING 255 (cstr "tcti.c") (cstr "init")
           42 sample_blob (map byte_of_ascii (cstr "secret")) 17
           (cstr "response") sample_world eq_refl eq_refl ltac:(cbn; lia)).
Defined.


(** A buffer of 64 KiB and one byte: the last line of its dump, at offset
    [0x10000]. *)
Lemma doLogBlob_dump_wide_offset_witness :
  exists w' f,
    doLogBlob 255 true (Z.to_nat 65538) memset_zero LOGLEVEL_ERROR
      (cstr "tcti") LOGLEVEL_WARNING 255 (cstr "tcti.c") (cstr "init") 42
      (Some (repeat Byte.x00 (Z.to_nat 65537))) 65537 (cstr "response")
      sample_world
    = Returns (LOGLEVEL_WARNING, w')
    /\ In (Write f
             ((cstr "10000:00" ++ repeat " "%char 32 ++ cstr ".")
              ++ [newline]))
          (new_events sample_world w').
Proof.
  exact (doLogBlob_dump_wide_offset 255 true (Z.to_nat 65538) memset_zero
           LOGLEVEL_ERROR (cstr "tcti") LOGLEVEL_WARNING 255 (cstr "tcti.c")
           (cstr "init") 42 (repeat Byte.x00 (Z.to_nat 65537)) 65537
           (cstr "response") sample_world (cstr "ERROR") 4096%nat eq_refl
           ltac:(discriminate) ltac:(vm_compute; reflexivity)
           ltac:(reflexivity)
           ltac:(apply Nat.ltb_lt; vm_compute; reflexivity)
           ltac:(split; [apply Z.leb_le | apply Z.ltb_lt];
                 vm_compute; reflexivity)
           ltac:(apply Nat.ltb_lt; vm_compute; reflexivity)).
Defined.
